(** * mcp-hydrolix pagination: cursors, query hashing and the pagination rewrite

    A shallow embedding of [src/mcp_hydrolix/pagination.py] together with the
    parts of the Python standard library it calls ([str.strip], [str.encode],
    [bytes.decode], [hashlib.sha256], [json.dumps], [json.loads],
    [base64.urlsafe_b64encode], [base64.urlsafe_b64decode]), written as
    executable functions so that every statement can be evaluated on
    concrete inputs.

    Conventions.
    - A Python [str] is a list of Unicode code points ([Z], 0 .. 0x10FFFF,
      surrogates included, as in CPython).
    - A Python [bytes] is a list of [Z] in 0 .. 255.
    - A Python [int] is a [Z].
    - A raising call returns [Err e]; a returning call returns [Ok v]. *)

From Stdlib Require Import String Ascii ZArith List Lia Bool.
Import ListNotations.
Local Open Scope Z_scope.

(* ================================================================= *)
(** ** Python values *)

Definition str := list Z.
Definition bytes := list Z.

(** An ASCII literal as a [str]. *)
Definition lit (s : string) : str :=
  map (fun a => Z.of_N (N_of_ascii a)) (list_ascii_of_string s).

Definition in_range (lo hi c : Z) : bool := (lo <=? c) && (c <=? hi).

Definition is_codepoint (c : Z) : bool := in_range 0 0x10FFFF c.
Definition is_high_surrogate (c : Z) : bool := in_range 0xD800 0xDBFF c.
Definition is_low_surrogate (c : Z) : bool := in_range 0xDC00 0xDFFF c.
Definition is_surrogate (c : Z) : bool := in_range 0xD800 0xDFFF c.

(** The invariant of the type [str]. *)
Definition wf_str (s : str) : Prop := forallb is_codepoint s = true.

Fixpoint str_eqb (a b : str) : bool :=
  match a, b with
  | [], [] => true
  | x :: a', y :: b' => (x =? y) && str_eqb a' b'
  | _, _ => false
  end.

(** The values [json.loads] can produce and the fields of a dataclass can
    hold.  A float is kept as the literal it was read from: nothing below
    depends on the numeric value of one. *)
#[warnings="-register-all"]
Inductive pyval : Type :=
| PNone
| PBool (b : bool)
| PInt (n : Z)
| PFloat (literal : str)
| PStr (s : str)
| PList (l : list pyval)
| PDict (d : list (str * pyval)).

(** Exceptions that leave the functions of the module. *)
Inductive value_error : Type :=
| InvalidTableListCursor      (* "Invalid TableListCursor format: ..." *)
| InvalidQueryResultCursor    (* "Invalid QueryResultCursor format: ..." *)
| CursorDatabaseMismatch      (* "Cursor database mismatch: ..." *)
| QueryHasChanged.            (* "Query has changed since cursor was generated" *)

Inductive exn : Type :=
| ValueError (m : value_error)
| UnicodeEncodeError          (* str.encode() met a surrogate *)
| UnicodeDecodeError          (* bytes.decode() met ill-formed UTF-8 *)
| RewriteError.               (* the SQL text could not be tokenized *)

Inductive result (A : Type) : Type :=
| Ok (a : A)
| Err (e : exn).
Arguments Ok {A} a.
Arguments Err {A} e.

Definition bind {A B} (r : result A) (k : A -> result B) : result B :=
  match r with
  | Ok a => k a
  | Err e => Err e
  end.

Notation "'do' x <- r ; k" := (bind r (fun x => k))
  (at level 10, x name, r at level 100, k at level 200).

Definition obind {A B} (o : option A) (k : A -> option B) : option B :=
  match o with
  | Some a => k a
  | None => None
  end.

Notation "'try' x <- o ; k" := (obind o (fun x => k))
  (at level 10, x pattern, o at level 100, k at level 200).

(* ================================================================= *)
(** ** [str.strip()] *)

(** [Py_UNICODE_ISSPACE]: the code points Python treats as whitespace. *)
Definition isspace (c : Z) : bool :=
  in_range 0x09 0x0D c || in_range 0x1C 0x20 c ||
  (c =? 0x85) || (c =? 0xA0) || (c =? 0x1680) ||
  in_range 0x2000 0x200A c || (c =? 0x2028) || (c =? 0x2029) ||
  (c =? 0x202F) || (c =? 0x205F) || (c =? 0x3000).

Fixpoint lstrip (s : str) : str :=
  match s with
  | [] => []
  | c :: s' => if isspace c then lstrip s' else s
  end.

Definition rstrip (s : str) : str := rev (lstrip (rev s)).

Definition strip (s : str) : str := rstrip (lstrip s).

(* ================================================================= *)
(** ** [str.encode()]: UTF-8, strict *)

Definition utf8_encode_char (c : Z) : option bytes :=
  if c <? 0x80 then Some [c]
  else if c <? 0x800 then
    Some [Z.lor 0xC0 (Z.shiftr c 6); Z.lor 0x80 (Z.land c 0x3F)]
  else if is_surrogate c then None
  else if c <? 0x10000 then
    Some [Z.lor 0xE0 (Z.shiftr c 12);
          Z.lor 0x80 (Z.land (Z.shiftr c 6) 0x3F);
          Z.lor 0x80 (Z.land c 0x3F)]
  else
    Some [Z.lor 0xF0 (Z.shiftr c 18);
          Z.lor 0x80 (Z.land (Z.shiftr c 12) 0x3F);
          Z.lor 0x80 (Z.land (Z.shiftr c 6) 0x3F);
          Z.lor 0x80 (Z.land c 0x3F)].

Fixpoint utf8_encode (s : str) : option bytes :=
  match s with
  | [] => Some []
  | c :: s' =>
      try b <- utf8_encode_char c;
      try bs <- utf8_encode s';
      Some (b ++ bs)
  end.

Definition str_encode (s : str) : result bytes :=
  match utf8_encode s with
  | Some b => Ok b
  | None => Err UnicodeEncodeError
  end.

(* ================================================================= *)
(** ** [hashlib.sha256] (FIPS 180-4) *)

Module SHA256.

Definition add32 (x y : Z) : Z := (x + y) mod 2 ^ 32.

Definition rotr (n x : Z) : Z :=
  Z.lor (Z.shiftr x n) ((Z.shiftl x (32 - n)) mod 2 ^ 32).

Definition not32 (x : Z) : Z := Z.lxor x 0xFFFFFFFF.

Definition Ch (x y z : Z) : Z := Z.lxor (Z.land x y) (Z.land (not32 x) z).
Definition Maj (x y z : Z) : Z :=
  Z.lxor (Z.lxor (Z.land x y) (Z.land x z)) (Z.land y z).
Definition bsig0 (x : Z) : Z := Z.lxor (Z.lxor (rotr 2 x) (rotr 13 x)) (rotr 22 x).
Definition bsig1 (x : Z) : Z := Z.lxor (Z.lxor (rotr 6 x) (rotr 11 x)) (rotr 25 x).
Definition ssig0 (x : Z) : Z := Z.lxor (Z.lxor (rotr 7 x) (rotr 18 x)) (Z.shiftr x 3).
Definition ssig1 (x : Z) : Z := Z.lxor (Z.lxor (rotr 17 x) (rotr 19 x)) (Z.shiftr x 10).

(** The constants of the standard are fractional bits of roots of the
    first primes: the round constants the first 32 fractional bits of their
    cube roots, the initial hash value those of the square roots of the
    first eight. *)
Definition first_primes : list Z :=
  [2; 3; 5; 7; 11; 13; 17; 19; 23; 29; 31; 37; 41; 43; 47; 53; 59; 61; 67; 71;
   73; 79; 83; 89; 97; 101; 103; 107; 109; 113; 127; 131; 137; 139; 149; 151;
   157; 163; 167; 173; 179; 181; 191; 193; 197; 199; 211; 223; 227; 229; 233;
   239; 241; 251; 257; 263; 269; 271; 277; 281; 283; 293; 307; 311].

(** [floor_root k x] is the largest [r] with [r ^ k <= x], found by
    bisection between [lo] and [hi]. *)
Fixpoint bisect_root (fuel : nat) (k lo hi x : Z) : Z :=
  match fuel with
  | O => lo
  | S f =>
      let mid := (lo + hi) / 2 in
      if mid ^ k <=? x then bisect_root f k mid hi x
      else bisect_root f k lo mid x
  end.

Definition floor_root (k x : Z) : Z := bisect_root 48 k 0 (2 ^ 40) x.

(** The first 32 bits of the fractional part of the [k]-th root of [p]. *)
Definition root_fraction (k p : Z) : Z :=
  floor_root k (p * 2 ^ (32 * k)) mod 2 ^ 32.

Definition K : list Z :=
  Eval vm_compute in map (root_fraction 3) first_primes.

(** The eight working words. *)
Record state : Type := mkState
  { wa : Z; wb : Z; wc : Z; wd : Z; we : Z; wf : Z; wg : Z; wh : Z }.

Definition H0 : state :=
  Eval vm_compute in
    match map (root_fraction 2) (firstn 8 first_primes) with
    | [a; b; c; d; e; f; g; h] => mkState a b c d e f g h
    | _ => mkState 0 0 0 0 0 0 0 0
    end.

(** Big-endian word of four bytes. *)
Definition word_of (b0 b1 b2 b3 : Z) : Z :=
  Z.lor (Z.lor (Z.shiftl b0 24) (Z.shiftl b1 16)) (Z.lor (Z.shiftl b2 8) b3).

Fixpoint words_of (n : nat) (bs : bytes) : list Z :=
  match n, bs with
  | S n', b0 :: b1 :: b2 :: b3 :: rest => word_of b0 b1 b2 b3 :: words_of n' rest
  | _, _ => []
  end.

(** Message schedule: [w] holds W_0 .. W_{t-1}, most recent first. *)
Fixpoint schedule (n : nat) (w : list Z) : list Z :=
  match n with
  | O => w
  | S n' =>
      let x := add32 (add32 (ssig1 (nth 1 w 0)) (nth 6 w 0))
                     (add32 (ssig0 (nth 14 w 0)) (nth 15 w 0)) in
      schedule n' (x :: w)
  end.

Definition round (s : state) (kw : Z * Z) : state :=
  let (k, w) := kw in
  let t1 := add32 (add32 (add32 (wh s) (bsig1 (we s))) (Ch (we s) (wf s) (wg s)))
                  (add32 k w) in
  let t2 := add32 (bsig0 (wa s)) (Maj (wa s) (wb s) (wc s)) in
  mkState (add32 t1 t2) (wa s) (wb s) (wc s) (add32 (wd s) t1) (we s) (wf s) (wg s).

Definition compress (h : state) (block : bytes) : state :=
  let w := rev (schedule 48 (rev (words_of 16 block))) in
  let s := fold_left round (combine K w) h in
  mkState (add32 (wa h) (wa s)) (add32 (wb h) (wb s))
          (add32 (wc h) (wc s)) (add32 (wd h) (wd s))
          (add32 (we h) (we s)) (add32 (wf h) (wf s))
          (add32 (wg h) (wg s)) (add32 (wh h) (wh s)).

Definition be_bytes (n : nat) (x : Z) : bytes :=
  map (fun i => (Z.shiftr x (8 * Z.of_nat i)) mod 256) (rev (seq 0 n)).

Definition pad (msg : bytes) : bytes :=
  let len := Z.of_nat (length msg) in
  msg ++ [0x80] ++ repeat 0 (Z.to_nat ((55 - len) mod 64))
      ++ be_bytes 8 ((8 * len) mod 2 ^ 64).

Fixpoint blocks (n : nat) (h : state) (bs : bytes) : state :=
  match n with
  | O => h
  | S n' => blocks n' (compress h (firstn 64 bs)) (skipn 64 bs)
  end.

Definition digest (msg : bytes) : bytes :=
  let p := pad msg in
  let h := blocks (Nat.div (length p) 64) H0 p in
  concat (map (be_bytes 4)
    [wa h; wb h; wc h; wd h; we h; wf h; wg h; wh h]).

End SHA256.

(** [bytes.hex()] / [hexdigest()]: two lowercase hexadecimal digits a byte. *)
Definition hexdigit (d : Z) : Z := if d <? 10 then 48 + d else 87 + d.

Definition hexlify (bs : bytes) : str :=
  flat_map (fun b => [hexdigit ((b / 16) mod 16); hexdigit (b mod 16)]) bs.

Definition sha256_hexdigest (msg : bytes) : str := hexlify (SHA256.digest msg).

(* ================================================================= *)
(** ** [hash_query] *)

(** [hashlib.sha256(query.strip().encode()).hexdigest()] *)
Definition hash_query (query : str) : result str :=
  do b <- str_encode (strip query);
  Ok (sha256_hexdigest b).

(* ================================================================= *)
(** ** [int.__repr__]

    The decimal text of an integer.  CPython refuses to write, and to read,
    a decimal of more than [sys.int_max_str_digits] digits, 4300 by
    default, and raises [ValueError]; the functions here are the
    conversion without that limit, and [within_digit_limit] below states
    the bound. *)

Fixpoint digits_aux (fuel : nat) (n : Z) (acc : str) : str :=
  match fuel with
  | O => acc
  | S f =>
      let acc' := (48 + n mod 10) :: acc in
      if n <? 10 then acc' else digits_aux f (n / 10) acc'
  end.

(** Decimal digits of a natural number; the fuel exceeds the number of
    digits. *)
Definition nat_repr (n : Z) : str := digits_aux (S (Z.to_nat (Z.log2 n))) n [].

Definition int_repr (n : Z) : str :=
  if n <? 0 then 45 :: nat_repr (- n) else nat_repr n.

(* ================================================================= *)
(** ** [json.dumps(obj, sort_keys=True)]

    Defaults of [json.dumps]: [ensure_ascii=True], item separator [", "],
    key separator [": "].  A float is written as the literal it was read
    from; [float.__repr__] is not modelled. *)

Definition hex4 (c : Z) : str :=
  [hexdigit ((c / 4096) mod 16); hexdigit ((c / 256) mod 16);
   hexdigit ((c / 16) mod 16); hexdigit (c mod 16)].

(** [ascii_escape_unichar] of the C encoder ([ESCAPE_ASCII] of the Python
    one): printable ASCII other than the quote and the backslash is kept,
    everything else is escaped; a code point above the BMP becomes a
    surrogate pair. *)
Definition escape_char (c : Z) : str :=
  if in_range 32 126 c && negb (c =? 34) && negb (c =? 92) then [c]
  else if c =? 92 then [92; 92]
  else if c =? 34 then [92; 34]
  else if c =? 8 then [92; 98]
  else if c =? 12 then [92; 102]
  else if c =? 10 then [92; 110]
  else if c =? 13 then [92; 114]
  else if c =? 9 then [92; 116]
  else if 0x10000 <=? c then
    [92; 117] ++ hex4 (0xD800 + (c - 0x10000) / 1024) ++
    [92; 117] ++ hex4 (0xDC00 + c mod 1024)
  else [92; 117] ++ hex4 c.

Definition encode_basestring_ascii (s : str) : str :=
  [34] ++ flat_map escape_char s ++ [34].

(** Lexicographic order on code points: [<] on [str]. *)
Fixpoint str_ltb (a b : str) : bool :=
  match a, b with
  | [], [] => false
  | [], _ :: _ => true
  | _ :: _, [] => false
  | x :: a', y :: b' => (x <? y) || ((x =? y) && str_ltb a' b')
  end.

Fixpoint insert_item {A} (kv : str * A) (l : list (str * A)) : list (str * A) :=
  match l with
  | [] => [kv]
  | kv' :: l' =>
      if str_ltb (fst kv') (fst kv) then kv' :: insert_item kv l'
      else kv :: l
  end.

(** [sorted(dct.items())]; the keys of a dict are distinct, so the order is
    decided by the keys. *)
Definition sorted_items {A} (d : list (str * A)) : list (str * A) :=
  fold_right insert_item [] d.

Fixpoint join (sep : str) (parts : list str) : str :=
  match parts with
  | [] => []
  | [p] => p
  | p :: ps => p ++ sep ++ join sep ps
  end.

Section Dumps.
(** The two separators: [(", ", ": ")] by default. *)
Variable item_separator key_separator : str.

Fixpoint dumps_with (v : pyval) : str :=
  match v with
  | PNone => lit "null"
  | PBool true => lit "true"
  | PBool false => lit "false"
  | PInt n => int_repr n
  | PFloat l => l
  | PStr s => encode_basestring_ascii s
  | PList l => [91] ++ join item_separator (map dumps_with l) ++ [93]
  | PDict d =>
      [123] ++
      join item_separator
        (map (fun kv => encode_basestring_ascii (fst kv) ++ key_separator ++ snd kv)
             (sorted_items
                (map (fun kv => match kv with (k, x) => (k, dumps_with x) end) d)))
      ++ [125]
  end.
End Dumps.

Definition json_dumps (v : pyval) : str := dumps_with (lit ", ") (lit ": ") v.

(** What the call would give with [separators=(",", ":")]. *)
Definition json_dumps_compact (v : pyval) : str := dumps_with (lit ",") (lit ":") v.

(* ================================================================= *)
(** ** [base64.urlsafe_b64encode] *)

Definition b64_char (i : Z) : Z :=
  if i <? 26 then 65 + i
  else if i <? 52 then 97 + (i - 26)
  else if i <? 62 then 48 + (i - 52)
  else if i =? 62 then 43
  else 47.

Fixpoint b2a_base64 (bs : bytes) : bytes :=
  match bs with
  | [] => []
  | [a] => [b64_char (a / 4); b64_char ((a mod 4) * 16); 61; 61]
  | [a; b] =>
      [b64_char (a / 4); b64_char ((a mod 4) * 16 + b / 16);
       b64_char ((b mod 16) * 4); 61]
  | a :: b :: c :: rest =>
      b64_char (a / 4) :: b64_char ((a mod 4) * 16 + b / 16) ::
      b64_char ((b mod 16) * 4 + c / 64) :: b64_char (c mod 64) ::
      b2a_base64 rest
  end.

(** [bytes.maketrans(b'+/', b'-_')] *)
Definition urlsafe_encode_translation (c : Z) : Z :=
  if c =? 43 then 45 else if c =? 47 then 95 else c.

Definition urlsafe_b64encode (bs : bytes) : bytes :=
  map urlsafe_encode_translation (b2a_base64 bs).

(** [bytes.decode()] of pure-ASCII bytes is handled by [utf8_decode] below;
    the output of [urlsafe_b64encode] is ASCII. *)

(* ================================================================= *)
(** ** [bytes.decode()]: UTF-8, strict *)

Definition is_cont (b : Z) : bool := in_range 0x80 0xBF b.

Fixpoint utf8_decode (bs : bytes) : option str :=
  match bs with
  | [] => Some []
  | b0 :: r0 =>
      if in_range 0 0x7F b0 then
        try s <- utf8_decode r0; Some (b0 :: s)
      else if in_range 0xC2 0xDF b0 then
        match r0 with
        | b1 :: r1 =>
            if is_cont b1 then
              try s <- utf8_decode r1;
              Some ((b0 - 0xC0) * 64 + (b1 - 0x80) :: s)
            else None
        | _ => None
        end
      else if in_range 0xE0 0xEF b0 then
        match r0 with
        | b1 :: b2 :: r2 =>
            if is_cont b1 && is_cont b2
               && (negb (b0 =? 0xE0) || (0xA0 <=? b1))
               && (negb (b0 =? 0xED) || (b1 <? 0xA0)) then
              try s <- utf8_decode r2;
              Some (((b0 - 0xE0) * 64 + (b1 - 0x80)) * 64 + (b2 - 0x80) :: s)
            else None
        | _ => None
        end
      else if in_range 0xF0 0xF4 b0 then
        match r0 with
        | b1 :: b2 :: b3 :: r3 =>
            if is_cont b1 && is_cont b2 && is_cont b3
               && (negb (b0 =? 0xF0) || (0x90 <=? b1))
               && (negb (b0 =? 0xF4) || (b1 <? 0x90)) then
              try s <- utf8_decode r3;
              Some ((((b0 - 0xF0) * 64 + (b1 - 0x80)) * 64 + (b2 - 0x80)) * 64
                    + (b3 - 0x80) :: s)
            else None
        | _ => None
        end
      else None
  end.

(* ================================================================= *)
(** ** [base64.urlsafe_b64decode]

    [urlsafe_b64decode(s)] translates [-] and [_] to [+] and [/] and calls
    [binascii.a2b_base64] in its default, non-strict mode: bytes outside the
    alphabet are skipped, a pad that completes a quad ends the input, and
    leftover sextets are an error ([binascii.Error], a [ValueError]). *)

Definition b64_value (c : Z) : option Z :=
  if in_range 65 90 c then Some (c - 65)
  else if in_range 97 122 c then Some (c - 97 + 26)
  else if in_range 48 57 c then Some (c - 48 + 52)
  else if c =? 43 then Some 62
  else if c =? 47 then Some 63
  else None.

(** The loop of [a2b_base64]: [quad_pos] sextets of the current quad have
    been read, [leftchar] holds the bits not yet written, [pads] counts the
    pads seen since the last sextet. *)
Fixpoint a2b_loop (s : bytes) (quad_pos : nat) (leftchar : Z) (pads : nat)
  : option bytes :=
  match s with
  | [] => if Nat.eqb quad_pos 0 then Some [] else None
  | ch :: s' =>
      if ch =? 61 then
        if Nat.leb 2 quad_pos then
          if Nat.leb 4 (quad_pos + S pads) then Some []
          else a2b_loop s' quad_pos leftchar (S pads)
        else a2b_loop s' quad_pos leftchar pads
      else
        match b64_value ch with
        | None => a2b_loop s' quad_pos leftchar pads
        | Some v =>
            match quad_pos with
            | O => a2b_loop s' 1%nat v 0%nat
            | 1%nat =>
                try r <- a2b_loop s' 2%nat (v mod 16) 0%nat;
                Some ((leftchar * 4 + v / 16) mod 256 :: r)
            | 2%nat =>
                try r <- a2b_loop s' 3%nat (v mod 4) 0%nat;
                Some ((leftchar * 16 + v / 4) mod 256 :: r)
            | _ =>
                try r <- a2b_loop s' 0%nat 0 0%nat;
                Some ((leftchar * 64 + v) mod 256 :: r)
            end
        end
  end.

Definition a2b_base64 (s : bytes) : option bytes := a2b_loop s 0%nat 0 0%nat.

(** [bytes.maketrans(b'-_', b'+/')] *)
Definition urlsafe_decode_translation (c : Z) : Z :=
  if c =? 45 then 43 else if c =? 95 then 47 else c.

Definition urlsafe_b64decode (s : bytes) : option bytes :=
  a2b_base64 (map urlsafe_decode_translation s).

(* ================================================================= *)
(** ** [json.loads]

    The scanner of CPython's [json] module ([scanstring], [_match_number],
    [JSONObject], [JSONArray], [scan_once], [JSONDecoder.decode]) with its
    defaults ([strict=True], no hooks).  Failure of any kind is
    [JSONDecodeError], a [ValueError]: [None] here.  The interpreter's
    recursion limit and its limit on the digits of an integer literal are
    not part of these functions: [within_digit_limit] and [short_token]
    below state the bounds within which they are not met. *)

Definition json_ws (c : Z) : bool :=
  (c =? 32) || (c =? 9) || (c =? 10) || (c =? 13).

Fixpoint skip_ws (s : str) : str :=
  match s with
  | [] => []
  | c :: s' => if json_ws c then skip_ws s' else s
  end.

Definition is_digit (c : Z) : bool := in_range 48 57 c.

Definition hexval (c : Z) : option Z :=
  if in_range 48 57 c then Some (c - 48)
  else if in_range 97 102 c then Some (c - 87)
  else if in_range 65 70 c then Some (c - 55)
  else None.

Definition hex4_value (a b c d : Z) : option Z :=
  try x <- hexval a;
  try y <- hexval b;
  try z <- hexval c;
  try w <- hexval d;
  Some (((x * 16 + y) * 16 + z) * 16 + w).

Definition join_surrogates (hi lo : Z) : Z :=
  0x10000 + ((hi - 0xD800) * 1024 + (lo - 0xDC00)).

Definition simple_escape (e : Z) : option Z :=
  if e =? 34 then Some 34
  else if e =? 92 then Some 92
  else if e =? 47 then Some 47
  else if e =? 98 then Some 8
  else if e =? 102 then Some 12
  else if e =? 110 then Some 10
  else if e =? 114 then Some 13
  else if e =? 116 then Some 9
  else None.

Definition cons_char (c : Z) (r : option (str * str)) : option (str * str) :=
  try (x, rest) <- r; Some (c :: x, rest).

(** [scanstring], entered just after the opening quote: the decoded string
    and the text after the closing quote. *)
Fixpoint scanstring (s : str) : option (str * str) :=
  match s with
  | [] => None
  | c :: s1 =>
      if c =? 34 then Some ([], s1)
      else if c =? 92 then
        match s1 with
        | [] => None
        | e :: s2 =>
            if e =? 117 then
              match s2 with
              | a :: b :: c' :: d :: s6 =>
                  try uni <- hex4_value a b c' d;
                  if is_high_surrogate uni then
                    match s6 with
                    | bs :: u :: s8 =>
                        if (bs =? 92) && (u =? 117) then
                          match s8 with
                          | a2 :: b2 :: c2 :: d2 :: s12 =>
                              try uni2 <- hex4_value a2 b2 c2 d2;
                              if is_low_surrogate uni2
                              then cons_char (join_surrogates uni uni2) (scanstring s12)
                              else cons_char uni (scanstring s6)
                          | _ => None
                          end
                        else cons_char uni (scanstring s6)
                    | _ => cons_char uni (scanstring s6)
                    end
                  else cons_char uni (scanstring s6)
              | _ => None
              end
            else
              try ch <- simple_escape e;
              cons_char ch (scanstring s2)
        end
      else if c <=? 0x1F then None
      else cons_char c (scanstring s1)
  end.

Fixpoint span_digits (s : str) : str * str :=
  match s with
  | [] => ([], [])
  | c :: s' =>
      if is_digit c then let (ds, r) := span_digits s' in (c :: ds, r)
      else ([], s)
  end.

Definition int_of_digits (ds : str) : Z :=
  fold_left (fun a d => 10 * a + (d - 48)) ds 0.

(** [NUMBER_RE]: an optional minus, then a single zero or a nonzero digit
    with more digits; optionally a dot with at least one digit; optionally an
    [e] or [E], an optional sign and at least one digit.  The longest match
    at the start of [s] is taken; with a fraction or an exponent the value
    is a float, else an int. *)
Definition number_sign (s : str) : str * str :=
  match s with
  | c :: t => if c =? 45 then ([45], t) else ([], s)
  | [] => ([], s)
  end.

Definition number_int (s : str) : option (str * str) :=
  match s with
  | c :: s2 =>
      if in_range 49 57 c then
        let (ds, r) := span_digits s2 in Some (c :: ds, r)
      else if c =? 48 then Some ([48], s2)
      else None
  | [] => None
  end.

Definition number_frac (s : str) : str * str :=
  match s with
  | p :: d :: r =>
      if (p =? 46) && is_digit d then
        let (ds, r') := span_digits r in (p :: d :: ds, r')
      else ([], s)
  | _ => ([], s)
  end.

Definition number_exp (s : str) : str * str :=
  match s with
  | e :: r =>
      if (e =? 101) || (e =? 69) then
        let (sg, r') :=
          match r with
          | c :: t => if (c =? 45) || (c =? 43) then ([c], t) else ([], r)
          | [] => ([], r)
          end in
        match span_digits r' with
        | ([], _) => ([], s)
        | (ds, r'') => (e :: sg ++ ds, r'')
        end
      else ([], s)
  | [] => ([], s)
  end.

Definition match_number (s : str) : option (pyval * str) :=
  let (sign, s1) := number_sign s in
  try (ip, r1) <- number_int s1;
  let (frac, r2) := number_frac r1 in
  let (ex, r3) := number_exp r2 in
  match frac, ex with
  | [], [] =>
      Some (PInt (match sign with [] => int_of_digits ip | _ => - int_of_digits ip end),
            r3)
  | _, _ => Some (PFloat (sign ++ ip ++ frac ++ ex), r3)
  end.

Fixpoint strip_prefix (p s : str) : option str :=
  match p, s with
  | [], _ => Some s
  | x :: p', y :: s' => if x =? y then strip_prefix p' s' else None
  | _ :: _, [] => None
  end.

(** [dict(pairs)]: a later pair with the same key replaces the value and
    keeps the position of the first. *)
Fixpoint dict_set (d : list (str * pyval)) (k : str) (v : pyval)
  : list (str * pyval) :=
  match d with
  | [] => [(k, v)]
  | (k', v') :: d' =>
      if str_eqb k' k then (k', v) :: d' else (k', v') :: dict_set d' k v
  end.

Definition dict_of_pairs (ps : list (str * pyval)) : list (str * pyval) :=
  fold_left (fun d kv => dict_set d (fst kv) (snd kv)) ps [].

Fixpoint dict_get (d : list (str * pyval)) (k : str) : option pyval :=
  match d with
  | [] => None
  | (k', v) :: d' => if str_eqb k' k then Some v else dict_get d' k
  end.

Definition scan_constant (s : str) : option (pyval * str) :=
  match strip_prefix (lit "null") s with
  | Some r => Some (PNone, r)
  | None =>
  match strip_prefix (lit "true") s with
  | Some r => Some (PBool true, r)
  | None =>
  match strip_prefix (lit "false") s with
  | Some r => Some (PBool false, r)
  | None =>
  match strip_prefix (lit "NaN") s with
  | Some r => Some (PFloat (lit "NaN"), r)
  | None =>
  match strip_prefix (lit "Infinity") s with
  | Some r => Some (PFloat (lit "Infinity"), r)
  | None =>
  match strip_prefix (lit "-Infinity") s with
  | Some r => Some (PFloat (lit "-Infinity"), r)
  | None => match_number s
  end end end end end end.

(** [scan_once] with [JSONObject] and [JSONArray].  [object_items] is
    entered just after the opening quote of a key, [array_items] at the
    first character of a value.  A nested call has consumed a character of
    the text and costs at most two units of fuel, so fuel of twice the
    length of the text is never used up ([scan_once_fuel] below). *)
Fixpoint scan_once (fuel : nat) (s : str) {struct fuel} : option (pyval * str) :=
  match fuel with
  | O => None
  | S f =>
      match s with
      | [] => None
      | c :: s' =>
          if c =? 34 then
            try (x, r) <- scanstring s'; Some (PStr x, r)
          else if c =? 123 then
            match skip_ws s' with
            | c1 :: r1 =>
                if c1 =? 125 then Some (PDict [], r1)
                else if c1 =? 34 then object_items f [] r1
                else None
            | [] => None
            end
          else if c =? 91 then
            match skip_ws s' with
            | c1 :: r1 =>
                if c1 =? 93 then Some (PList [], r1)
                else array_items f [] (c1 :: r1)
            | [] => None
            end
          else scan_constant s
      end
  end

with object_items (fuel : nat) (acc : list (str * pyval)) (s : str)
       {struct fuel} : option (pyval * str) :=
  match fuel with
  | O => None
  | S f =>
      try (key, r) <- scanstring s;
      match skip_ws r with
      | c :: r1 =>
          if c =? 58 then
            try (v, r2) <- scan_once f (skip_ws r1);
            match skip_ws r2 with
            | c2 :: r3 =>
                if c2 =? 125 then
                  Some (PDict (dict_of_pairs (rev ((key, v) :: acc))), r3)
                else if c2 =? 44 then
                  match skip_ws r3 with
                  | q :: r4 =>
                      if q =? 34 then object_items f ((key, v) :: acc) r4
                      else None
                  | [] => None
                  end
                else None
            | [] => None
            end
          else None
      | [] => None
      end
  end

with array_items (fuel : nat) (acc : list pyval) (s : str)
       {struct fuel} : option (pyval * str) :=
  match fuel with
  | O => None
  | S f =>
      try (v, r) <- scan_once f s;
      match skip_ws r with
      | c :: r1 =>
          if c =? 93 then Some (PList (rev (v :: acc)), r1)
          else if c =? 44 then array_items f (v :: acc) (skip_ws r1)
          else None
      | [] => None
      end
  end.

(** [json.loads(s)]: one value between optional whitespace, nothing after. *)
Definition json_loads (s : str) : option pyval :=
  match strip_prefix [0xFEFF] s with
  | Some _ => None
  | None =>
      try (obj, r) <- scan_once (2 * length s + 2) (skip_ws s);
      match skip_ws r with
      | [] => Some obj
      | _ :: _ => None
      end
  end.

Definition bytes_decode (b : bytes) : result str :=
  match utf8_decode b with
  | Some s => Ok s
  | None => Err UnicodeDecodeError
  end.

(* ================================================================= *)
(** ** The cursor classes *)

Definition is_none (v : pyval) : bool :=
  match v with
  | PNone => true
  | _ => false
  end.

(** [v == s] for a string [s]: a value of another type is never equal. *)
Definition py_eq_str (v : pyval) (s : str) : bool :=
  match v with
  | PStr x => str_eqb x s
  | _ => false
  end.

Module BaseCursorData.

(** [encode], as a function of [self.__dict__]. *)
Definition encode (self_dict : list (str * pyval)) : result str :=
  let cursor_dict := filter (fun kv => negb (is_none (snd kv))) self_dict in
  let json_str := json_dumps (PDict cursor_dict) in
  do b <- str_encode json_str;
  bytes_decode (urlsafe_b64encode b).

(** The shared body of the two [decode] class methods up to the call of
    the constructor: [json.loads(base64.urlsafe_b64decode(cursor.encode()).decode())]. *)
Definition load (cursor : str) : option pyval :=
  try b <- utf8_encode cursor;
  try raw <- urlsafe_b64decode b;
  try json_str <- utf8_decode raw;
  json_loads json_str.

End BaseCursorData.

Module TableListCursor.

(** The dataclass checks no type: a field holds whatever it was given. *)
Record t : Type := mk { offset : pyval; database : pyval }.

Definition dict (self : t) : list (str * pyval) :=
  [(lit "offset", offset self); (lit "database", database self)].

Definition encode (self : t) : result str := BaseCursorData.encode (dict self).

(** [cls] called with the unpacked [data], on the generated
    [__init__(self, offset, database='')]:
    [TypeError] unless [data] is a mapping whose keys are parameter names
    and include [offset]. *)
Definition init (data : pyval) : option t :=
  match data with
  | PDict d =>
      if forallb (fun kv => str_eqb (fst kv) (lit "offset")
                            || str_eqb (fst kv) (lit "database")) d
      then
        try off <- dict_get d (lit "offset");
        Some (mk off (match dict_get d (lit "database") with
                      | Some v => v
                      | None => PStr []
                      end))
      else None
  | _ => None
  end.

Definition decode (cursor : str) : result t :=
  match (try data <- BaseCursorData.load cursor; init data) with
  | Some c => Ok c
  | None => Err (ValueError InvalidTableListCursor)
  end.

Definition validate_params (self : t) (database_ : str) : result unit :=
  if negb (py_eq_str (database self) database_)
  then Err (ValueError CursorDatabaseMismatch)
  else Ok tt.

End TableListCursor.

Module QueryResultCursor.

Record t : Type := mk { offset : pyval; query_hash : pyval }.

Definition dict (self : t) : list (str * pyval) :=
  [(lit "offset", offset self); (lit "query_hash", query_hash self)].

Definition encode (self : t) : result str := BaseCursorData.encode (dict self).

Definition init (data : pyval) : option t :=
  match data with
  | PDict d =>
      if forallb (fun kv => str_eqb (fst kv) (lit "offset")
                            || str_eqb (fst kv) (lit "query_hash")) d
      then
        try off <- dict_get d (lit "offset");
        Some (mk off (match dict_get d (lit "query_hash") with
                      | Some v => v
                      | None => PStr []
                      end))
      else None
  | _ => None
  end.

Definition decode (cursor : str) : result t :=
  match (try data <- BaseCursorData.load cursor; init data) with
  | Some c => Ok c
  | None => Err (ValueError InvalidQueryResultCursor)
  end.

Definition validate_query (self : t) (query : str) : result unit :=
  do expected_hash <- hash_query query;
  if negb (py_eq_str (query_hash self) expected_hash)
  then Err (ValueError QueryHasChanged)
  else Ok tt.

End QueryResultCursor.

(* ================================================================= *)
(** ** The pagination rewriter *)

Module PaginationRewriter.

(** [_add_pagination_to_query] lives in [mcp_hydrolix/mcp_server.py], which
    is not among the sources; the tests import it from there.  The module
    follows section 4.3 of the specification: trim, drop one trailing
    statement terminator, tokenize into classified lexical tokens, look for
    a [LIMIT] or [OFFSET] keyword token, then append or wrap. *)

(** Modelled from the spec: the kinds of lexical token of the missing
    tokenizer, as step 2 of the algorithm lists them. *)
Inductive token_kind : Type :=
| Keyword
| Identifier
| QuotedIdentifier
| StringLiteral
| Comment
| Punctuation.       (* punctuation and whitespace *)

(** Modelled from the spec: a token of the missing tokenizer, its kind and
    the text it was read from. *)
Record token : Type := mkToken { kind : token_kind; text : str }.

Definition upper_char (c : Z) : Z := if in_range 97 122 c then c - 32 else c.
Definition upper (s : str) : str := map upper_char s.

(** Modelled from the spec: the keyword table of the missing tokenizer,
    read-only; of its entries only [LIMIT], [OFFSET] and [AS] matter
    here. *)
Definition keyword_table : list str :=
  map lit
    [ "SELECT"; "FROM"; "WHERE"; "GROUP"; "ORDER"; "BY"; "HAVING"; "LIMIT";
      "OFFSET"; "AS"; "AND"; "OR"; "NOT"; "IN"; "JOIN"; "ON"; "UNION";
      "ALL"; "DISTINCT"; "WITH"; "ASC"; "DESC" ]%string.

Definition is_keyword (w : str) : bool :=
  existsb (str_eqb (upper w)) keyword_table.

(** Modelled from the spec: the characters of a word of the missing
    tokenizer: letters, digits, the underscore and every non-ASCII code
    point that is not whitespace. *)
Definition is_word_char (c : Z) : bool :=
  in_range 65 90 c || in_range 97 122 c || in_range 48 57 c
  || (c =? 95) || ((128 <=? c) && negb (isspace c)).

(** Whitespace and comments, which stand between the tokens that count. *)
Definition is_blank (t : token) : bool :=
  match kind t with
  | Comment => true
  | Punctuation => forallb isspace (text t)
  | _ => false
  end.

(** The last token that is neither whitespace nor a comment; the tokens
    read so far are kept newest first. *)
Fixpoint last_significant (out : list token) : option token :=
  match out with
  | [] => None
  | t :: out' => if is_blank t then last_significant out' else Some t
  end.

Definition after_dot (out : list token) : bool :=
  match out with
  | t :: _ =>
      match kind t with
      | Punctuation => str_eqb (text t) [46]
      | _ => false
      end
  | [] => false
  end.

Definition after_as (out : list token) : bool :=
  match last_significant out with
  | Some t =>
      match kind t with
      | Keyword => str_eqb (upper (text t)) (lit "AS")
      | _ => false
      end
  | None => false
  end.

(** Modelled from the spec: step 2 asks that a column or table name that
    merely shares the spelling of a keyword be told from the keyword.  A
    word stands in the place of a name when a dot is directly before or
    after it (a qualified name) or when it follows [AS] (an alias); [out]
    holds the tokens before the word and [next] the character after it. *)
Definition name_position (out : list token) (next : option Z) : bool :=
  after_dot out || after_as out
  || match next with
     | Some c => c =? 46
     | None => false
     end.

(** Modelled from the spec: the token of the word [w]: an identifier in
    the place of a name, otherwise a keyword or an identifier by the
    table. *)
Definition word_token (out : list token) (next : option Z) (w : str) : token :=
  mkToken (if name_position out next then Identifier
           else if is_keyword w then Keyword else Identifier) w.

(** Modelled from the spec: the closing delimiter of a quoted identifier
    opened by [c]: backtick, double quote or bracket. *)
Definition quote_closer (c : Z) : option Z :=
  if c =? 96 then Some 96
  else if c =? 34 then Some 34
  else if c =? 91 then Some 93
  else None.

(** Modelled from the spec: what the missing tokenizer is reading, with
    the characters of the token read so far newest first. *)
Inductive mode : Type :=
| Top
| InWord (acc : str)
| AfterDash
| AfterSlash
| InLineComment (acc : str)
| InBlockComment (star : bool) (acc : str)
| InString (acc : str)
| InQuoted (closer : Z) (acc : str).

(** Modelled from the spec: the state of the missing tokenizer, the mode
    and the tokens already read, newest first. *)
Record lexer : Type := mkLexer { cur : mode; out : list token }.

(** Modelled from the spec: the missing tokenizer reads [c] between two
    tokens. *)
Definition start (out : list token) (c : Z) : lexer :=
  if is_word_char c then mkLexer (InWord [c]) out
  else if c =? 39 then mkLexer (InString [c]) out
  else
    match quote_closer c with
    | Some cl => mkLexer (InQuoted cl [c]) out
    | None =>
        if c =? 45 then mkLexer AfterDash out
        else if c =? 47 then mkLexer AfterSlash out
        else mkLexer Top (mkToken Punctuation [c] :: out)
    end.

(** Modelled from the spec: one step of the missing tokenizer.  Words are
    keywords or identifiers; quoted identifiers, string literals and
    comments are opaque: inside one, every character up to the closing
    delimiter is taken into the token, whatever it spells. *)
Definition step (st : lexer) (c : Z) : lexer :=
  match cur st with
  | Top => start (out st) c
  | InWord acc =>
      if is_word_char c then mkLexer (InWord (c :: acc)) (out st)
      else start (word_token (out st) (Some c) (rev acc) :: out st) c
  | AfterDash =>
      if c =? 45 then mkLexer (InLineComment [c; 45]) (out st)
      else start (mkToken Punctuation [45] :: out st) c
  | AfterSlash =>
      if c =? 42 then mkLexer (InBlockComment false [c; 47]) (out st)
      else start (mkToken Punctuation [47] :: out st) c
  | InLineComment acc =>
      if c =? 10 then start (mkToken Comment (rev acc) :: out st) c
      else mkLexer (InLineComment (c :: acc)) (out st)
  | InBlockComment star acc =>
      if star && (c =? 47) then
        mkLexer Top (mkToken Comment (rev (c :: acc)) :: out st)
      else mkLexer (InBlockComment (c =? 42) (c :: acc)) (out st)
  | InString acc =>
      if c =? 39 then mkLexer Top (mkToken StringLiteral (rev (c :: acc)) :: out st)
      else mkLexer (InString (c :: acc)) (out st)
  | InQuoted cl acc =>
      if c =? cl then
        mkLexer Top (mkToken QuotedIdentifier (rev (c :: acc)) :: out st)
      else mkLexer (InQuoted cl (c :: acc)) (out st)
  end.

Definition lex (st : lexer) (s : str) : lexer := fold_left step s st.

(** Modelled from the spec: the missing tokenizer at the end of the text.
    An unterminated string, quoted identifier or block comment is a
    tokenization failure. *)
Definition finish (st : lexer) : option (list token) :=
  match cur st with
  | Top => Some (rev (out st))
  | InWord acc => Some (rev (word_token (out st) None (rev acc) :: out st))
  | AfterDash => Some (rev (mkToken Punctuation [45] :: out st))
  | AfterSlash => Some (rev (mkToken Punctuation [47] :: out st))
  | InLineComment acc => Some (rev (mkToken Comment (rev acc) :: out st))
  | InBlockComment _ _ | InString _ | InQuoted _ _ => None
  end.

Definition initial : lexer := mkLexer Top [].

(** Modelled from the spec: the missing tokenizer, step 2 of the
    algorithm. *)
Definition tokenize (sql : str) : option (list token) := finish (lex initial sql).

(** Modelled from the spec: step 3, the test for a [LIMIT] or [OFFSET]
    keyword token, in any case and at any depth of parentheses. *)
Definition is_pagination_keyword (t : token) : bool :=
  match kind t with
  | Keyword =>
      str_eqb (upper (text t)) (lit "LIMIT")
      || str_eqb (upper (text t)) (lit "OFFSET")
  | _ => false
  end.

Definition has_pagination_keyword (ts : list token) : bool :=
  existsb is_pagination_keyword ts.




(** Modelled from the spec: step 1, one trailing [;] removed if there is
    one. *)
Definition strip_terminator (s : str) : str :=
  match rev s with
  | c :: r => if c =? 59 then rev r else s
  | [] => s
  end.

(** Modelled from the spec: step 1, the input trimmed of whitespace and
    then of one statement terminator. *)
Definition trimmed (query : str) : str := strip_terminator (strip query).

Definition appended (q : str) (limit offset : Z) : str :=
  q ++ lit " LIMIT " ++ int_repr limit ++ lit " OFFSET " ++ int_repr offset.

Definition wrapped (q : str) (limit offset : Z) : str :=
  lit "SELECT * FROM (" ++ q ++ lit ") AS paginated_subquery LIMIT "
    ++ int_repr limit ++ lit " OFFSET " ++ int_repr offset.

(** Modelled from the spec: the missing function
    [_add_pagination_to_query(query, limit, offset)], steps 1 to 5 of the
    algorithm; a tokenization failure is a [RewriteError]. *)
Definition rewrite (query : str) (limit offset : Z) : result str :=
  let q := trimmed query in
  match tokenize q with
  | None => Err RewriteError
  | Some ts =>
      if has_pagination_keyword ts then Ok (wrapped q limit offset)
      else Ok (appended q limit offset)
  end.

End PaginationRewriter.

(* ================================================================= *)
(** ** Predicates used in the statements *)

(** A lowercase hexadecimal digit. *)
Definition is_lower_hex (c : Z) : bool := in_range 48 57 c || in_range 97 102 c.

(** Some code point of [s] is a surrogate: [s] has no UTF-8 encoding. *)
Definition has_surrogate (s : str) : bool := existsb is_surrogate s.

(** A code point below 128. *)
Definition is_ascii (c : Z) : bool := in_range 0 127 c.

(** What [json.loads] makes of the text [json.dumps] wrote for [s]: a high
    surrogate directly followed by a low one comes back as the single code
    point they encode; everything else comes back as it was. *)
Fixpoint join_pairs (s : str) : str :=
  match s with
  | [] => []
  | hi :: s' =>
      match s' with
      | lo :: s'' =>
          if is_high_surrogate hi && is_low_surrogate lo
          then join_surrogates hi lo :: join_pairs s''
          else hi :: join_pairs s'
      | [] => [hi]
      end
  end.

(** The byte a sextet is written as, after both translations. *)
Definition wire (i : Z) : Z :=
  urlsafe_decode_translation (urlsafe_encode_translation (b64_char i)).

Definition is_byte (b : Z) : Prop := 0 <= b < 256.

Definition digit_step (a d : Z) : Z := 10 * a + (d - 48).

(** What the digits [ds] say about the number [n]. *)
Definition digits_of (ds : str) (n : Z) : Prop :=
  forallb is_digit ds = true
  /\ (forall a, fold_left digit_step ds a = a * 10 ^ Z.of_nat (length ds) + n)
  /\ (0 < n -> exists c r, ds = c :: r /\ 49 <= c <= 57)
  /\ (n = 0 -> ds = [48]).

(** The text after a number ends it: no digit, dot or exponent mark. *)
Definition number_stop (rest : str) : bool :=
  match rest with
  | [] => true
  | c :: _ => negb (is_digit c) && negb (c =? 46) && negb (c =? 101) && negb (c =? 69)
  end.

(** The text [s] goes on with a [\u] escape. *)
Definition pair_follows (s : str) : bool :=
  match s with
  | bs :: u :: _ => (bs =? 92) && (u =? 117)
  | _ => false
  end.

(** The four shapes of an escaped code point. *)
Inductive esc_shape (c : Z) : str -> Prop :=
| esc_plain :
    0x1F < c -> c <> 34 -> c <> 92 -> esc_shape c [c]
| esc_simple (e : Z) :
    (e =? 117) = false -> simple_escape e = Some c -> esc_shape c [92; e]
| esc_u :
    0 <= c < 0x10000 -> esc_shape c ([92; 117] ++ hex4 c)
| esc_pair (hi lo : Z) :
    is_high_surrogate hi = true -> is_low_surrogate lo = true ->
    join_surrogates hi lo = c ->
    esc_shape c ([92; 117] ++ hex4 hi ++ [92; 117] ++ hex4 lo).

(** A high surrogate stands directly before a low one somewhere in [s]. *)
Fixpoint has_surrogate_pair (s : str) : bool :=
  match s with
  | [] => false
  | hi :: s' =>
      match s' with
      | lo :: _ => (is_high_surrogate hi && is_low_surrogate lo) || has_surrogate_pair s'
      | [] => false
      end
  end.

(** The JSON text of a two-member object with the default separators. *)
Definition object2 (k1 v1 k2 v2 : str) : str :=
  [123] ++ encode_basestring_ascii k1 ++ lit ": " ++ v1 ++ lit ", "
        ++ encode_basestring_ascii k2 ++ lit ": " ++ v2 ++ [125].

(** The JSON text [encode] builds for the two cursor variants. *)
Definition table_json (n : Z) (s : str) : str :=
  object2 (lit "database") (encode_basestring_ascii s) (lit "offset") (int_repr n).

Definition query_json (n : Z) (s : str) : str :=
  object2 (lit "offset") (int_repr n) (lit "query_hash") (encode_basestring_ascii s).

(** The value a constructor gives a field: the one passed, or the default
    of the dataclass, the empty string. *)
Definition field_or_default (d : list (str * pyval)) (k : str) : pyval :=
  match dict_get d k with
  | Some v => v
  | None => PStr []
  end.

(** The constructor of the variant with discriminator [disc] accepts [data]
    and builds the fields [off] and [dv]: [data] is an object, each of its
    keys is [offset] or [disc], and [offset] is among them. *)
Definition accepts (disc : str) (data off dv : pyval) : Prop :=
  exists d,
    data = PDict d
    /\ (forall k v, In (k, v) d -> k = lit "offset" \/ k = disc)
    /\ dict_get d (lit "offset") = Some off
    /\ dv = field_or_default d disc.

(* ================================================================= *)
(** ** Further predicates used in the statements *)

(** [sys.int_max_str_digits] as CPython sets it by default: the largest
    number of digits for which an [int] is converted to decimal text
    ([int.__repr__] inside [json.dumps]) or read from it ([int] inside
    [json.loads]); a longer conversion raises [ValueError]. *)
Definition int_max_str_digits : Z := 4300.

(** The decimal text of [n] has at most [int_max_str_digits] digits, the
    sign not counted.  [int_repr] and [match_number] are the conversions
    without the limit, and [scan_once] is the scanner without the
    interpreter's bound on recursion; the statements about [encode] and
    [decode] that convert an integer carry this bound on it, and those
    about arbitrary tokens a bound on the length of the token. *)
Definition within_digit_limit (n : Z) : Prop :=
  Z.abs n < 10 ^ int_max_str_digits.

(** A character of a URL-safe base64 token: a letter, a digit, [-], [_],
    or the pad [=]. *)
Definition is_urlsafe_char (c : Z) : bool :=
  in_range 65 90 c || in_range 97 122 c || in_range 48 57 c
  || (c =? 45) || (c =? 95) || (c =? 61).

(** A character [a2b_base64] skips: ASCII, not the pad, and outside both
    base64 alphabets. *)
Definition is_skipped_char (c : Z) : bool :=
  is_ascii c && negb (c =? 61)
  && match b64_value (urlsafe_decode_translation c) with
     | Some _ => false
     | None => true
     end.

(** The JSON text of a one-member object with the default separators. *)
Definition object1 (k v : str) : str :=
  [123] ++ encode_basestring_ascii k ++ lit ": " ++ v ++ [125].

(** The JSON text of a two-member object whose separators are a colon and a
    comma between runs of whitespace, as [json.dumps] writes it for any
    [separators] argument of that form. *)
Definition object2_with (isep ksep : str) (k1 v1 k2 v2 : str) : str :=
  [123] ++ encode_basestring_ascii k1 ++ ksep ++ v1 ++ isep
        ++ encode_basestring_ascii k2 ++ ksep ++ v2 ++ [125].

Definition key_separator (w1 w2 : str) : str := w1 ++ [58] ++ w2.
Definition item_separator (w1 w2 : str) : str := w1 ++ [44] ++ w2.

(** The text [vt] is read as the value [v] wherever a member of an object
    may end: before whitespace and a comma or a closing brace. *)
Definition scans_as (vt : str) (v : pyval) : Prop :=
  vt <> []
  /\ skip_ws vt = vt
  /\ (forall f w c r,
        forallb json_ws w = true -> c = 44 \/ c = 125 ->
        scan_once (S f) (vt ++ w ++ c :: r) = Some (v, w ++ c :: r)).

(** Text as [bytes.decode()] returns it: code points, none a surrogate. *)
Definition clean_text (t : str) : Prop :=
  forallb (fun c => is_codepoint c && negb (is_surrogate c)) t = true.

(** A string that [encode] and [decode] carry unchanged: code points, no
    high surrogate directly before a low one. *)
Definition clean_str (s : str) : Prop :=
  wf_str s /\ has_surrogate_pair s = false.

(** The string starts with a low surrogate. *)
Definition head_low (x : str) : bool :=
  match x with
  | c :: _ => is_low_surrogate c
  | [] => false
  end.

(** The text starts with the escape of a low surrogate. *)
Definition starts_low_escape (t : str) : Prop :=
  exists a b c d rest lo,
    t = 92 :: 117 :: a :: b :: c :: d :: rest
    /\ hex4_value a b c d = Some lo
    /\ is_low_surrogate lo = true.

(** A value whose string, if it is one, is clean. *)
Definition good_val (v : pyval) : Prop :=
  match v with
  | PStr s => clean_str s
  | _ => True
  end.

(** A value that is a clean string, or an object whose members are good. *)
Definition good_top (v : pyval) : Prop :=
  match v with
  | PStr s => clean_str s
  | PDict d => Forall (fun kv => good_val (snd kv)) d
  | _ => True
  end.

(** [r] is what is left of [s] after a prefix. *)
Definition suffix_of (r s : str) : Prop := exists p, s = p ++ r.

(* ================================================================= *)
(** ** Predicates on SQL text and on tokens *)




(** The character [c] does not occur in [s]. *)
Definition lacks (c : Z) (s : str) : bool := forallb (fun x => negb (x =? c)) s.




(* ================================================================= *)
(** ** Predicates on tokens and on JSON values *)

(** A token short enough for [json.loads] to stay within the limits of the
    interpreter: the text it decodes to has at most 750 characters, so the
    integer literals in it have fewer than [int_max_str_digits] digits and
    its arrays and objects are nested fewer than 400 deep, far below the
    recursion limit (1000 by default). *)
Definition short_token (token : str) : Prop := (length token <= 1000)%nat.

(** A character a JSON value, or one of the constants [json.loads] takes
    besides, can start with. *)
Definition json_value_start (c : Z) : bool :=
  (c =? 34) || (c =? 123) || (c =? 91) || (c =? 45) || in_range 48 57 c
  || (c =? 110) || (c =? 116) || (c =? 102) || (c =? 78) || (c =? 73).

(** A value that is neither a list nor an object nor a float: [None], a
    boolean, an integer within the digit limit, or a string. *)
Definition is_scalar (v : pyval) : Prop :=
  match v with
  | PNone | PBool _ => True
  | PInt n => within_digit_limit n
  | PStr s => wf_str s
  | _ => False
  end.

(** What [json.loads] returns for the text [json.dumps] writes for a
    scalar: the scalar, a surrogate pair in a string joined. *)
Definition reloaded (v : pyval) : pyval :=
  match v with
  | PStr s => PStr (join_pairs s)
  | _ => v
  end.

(** The first byte cannot start a UTF-8 sequence. *)
Definition bad_utf8_lead (b : Z) : Prop := 0x80 <= b <= 0xC1 \/ 0xF5 <= b.

(* ================================================================= *)
(** ** Tactics *)


(* ################################################################# *)
(** * Properties *)

(** ** Basic facts *)

Lemma in_range_spec (lo hi c : Z) : in_range lo hi c = true <-> lo <= c <= hi.
Proof. unfold in_range. rewrite andb_true_iff, !Z.leb_le. tauto. Qed.

Lemma in_range_false (lo hi c : Z) : in_range lo hi c = false <-> (c < lo \/ hi < c).
Proof.
  unfold in_range. rewrite andb_false_iff, !Z.leb_gt. tauto.
Qed.

Lemma str_eqb_eq (a b : str) : str_eqb a b = true <-> a = b.
Proof.
  revert b. induction a as [|x a IH]; destruct b as [|y b]; simpl;
    try (split; (discriminate || reflexivity)).
  rewrite andb_true_iff, Z.eqb_eq, IH. split.
  - intros [-> ->]. reflexivity.
  - intros H. injection H as -> ->. split; reflexivity.
Qed.

Lemma str_eqb_refl (a : str) : str_eqb a a = true.
Proof. apply str_eqb_eq. reflexivity. Qed.

Lemma str_eqb_neq (a b : str) : str_eqb a b = false <-> a <> b.
Proof.
  rewrite <- str_eqb_eq. destruct (str_eqb a b); split; congruence.
Qed.

Lemma py_eq_str_spec (v : pyval) (s : str) : py_eq_str v s = true <-> v = PStr s.
Proof.
  destruct v; simpl; try (split; discriminate).
  rewrite str_eqb_eq. split; congruence.
Qed.

Lemma py_eq_str_false (v : pyval) (s : str) : py_eq_str v s = false <-> v <> PStr s.
Proof.
  rewrite <- py_eq_str_spec. destruct (py_eq_str v s); split; congruence.
Qed.

(* ================================================================= *)
(** ** [strip] *)

Lemma lstrip_app_space (p s : str) :
  forallb isspace p = true -> lstrip (p ++ s) = lstrip s.
Proof.
  induction p as [|c p IH]; simpl; intros H; [reflexivity|].
  apply andb_true_iff in H as [Hc Hp]. rewrite Hc. auto.
Qed.

Lemma lstrip_space (p : str) : forallb isspace p = true -> lstrip p = [].
Proof.
  intros H. rewrite <- (app_nil_r p). rewrite lstrip_app_space by assumption.
  reflexivity.
Qed.

Lemma lstrip_nil_inv (s : str) : lstrip s = [] -> forallb isspace s = true.
Proof.
  induction s as [|c s IH]; simpl; [reflexivity|].
  destruct (isspace c); [assumption | discriminate].
Qed.

Lemma lstrip_app_keep (s p : str) : lstrip s <> [] -> lstrip (s ++ p) = lstrip s ++ p.
Proof.
  induction s as [|c s IH]; simpl; intros H; [congruence|].
  destruct (isspace c); [auto | reflexivity].
Qed.

Lemma forallb_rev {A} (f : A -> bool) (l : list A) :
  forallb f (rev l) = forallb f l.
Proof.
  induction l as [|x l IH]; simpl; [reflexivity|].
  rewrite forallb_app, IH. simpl. rewrite andb_true_r. apply andb_comm.
Qed.

Lemma rstrip_app_space (s p : str) :
  forallb isspace p = true -> rstrip (s ++ p) = rstrip s.
Proof.
  intros H. unfold rstrip. rewrite rev_app_distr, lstrip_app_space; [reflexivity|].
  rewrite forallb_rev. exact H.
Qed.

Lemma strip_app_space (pre q post : str) :
  forallb isspace pre = true -> forallb isspace post = true ->
  strip (pre ++ q ++ post) = strip q.
Proof.
  intros Hpre Hpost. unfold strip. rewrite lstrip_app_space by assumption.
  destruct (lstrip q) as [|c r] eqn:E.
  - apply lstrip_nil_inv in E.
    rewrite lstrip_space; [reflexivity|].
    rewrite forallb_app, E, Hpost. reflexivity.
  - rewrite lstrip_app_keep by congruence. rewrite E.
    apply rstrip_app_space. assumption.
Qed.

Lemma strip_space (w : str) : forallb isspace w = true -> strip w = [].
Proof. intros H. unfold strip. rewrite lstrip_space by assumption. reflexivity. Qed.

(* ================================================================= *)
(** ** The shape of a digest *)

Lemma hexdigit_lower (d : Z) : 0 <= d < 16 -> is_lower_hex (hexdigit d) = true.
Proof.
  intros H. unfold is_lower_hex, hexdigit.
  destruct (Z.ltb_spec d 10); apply orb_true_iff; [left | right];
    apply in_range_spec; lia.
Qed.

Lemma hexlify_length (bs : bytes) : length (hexlify bs) = (2 * length bs)%nat.
Proof.
  unfold hexlify. induction bs as [|b bs IH]; simpl; [reflexivity|].
  rewrite IH. lia.
Qed.

Lemma hexlify_lower (bs : bytes) : forallb is_lower_hex (hexlify bs) = true.
Proof.
  unfold hexlify. induction bs as [|b bs IH]; simpl; [reflexivity|].
  rewrite !hexdigit_lower, IH; [reflexivity | |];
    apply Z.mod_pos_bound; lia.
Qed.

Lemma digest_length (msg : bytes) : length (SHA256.digest msg) = 32%nat.
Proof. reflexivity. Qed.

Lemma sha256_hexdigest_length (msg : bytes) : length (sha256_hexdigest msg) = 64%nat.
Proof. unfold sha256_hexdigest. rewrite hexlify_length, digest_length. reflexivity. Qed.

Lemma utf8_encode_total (s : str) :
  has_surrogate s = false -> exists b, utf8_encode s = Some b.
Proof.
  induction s as [|c s IH]; simpl; intros H; [eauto|].
  apply orb_false_iff in H as [Hc Hs]. destruct (IH Hs) as [bs ->].
  unfold utf8_encode_char. rewrite Hc.
  destruct (c <? 128); [|destruct (c <? 2048); [|destruct (c <? 65536)]];
    simpl; eauto.
Qed.

Lemma utf8_encode_surrogate (s : str) :
  has_surrogate s = true -> utf8_encode s = None.
Proof.
  induction s as [|c s IH]; simpl; intros H; [discriminate|].
  apply orb_true_iff in H as [Hc | Hs].
  - unfold utf8_encode_char. rewrite Hc.
    apply in_range_spec in Hc.
    destruct (Z.ltb_spec c 128); [lia|]. destruct (Z.ltb_spec c 2048); [lia|].
    reflexivity.
  - rewrite (IH Hs). destruct (utf8_encode_char c); reflexivity.
Qed.

(* ================================================================= *)
(** ** ASCII text through the codecs *)

Lemma forall_below (P : Z -> bool) (n : nat) :
  forallb P (map Z.of_nat (seq 0 n)) = true ->
  forall i, 0 <= i < Z.of_nat n -> P i = true.
Proof.
  intros H i Hi. rewrite forallb_forall in H. apply H.
  rewrite <- (Z2Nat.id i) by lia. apply in_map, in_seq. lia.
Qed.

Lemma utf8_encode_ascii (s : str) :
  forallb is_ascii s = true -> utf8_encode s = Some s.
Proof.
  induction s as [|c s IH]; simpl; intros H; [reflexivity|].
  apply andb_true_iff in H as [Hc Hs]. rewrite (IH Hs).
  apply in_range_spec in Hc. unfold utf8_encode_char.
  destruct (Z.ltb_spec c 128); [reflexivity | lia].
Qed.

Lemma utf8_decode_ascii (s : bytes) :
  forallb is_ascii s = true -> utf8_decode s = Some s.
Proof.
  induction s as [|c s IH]; simpl; intros H; [reflexivity|].
  apply andb_true_iff in H as [Hc Hs]. rewrite (IH Hs).
  unfold is_ascii in Hc. rewrite Hc. reflexivity.
Qed.

Lemma str_encode_ascii (s : str) :
  forallb is_ascii s = true -> str_encode s = Ok s.
Proof. intros H. unfold str_encode. rewrite utf8_encode_ascii by assumption. reflexivity. Qed.

Lemma bytes_decode_ascii (s : bytes) :
  forallb is_ascii s = true -> bytes_decode s = Ok s.
Proof. intros H. unfold bytes_decode. rewrite utf8_decode_ascii by assumption. reflexivity. Qed.

Lemma is_ascii_byte (c : Z) : is_ascii c = true -> 0 <= c < 256.
Proof. intros H. apply in_range_spec in H. lia. Qed.

Lemma hexdigit_ascii (d : Z) : 0 <= d < 16 -> is_ascii (hexdigit d) = true.
Proof.
  intros H. unfold hexdigit. apply in_range_spec.
  destruct (Z.ltb_spec d 10); lia.
Qed.

Lemma hex4_ascii (c : Z) : forallb is_ascii (hex4 c) = true.
Proof.
  unfold hex4. simpl.
  rewrite !hexdigit_ascii; [reflexivity | | | |]; apply Z.mod_pos_bound; lia.
Qed.

Lemma escape_char_ascii (c : Z) : forallb is_ascii (escape_char c) = true.
Proof.
  unfold escape_char.
  destruct (in_range 32 126 c && negb (c =? 34) && negb (c =? 92)) eqn:E.
  - apply andb_true_iff in E as [E _]. apply andb_true_iff in E as [E _].
    apply in_range_spec in E. simpl. rewrite andb_true_r.
    apply in_range_spec. lia.
  - repeat match goal with
           | |- context [if ?b then _ else _] => destruct b
           end; try reflexivity;
      rewrite ?forallb_app, ?hex4_ascii; reflexivity.
Qed.

Lemma flat_map_ascii {A} (f : A -> str) (l : list A) :
  (forall x, forallb is_ascii (f x) = true) ->
  forallb is_ascii (flat_map f l) = true.
Proof.
  intros H. induction l as [|x l IH]; simpl; [reflexivity|].
  rewrite forallb_app, H, IH. reflexivity.
Qed.

Lemma encode_basestring_ascii_ascii (s : str) :
  forallb is_ascii (encode_basestring_ascii s) = true.
Proof.
  unfold encode_basestring_ascii. rewrite !forallb_app.
  rewrite flat_map_ascii by apply escape_char_ascii. reflexivity.
Qed.

(* ================================================================= *)
(** ** Base64: decoding what was encoded *)

Lemma wire_value (i : Z) : 0 <= i < 64 -> b64_value (wire i) = Some i.
Proof.
  intros H.
  pose proof (forall_below
                (fun i => match b64_value (wire i) with
                          | Some j => j =? i
                          | None => false
                          end) 64) as G.
  specialize (G ltac:(vm_compute; reflexivity) i H).
  simpl in G. destruct (b64_value (wire i)); [|discriminate].
  apply Z.eqb_eq in G. congruence.
Qed.

Lemma wire_not_pad (i : Z) : 0 <= i < 64 -> (wire i =? 61) = false.
Proof.
  intros H.
  apply (forall_below (fun i => negb (wire i =? 61)) 64) in H;
    [|vm_compute; reflexivity].
  now apply negb_true_iff in H.
Qed.

Lemma b64_char_ascii (i : Z) :
  0 <= i < 64 -> is_ascii (urlsafe_encode_translation (b64_char i)) = true.
Proof.
  intros H.
  apply (forall_below (fun i => is_ascii (urlsafe_encode_translation (b64_char i))) 64);
    [vm_compute; reflexivity | exact H].
Qed.

Lemma a2b_loop_sextet (i : Z) (s : bytes) (quad_pos : nat) (leftchar : Z) (pads : nat) :
  0 <= i < 64 ->
  a2b_loop (wire i :: s) quad_pos leftchar pads =
  match quad_pos with
  | O => a2b_loop s 1%nat i 0%nat
  | 1%nat =>
      try r <- a2b_loop s 2%nat (i mod 16) 0%nat;
      Some ((leftchar * 4 + i / 16) mod 256 :: r)
  | 2%nat =>
      try r <- a2b_loop s 3%nat (i mod 4) 0%nat;
      Some ((leftchar * 16 + i / 4) mod 256 :: r)
  | _ =>
      try r <- a2b_loop s 0%nat 0 0%nat;
      Some ((leftchar * 64 + i) mod 256 :: r)
  end.
Proof.
  intros H. cbn [a2b_loop]. rewrite wire_not_pad, wire_value by assumption.
  reflexivity.
Qed.

Lemma b64_roundtrip_aux (n : nat) :
  forall bs, (length bs < n)%nat -> Forall is_byte bs ->
  a2b_loop (map urlsafe_decode_translation (urlsafe_b64encode bs)) 0%nat 0 0%nat
  = Some bs.
Proof.
  unfold urlsafe_b64encode, is_byte.
  induction n as [|n IH]; intros bs Hlen Hb; [lia|].
  destruct bs as [|a [|b [|c rest]]].
  - reflexivity.
  - inversion_clear Hb as [|? ? Ha _].
    cbn [b2a_base64 map]. fold (wire (a / 4)). fold (wire (a mod 4 * 16)).
    rewrite !a2b_loop_sextet by (Z.div_mod_to_equations; lia).
    cbn. f_equal. f_equal. Z.div_mod_to_equations; lia.
  - inversion_clear Hb as [|? ? Ha Hb']. inversion_clear Hb' as [|? ? Hb _].
    cbn [b2a_base64 map].
    fold (wire (a / 4)). fold (wire (a mod 4 * 16 + b / 16)).
    fold (wire (b mod 16 * 4)).
    rewrite !a2b_loop_sextet by (Z.div_mod_to_equations; lia).
    cbn. f_equal. f_equal; [|f_equal]; Z.div_mod_to_equations; lia.
  - inversion_clear Hb as [|? ? Ha Hb']. inversion_clear Hb' as [|? ? Hb Hb''].
    inversion_clear Hb'' as [|? ? Hc Hrest].
    cbn [b2a_base64 map].
    fold (wire (a / 4)). fold (wire (a mod 4 * 16 + b / 16)).
    fold (wire (b mod 16 * 4 + c / 64)). fold (wire (c mod 64)).
    rewrite !a2b_loop_sextet by (Z.div_mod_to_equations; lia).
    rewrite IH by (simpl in Hlen; lia || assumption).
    cbn [obind]. f_equal. f_equal; [|f_equal; [|f_equal]];
      Z.div_mod_to_equations; lia.
Qed.

Lemma b64_roundtrip (bs : bytes) :
  Forall is_byte bs ->
  urlsafe_b64decode (urlsafe_b64encode bs) = Some bs.
Proof.
  intros H. unfold urlsafe_b64decode, a2b_base64.
  apply (b64_roundtrip_aux (S (length bs))); [lia | assumption].
Qed.

Lemma b2a_base64_ascii (n : nat) :
  forall bs, (length bs < n)%nat -> Forall is_byte bs ->
  forallb is_ascii (urlsafe_b64encode bs) = true.
Proof.
  unfold urlsafe_b64encode, is_byte.
  induction n as [|n IH]; intros bs Hlen Hb; [lia|].
  destruct bs as [|a [|b [|c rest]]].
  - reflexivity.
  - inversion_clear Hb as [|? ? Ha _]. cbn [b2a_base64 map forallb].
    rewrite !b64_char_ascii by (Z.div_mod_to_equations; lia). reflexivity.
  - inversion_clear Hb as [|? ? Ha Hb']. inversion_clear Hb' as [|? ? Hb _].
    cbn [b2a_base64 map forallb].
    rewrite !b64_char_ascii by (Z.div_mod_to_equations; lia). reflexivity.
  - inversion_clear Hb as [|? ? Ha Hb']. inversion_clear Hb' as [|? ? Hb Hb''].
    inversion_clear Hb'' as [|? ? Hc Hrest].
    cbn [b2a_base64 map forallb].
    rewrite !b64_char_ascii by (Z.div_mod_to_equations; lia).
    rewrite IH by (simpl in Hlen; lia || assumption). reflexivity.
Qed.

Lemma ascii_bytes (s : str) : forallb is_ascii s = true -> Forall is_byte s.
Proof.
  intros H. apply Forall_forall. intros c Hc.
  rewrite forallb_forall in H. apply is_ascii_byte, H, Hc.
Qed.

(** The token of an ASCII text, and back. *)
Lemma token_roundtrip (text : str) :
  forallb is_ascii text = true ->
  exists token,
    (do b <- str_encode text; bytes_decode (urlsafe_b64encode b)) = Ok token
    /\ token = urlsafe_b64encode text
    /\ (try b <- utf8_encode token;
        try raw <- urlsafe_b64decode b;
        utf8_decode raw) = Some text.
Proof.
  intros H. exists (urlsafe_b64encode text).
  pose proof (b2a_base64_ascii _ text (Nat.lt_succ_diag_r _) (ascii_bytes _ H)) as Ha.
  rewrite str_encode_ascii by assumption. cbn [bind].
  rewrite bytes_decode_ascii by assumption.
  split; [reflexivity|]. split; [reflexivity|].
  rewrite utf8_encode_ascii by assumption. cbn [obind].
  rewrite b64_roundtrip by (apply ascii_bytes; assumption). cbn [obind].
  apply utf8_decode_ascii. assumption.
Qed.

(* ================================================================= *)
(** ** Integers: reading back what [int.__repr__] wrote *)

Lemma int_of_digits_fold (ds : str) : int_of_digits ds = fold_left digit_step ds 0.
Proof. reflexivity. Qed.

Lemma digits_aux_spec (fuel : nat) :
  forall n acc, 0 <= n < 2 ^ Z.of_nat fuel -> (0 < fuel)%nat ->
  exists ds, digits_aux fuel n acc = ds ++ acc /\ digits_of ds n.
Proof.
  induction fuel as [|f IH]; intros n acc Hn Hfuel.
  - lia.
  - cbn [digits_aux]. destruct (Z.ltb_spec n 10) as [Hlt | Hge].
    + exists [48 + n mod 10]. split; [reflexivity|].
      rewrite Z.mod_small by lia. repeat split.
      * cbn [forallb]. rewrite andb_true_r. apply in_range_spec. lia.
      * intros a. cbn [fold_left length]. unfold digit_step.
        change (10 ^ Z.of_nat 1) with 10. lia.
      * intros Hpos. exists (48 + n), []. split; [reflexivity | lia].
      * intros ->. reflexivity.
    + assert (Hdiv : 0 <= n / 10 < 2 ^ Z.of_nat f).
      { rewrite Nat2Z.inj_succ, Z.pow_succ_r in Hn by lia.
        Z.div_mod_to_equations. lia. }
      assert (Hf : (0 < f)%nat).
      { destruct f; [|lia]. simpl in Hdiv. Z.div_mod_to_equations. lia. }
      destruct (IH (n / 10) ((48 + n mod 10) :: acc) Hdiv Hf)
        as (ds & -> & Hd & Hv & Hh & _).
      exists (ds ++ [48 + n mod 10]). split.
      { rewrite <- app_assoc. reflexivity. }
      repeat split.
      * rewrite forallb_app, Hd. cbn [forallb andb]. rewrite andb_true_r.
        apply in_range_spec. Z.div_mod_to_equations. lia.
      * intros a. rewrite fold_left_app, Hv. cbn [fold_left]. unfold digit_step.
        rewrite length_app, Nat2Z.inj_add. cbn [length].
        rewrite Z.pow_add_r by lia. change (10 ^ Z.of_nat 1) with 10.
        Z.div_mod_to_equations. lia.
      * intros _. destruct Hh as (c & r & -> & Hc).
        { Z.div_mod_to_equations. lia. }
        exists c, (r ++ [48 + n mod 10]). split; [reflexivity | assumption].
      * intros ->. lia.
Qed.

Lemma nat_repr_spec (n : Z) : 0 <= n -> digits_of (nat_repr n) n.
Proof.
  intros Hn. unfold nat_repr.
  destruct (digits_aux_spec (S (Z.to_nat (Z.log2 n))) n []) as (ds & E & H).
  - rewrite Nat2Z.inj_succ, Z2Nat.id by apply Z.log2_nonneg.
    destruct (Z.eq_dec n 0) as [-> | Hnz]; [simpl; lia|].
    pose proof (Z.log2_spec n). lia.
  - lia.
  - rewrite E, app_nil_r. exact H.
Qed.

Lemma digits_value (ds : str) (n : Z) : digits_of ds n -> int_of_digits ds = n.
Proof. intros (_ & Hv & _). rewrite int_of_digits_fold, Hv. lia. Qed.

Lemma is_digit_ascii (c : Z) : is_digit c = true -> is_ascii c = true.
Proof. unfold is_digit, is_ascii. rewrite !in_range_spec. lia. Qed.

Lemma digits_ascii (ds : str) : forallb is_digit ds = true -> forallb is_ascii ds = true.
Proof.
  induction ds as [|c ds IH]; simpl; [reflexivity|].
  intros H. apply andb_true_iff in H as [Hc Hd].
  rewrite (is_digit_ascii _ Hc), (IH Hd). reflexivity.
Qed.

Lemma int_repr_ascii (n : Z) : forallb is_ascii (int_repr n) = true.
Proof.
  unfold int_repr. destruct (Z.ltb_spec n 0).
  - simpl. apply digits_ascii. apply (nat_repr_spec (- n)). lia.
  - apply digits_ascii. apply (nat_repr_spec n). lia.
Qed.

Lemma span_digits_app (ds rest : str) :
  forallb is_digit ds = true -> number_stop rest = true ->
  span_digits (ds ++ rest) = (ds, rest).
Proof.
  intros Hd Hr. induction ds as [|c ds IH]; simpl.
  - destruct rest as [|c r]; [reflexivity|]. cbn [number_stop] in Hr.
    cbn [span_digits]. destruct (is_digit c); [discriminate | reflexivity].
  - simpl in Hd. apply andb_true_iff in Hd as [Hc Hd].
    rewrite Hc, (IH Hd). reflexivity.
Qed.

Lemma number_tail (rest : str) :
  number_stop rest = true ->
  number_frac rest = ([], rest) /\ number_exp rest = ([], rest).
Proof.
  intros H. destruct rest as [|c r]; [split; reflexivity|].
  cbn [number_stop] in H. repeat (apply andb_true_iff in H as [H ?]).
  unfold number_frac, number_exp.
  destruct (c =? 46); [discriminate|]. destruct (c =? 101); [discriminate|].
  destruct (c =? 69); [discriminate|].
  split; [destruct r|]; reflexivity.
Qed.

Lemma number_int_digits (ds rest : str) (n : Z) :
  0 <= n -> digits_of ds n -> number_stop rest = true ->
  number_int (ds ++ rest) = Some (ds, rest).
Proof.
  intros Hn (Hd & _ & Hpos & Hzero) Hr. unfold number_int.
  destruct (Z.eq_dec n 0) as [-> | Hnz].
  - rewrite (Hzero eq_refl). reflexivity.
  - destruct Hpos as (c & r & -> & Hc); [lia|].
    cbn [forallb] in Hd. apply andb_true_iff in Hd as [_ Hd].
    cbn [app]. replace (in_range 49 57 c) with true
      by (symmetry; apply in_range_spec; lia).
    rewrite span_digits_app by assumption. reflexivity.
Qed.

Lemma number_sign_digits (ds rest : str) (n : Z) :
  0 <= n -> digits_of ds n -> number_sign (ds ++ rest) = ([], ds ++ rest).
Proof.
  intros Hn (Hd & _ & Hpos & Hzero). unfold number_sign.
  destruct (Z.eq_dec n 0) as [-> | Hnz].
  - rewrite (Hzero eq_refl). reflexivity.
  - destruct Hpos as (c & r & -> & Hc); [lia|]. cbn [app].
    destruct (Z.eqb_spec c 45); [lia | reflexivity].
Qed.

Lemma match_number_int_repr (n : Z) (rest : str) :
  number_stop rest = true ->
  match_number (int_repr n ++ rest) = Some (PInt n, rest).
Proof.
  intros Hr. destruct (number_tail rest Hr) as [Hfrac Hexp].
  unfold match_number, int_repr.
  destruct (Z.ltb_spec n 0) as [Hneg | Hnn].
  - pose proof (nat_repr_spec (- n) ltac:(lia)) as Hds.
    cbn [app]. change (number_sign (45 :: nat_repr (- n) ++ rest))
      with ([45], nat_repr (- n) ++ rest).
    cbv iota beta.
    rewrite (number_int_digits _ rest (- n)) by (assumption || lia).
    cbn [obind]. rewrite Hfrac, Hexp, (digits_value _ _ Hds).
    cbv iota beta. f_equal. f_equal. f_equal. lia.
  - pose proof (nat_repr_spec n Hnn) as Hds.
    rewrite (number_sign_digits _ rest n) by assumption.
    rewrite (number_int_digits _ rest n) by assumption.
    cbn [obind]. rewrite Hfrac, Hexp, (digits_value _ _ Hds). reflexivity.
Qed.

(* ================================================================= *)
(** ** Strings: reading back what [encode_basestring_ascii] wrote *)

Lemma hexval_hexdigit (d : Z) : 0 <= d < 16 -> hexval (hexdigit d) = Some d.
Proof.
  intros H.
  pose proof (forall_below
                (fun d => match hexval (hexdigit d) with
                          | Some j => j =? d
                          | None => false
                          end) 16) as G.
  specialize (G ltac:(vm_compute; reflexivity) d H). cbv beta in G.
  destruct (hexval (hexdigit d)); [|discriminate].
  apply Z.eqb_eq in G. congruence.
Qed.

Lemma hex4_value_hex4 (c : Z) :
  0 <= c < 0x10000 ->
  hex4_value (hexdigit ((c / 4096) mod 16)) (hexdigit ((c / 256) mod 16))
             (hexdigit ((c / 16) mod 16)) (hexdigit (c mod 16)) = Some c.
Proof.
  intros H. unfold hex4_value.
  rewrite !hexval_hexdigit by (apply Z.mod_pos_bound; lia).
  cbn [obind]. f_equal. Z.div_mod_to_equations. lia.
Qed.

Lemma scanstring_quote (r : str) : scanstring (34 :: r) = Some ([], r).
Proof. reflexivity. Qed.

Lemma scanstring_plain (c : Z) (r : str) :
  0x1F < c -> c <> 34 -> c <> 92 ->
  scanstring (c :: r) = cons_char c (scanstring r).
Proof.
  intros H1 H2 H3. cbn [scanstring].
  destruct (Z.eqb_spec c 34); [contradiction|].
  destruct (Z.eqb_spec c 92); [contradiction|].
  destruct (Z.leb_spec c 31); [lia | reflexivity].
Qed.

Lemma scanstring_simple (e ch : Z) (r : str) :
  (e =? 117) = false -> simple_escape e = Some ch ->
  scanstring (92 :: e :: r) = cons_char ch (scanstring r).
Proof.
  intros H1 H2. cbn [scanstring].
  change (92 =? 34) with false. change (92 =? 92) with true. cbv iota.
  rewrite H1, H2. reflexivity.
Qed.

Lemma scanstring_u (a b c d uni : Z) (s6 : str) :
  hex4_value a b c d = Some uni -> is_high_surrogate uni = false ->
  scanstring (92 :: 117 :: a :: b :: c :: d :: s6) = cons_char uni (scanstring s6).
Proof.
  intros H1 H2. cbn [scanstring].
  change (92 =? 34) with false. change (92 =? 92) with true.
  change (117 =? 117) with true. cbv iota.
  rewrite H1. cbn [obind]. rewrite H2. reflexivity.
Qed.

Lemma scanstring_u_pair (a b c d hi a2 b2 c2 d2 lo : Z) (s12 : str) :
  hex4_value a b c d = Some hi -> is_high_surrogate hi = true ->
  hex4_value a2 b2 c2 d2 = Some lo ->
  scanstring (92 :: 117 :: a :: b :: c :: d :: 92 :: 117 :: a2 :: b2 :: c2 :: d2 :: s12)
  = if is_low_surrogate lo
    then cons_char (join_surrogates hi lo) (scanstring s12)
    else cons_char hi (scanstring (92 :: 117 :: a2 :: b2 :: c2 :: d2 :: s12)).
Proof.
  intros H1 H2 H3. cbn [scanstring].
  change (92 =? 34) with false. change (92 =? 92) with true.
  change (117 =? 117) with true. cbv iota. cbn [andb].
  rewrite H1. cbn [obind]. rewrite H2, H3. cbn [obind].
  destruct (is_low_surrogate lo); reflexivity.
Qed.

Lemma scanstring_u_alone (a b c d hi : Z) (s6 : str) :
  hex4_value a b c d = Some hi -> is_high_surrogate hi = true ->
  pair_follows s6 = false ->
  scanstring (92 :: 117 :: a :: b :: c :: d :: s6) = cons_char hi (scanstring s6).
Proof.
  intros H1 H2 H3. cbn [scanstring].
  change (92 =? 34) with false. change (92 =? 92) with true.
  change (117 =? 117) with true. cbv iota.
  rewrite H1. cbn [obind]. rewrite H2.
  destruct s6 as [|bs [|u s8]]; try reflexivity.
  cbn [pair_follows] in H3. rewrite H3. reflexivity.
Qed.

Lemma is_codepoint_spec (c : Z) : is_codepoint c = true <-> 0 <= c <= 0x10FFFF.
Proof. apply in_range_spec. Qed.

Lemma escape_char_shape (c : Z) :
  is_codepoint c = true -> esc_shape c (escape_char c).
Proof.
  intros Hc. apply is_codepoint_spec in Hc. unfold escape_char.
  destruct (in_range 32 126 c && negb (c =? 34) && negb (c =? 92)) eqn:E.
  { apply andb_true_iff in E as [E E3]. apply andb_true_iff in E as [E1 E2].
    apply in_range_spec in E1. apply negb_true_iff, Z.eqb_neq in E2, E3.
    apply esc_plain; lia. }
  destruct (Z.eqb_spec c 92) as [-> | N1]; [apply (esc_simple 92 92); reflexivity|].
  destruct (Z.eqb_spec c 34) as [-> | N2]; [apply (esc_simple 34 34); reflexivity|].
  destruct (Z.eqb_spec c 8) as [-> | N3]; [apply (esc_simple 8 98); reflexivity|].
  destruct (Z.eqb_spec c 12) as [-> | N4]; [apply (esc_simple 12 102); reflexivity|].
  destruct (Z.eqb_spec c 10) as [-> | N5]; [apply (esc_simple 10 110); reflexivity|].
  destruct (Z.eqb_spec c 13) as [-> | N6]; [apply (esc_simple 13 114); reflexivity|].
  destruct (Z.eqb_spec c 9) as [-> | N7]; [apply (esc_simple 9 116); reflexivity|].
  destruct (Z.leb_spec 0x10000 c) as [Hbig | Hbmp].
  - apply esc_pair.
    + apply in_range_spec. Z.div_mod_to_equations. lia.
    + apply in_range_spec. Z.div_mod_to_equations. lia.
    + unfold join_surrogates. Z.div_mod_to_equations. lia.
  - apply esc_u. lia.
Qed.

Lemma high_surrogate_bmp (c : Z) : is_high_surrogate c = true -> 0 <= c < 0x10000.
Proof. intros H. apply in_range_spec in H. lia. Qed.

Lemma low_surrogate_bmp (c : Z) : is_low_surrogate c = true -> 0 <= c < 0x10000.
Proof. intros H. apply in_range_spec in H. lia. Qed.

Lemma low_not_high (c : Z) : is_low_surrogate c = true -> is_high_surrogate c = false.
Proof.
  intros H. apply in_range_spec in H. apply in_range_false. lia.
Qed.

Lemma high_not_low (c : Z) : is_high_surrogate c = true -> is_low_surrogate c = false.
Proof.
  intros H. apply in_range_spec in H. apply in_range_false. lia.
Qed.

(** A surrogate is written as a single [\u] escape. *)
Lemma escape_char_surrogate (c : Z) :
  is_surrogate c = true -> escape_char c = [92; 117] ++ hex4 c.
Proof.
  intros H. apply in_range_spec in H. unfold escape_char.
  replace (in_range 32 126 c) with false by (symmetry; apply in_range_false; lia).
  cbn [andb].
  repeat match goal with
         | |- context [c =? ?k] => destruct (Z.eqb_spec c k); [lia|]
         end.
  destruct (Z.leb_spec 0x10000 c); [lia | reflexivity].
Qed.

Lemma high_is_surrogate (c : Z) : is_high_surrogate c = true -> is_surrogate c = true.
Proof. unfold is_high_surrogate, is_surrogate. rewrite !in_range_spec. lia. Qed.

Lemma low_is_surrogate (c : Z) : is_low_surrogate c = true -> is_surrogate c = true.
Proof. unfold is_low_surrogate, is_surrogate. rewrite !in_range_spec. lia. Qed.

Lemma simple_escape_not_high (e c : Z) :
  simple_escape e = Some c -> is_high_surrogate c = false.
Proof.
  unfold simple_escape. intros H.
  repeat match type of H with
         | (if ?b then _ else _) = _ =>
             destruct b; [injection H as <-; reflexivity|]
         end.
  discriminate.
Qed.

(** A code point that is not a high surrogate is read back whatever
    follows. *)
Lemma scan_escape_other (c : Z) (x : str) :
  is_codepoint c = true -> is_high_surrogate c = false ->
  scanstring (escape_char c ++ x) = cons_char c (scanstring x).
Proof.
  intros Hc Hh. destruct (escape_char_shape c Hc) as [H1 H2 H3 | e He Hs | Hb | hi lo Hhi Hlo Hj].
  - apply scanstring_plain; assumption.
  - apply scanstring_simple; assumption.
  - apply (scanstring_u _ _ _ _ c); [apply hex4_value_hex4|]; assumption.
  - cbn [app hex4].
    rewrite (scanstring_u_pair _ _ _ _ hi _ _ _ _ lo);
      [| apply hex4_value_hex4, high_surrogate_bmp; assumption
       | assumption
       | apply hex4_value_hex4, low_surrogate_bmp; assumption].
    rewrite Hlo, Hj. reflexivity.
Qed.

Lemma scan_escape_high_last (hi : Z) (rest : str) :
  is_high_surrogate hi = true ->
  scanstring (escape_char hi ++ 34 :: rest) = Some ([hi], rest).
Proof.
  intros Hh. rewrite escape_char_surrogate by (apply high_is_surrogate; assumption).
  cbn [app hex4].
  rewrite (scanstring_u_alone _ _ _ _ hi);
    [| apply hex4_value_hex4, high_surrogate_bmp; assumption
     | assumption
     | destruct rest; reflexivity].
  reflexivity.
Qed.

Lemma scan_escape_high_low (hi lo : Z) (x : str) :
  is_high_surrogate hi = true -> is_low_surrogate lo = true ->
  scanstring (escape_char hi ++ escape_char lo ++ x)
  = cons_char (join_surrogates hi lo) (scanstring x).
Proof.
  intros Hh Hl.
  rewrite (escape_char_surrogate hi) by (apply high_is_surrogate; assumption).
  rewrite (escape_char_surrogate lo) by (apply low_is_surrogate; assumption).
  cbn [app hex4].
  rewrite (scanstring_u_pair _ _ _ _ hi _ _ _ _ lo);
    [| apply hex4_value_hex4, high_surrogate_bmp; assumption
     | assumption
     | apply hex4_value_hex4, low_surrogate_bmp; assumption].
  rewrite Hl. reflexivity.
Qed.

Lemma scan_escape_high_other (hi c : Z) (x : str) :
  is_high_surrogate hi = true -> is_codepoint c = true ->
  is_low_surrogate c = false ->
  scanstring (escape_char hi ++ escape_char c ++ x)
  = cons_char hi (scanstring (escape_char c ++ x)).
Proof.
  intros Hh Hc Hl.
  rewrite (escape_char_surrogate hi) by (apply high_is_surrogate; assumption).
  pose proof (hex4_value_hex4 hi (high_surrogate_bmp _ Hh)) as Hv.
  destruct (escape_char_shape c Hc) as [H1 H2 H3 | e He Hs | Hb | h2 l2 Hh2 Hl2 Hj].
  - cbn [app hex4]. apply (scanstring_u_alone _ _ _ _ hi); [assumption..|].
    cbn [pair_follows]. destruct x; [reflexivity|].
    destruct (Z.eqb_spec c 92); [contradiction | reflexivity].
  - cbn [app hex4]. apply (scanstring_u_alone _ _ _ _ hi); [assumption..|].
    cbn [pair_follows]. rewrite He. reflexivity.
  - cbn [app hex4].
    rewrite (scanstring_u_pair _ _ _ _ hi _ _ _ _ c);
      [| assumption | assumption | apply hex4_value_hex4; assumption].
    rewrite Hl. reflexivity.
  - cbn [app hex4].
    rewrite (scanstring_u_pair _ _ _ _ hi _ _ _ _ h2);
      [| assumption | assumption
       | apply hex4_value_hex4, high_surrogate_bmp; assumption].
    rewrite (high_not_low _ Hh2). reflexivity.
Qed.

Lemma join_pairs_other (c : Z) (s : str) :
  is_high_surrogate c = false -> join_pairs (c :: s) = c :: join_pairs s.
Proof.
  intros H. cbn [join_pairs]. rewrite H. destruct s; reflexivity.
Qed.

Lemma scanstring_escaped_aux (n : nat) :
  forall s rest, (length s < n)%nat -> wf_str s ->
  scanstring (flat_map escape_char s ++ 34 :: rest) = Some (join_pairs s, rest).
Proof.
  induction n as [|n IH]; intros s rest Hlen Hwf; [lia|].
  destruct s as [|c s]; [reflexivity|].
  apply andb_true_iff in Hwf as [Hc Hs]. cbn [flat_map length] in *.
  rewrite <- app_assoc.
  destruct (is_high_surrogate c) eqn:Hh.
  - destruct s as [|c2 s].
    + apply scan_escape_high_last. assumption.
    + pose proof Hs as Hs'. apply andb_true_iff in Hs' as [Hc2 Hs2].
      cbn [flat_map length] in *.
      rewrite <- app_assoc.
      destruct (is_low_surrogate c2) eqn:Hl.
      * rewrite scan_escape_high_low by assumption.
        rewrite IH by (lia || assumption).
        cbn [join_pairs]. rewrite Hh, Hl. reflexivity.
      * rewrite scan_escape_high_other by assumption.
        rewrite app_assoc.
        change (escape_char c2 ++ flat_map escape_char s)
          with (flat_map escape_char (c2 :: s)).
        rewrite IH by (cbn [length]; lia || assumption).
        cbn [join_pairs cons_char obind]. rewrite Hh, Hl. reflexivity.
  - rewrite scan_escape_other by assumption.
    rewrite IH by (lia || assumption).
    rewrite join_pairs_other by assumption. reflexivity.
Qed.

(** [scanstring] on the text of [encode_basestring_ascii s], entered after
    the opening quote. *)
Lemma scanstring_escaped (s rest : str) :
  wf_str s ->
  scanstring (flat_map escape_char s ++ 34 :: rest) = Some (join_pairs s, rest).
Proof. apply (scanstring_escaped_aux (S (length s))). lia. Qed.

(** Without a high surrogate directly before a low one, nothing is joined. *)
Lemma join_pairs_id (s : str) : has_surrogate_pair s = false -> join_pairs s = s.
Proof.
  induction s as [|c s IH]; [reflexivity|].
  destruct s as [|c2 s]; [reflexivity|].
  intros H. cbn [has_surrogate_pair] in H. apply orb_false_iff in H as [H1 H2].
  cbn [join_pairs]. rewrite H1. f_equal. apply IH. exact H2.
Qed.

(* ================================================================= *)
(** ** Objects: reading back what [json.dumps] wrote for a cursor *)

Lemma scan_once_string (f : nat) (s r : str) :
  wf_str s ->
  scan_once (S f) (encode_basestring_ascii s ++ r) = Some (PStr (join_pairs s), r).
Proof.
  intros Hwf. unfold encode_basestring_ascii. rewrite <- !app_assoc.
  cbn [app scan_once]. change (34 =? 34) with true. cbv iota.
  rewrite scanstring_escaped by assumption. reflexivity.
Qed.

(** The first character of a decimal: a digit or the minus sign. *)
Lemma int_repr_head (n : Z) :
  exists c r, int_repr n = c :: r /\ (is_digit c = true \/ c = 45).
Proof.
  unfold int_repr. destruct (Z.ltb_spec n 0).
  - exists 45, (nat_repr (- n)). split; [reflexivity | right; reflexivity].
  - destruct (nat_repr_spec n H) as (Hd & _ & Hpos & Hzero).
    destruct (Z.eq_dec n 0) as [-> | Hnz].
    + exists 48, []. rewrite (Hzero eq_refl). split; [reflexivity | left; reflexivity].
    + destruct Hpos as (c & r & E & Hc); [lia|]. exists c, r.
      split; [assumption|]. left. apply in_range_spec. lia.
Qed.

Lemma skip_ws_int_repr (n : Z) (r : str) :
  skip_ws (int_repr n ++ r) = int_repr n ++ r.
Proof.
  destruct (int_repr_head n) as (c & t & -> & Hc). cbn [app skip_ws].
  replace (json_ws c) with false; [reflexivity|].
  symmetry. unfold json_ws.
  destruct Hc as [Hc | ->]; [|reflexivity].
  apply in_range_spec in Hc.
  repeat match goal with
         | |- context [c =? ?k] => destruct (Z.eqb_spec c k); [lia|]
         end.
  reflexivity.
Qed.

Lemma strip_prefix_head (p c : Z) (ps s : str) :
  p <> c -> strip_prefix (p :: ps) (c :: s) = None.
Proof.
  intros H. cbn [strip_prefix]. destruct (Z.eqb_spec p c); [contradiction | reflexivity].
Qed.

Lemma scan_once_int (f : nat) (n : Z) (r : str) :
  number_stop r = true ->
  scan_once (S f) (int_repr n ++ r) = Some (PInt n, r).
Proof.
  intros Hr. pose proof (match_number_int_repr n r Hr) as Hm.
  destruct (int_repr_head n) as (c & t & E & Hc). rewrite E in *.
  cbn [app scan_once] in *.
  assert (Hne : c <> 34 /\ c <> 123 /\ c <> 91 /\ c <> 110 /\ c <> 116
                /\ c <> 102 /\ c <> 78 /\ c <> 73).
  { destruct Hc as [Hc | ->]; [apply in_range_spec in Hc|]; lia. }
  destruct Hne as (N1 & N2 & N3 & N4 & N5 & N6 & N7 & N8).
  destruct (Z.eqb_spec c 34); [contradiction|].
  destruct (Z.eqb_spec c 123); [contradiction|].
  destruct (Z.eqb_spec c 91); [contradiction|].
  unfold scan_constant.
  change (lit "null") with (110 :: lit "ull").
  change (lit "true") with (116 :: lit "rue").
  change (lit "false") with (102 :: lit "alse").
  change (lit "NaN") with (78 :: lit "aN").
  change (lit "Infinity") with (73 :: lit "nfinity").
  rewrite !(strip_prefix_head _ c) by congruence.
  assert (Hinf : strip_prefix (lit "-Infinity") (c :: t ++ r) = None).
  { change (lit "-Infinity") with (45 :: 73 :: lit "nfinity").
    destruct Hc as [Hc | ->].
    - apply strip_prefix_head. apply in_range_spec in Hc. lia.
    - (* a minus sign is followed by a digit *)
      unfold int_repr in E. destruct (Z.ltb_spec n 0) as [Hneg | Hnn].
      + injection E as <-.
        destruct (nat_repr_spec (- n) ltac:(lia)) as (_ & _ & Hpos & _).
        destruct Hpos as (d & t' & -> & Hd); [lia|].
        cbn [app strip_prefix]. change (45 =? 45) with true. cbv iota.
        destruct (Z.eqb_spec 73 d); [lia | reflexivity].
      + destruct (nat_repr_spec n Hnn) as (Hd & _ & _ & _).
        rewrite E in Hd. cbn [forallb] in Hd. discriminate. }
  rewrite Hinf. exact Hm.
Qed.

Lemma skip_ws_head (c : Z) (r : str) : json_ws c = false -> skip_ws (c :: r) = c :: r.
Proof. intros H. cbn [skip_ws]. rewrite H. reflexivity. Qed.

Lemma skip_ws_length (s : str) : (length (skip_ws s) <= length s)%nat.
Proof.
  induction s as [|x s IH]; cbn [skip_ws length]; [lia|].
  destruct (json_ws x); cbn [length]; lia.
Qed.

Lemma skip_ws_fixed (vt x : str) :
  vt <> [] -> skip_ws vt = vt -> skip_ws (vt ++ x) = vt ++ x.
Proof.
  intros Hne Hws. destruct vt as [|c t]; [congruence|].
  cbn [app skip_ws] in Hws |- *. destruct (json_ws c); [|reflexivity].
  exfalso. pose proof (skip_ws_length t) as L. rewrite Hws in L.
  cbn [length] in L. lia.
Qed.

(** One member of an object, another one after it. *)
Lemma object_items_more (f : nat) (acc : list (str * pyval))
      (k vt r : str) (v : pyval) :
  wf_str k -> vt <> [] -> skip_ws vt = vt ->
  scan_once f (vt ++ 44 :: 32 :: 34 :: r) = Some (v, 44 :: 32 :: 34 :: r) ->
  object_items (S f) acc
    (flat_map escape_char k ++ [34] ++ lit ": " ++ vt ++ lit ", " ++ [34] ++ r)
  = object_items f ((join_pairs k, v) :: acc) r.
Proof.
  intros Hk Hne Hws Hv. cbn [object_items].
  change ([34] ++ lit ": " ++ vt ++ lit ", " ++ [34] ++ r)
    with (34 :: 58 :: 32 :: (vt ++ 44 :: 32 :: 34 :: r)).
  rewrite scanstring_escaped by assumption. cbn [obind].
  rewrite (skip_ws_head 58) by reflexivity. change (58 =? 58) with true. cbv iota.
  assert (E : skip_ws (32 :: vt ++ 44 :: 32 :: 34 :: r) = vt ++ 44 :: 32 :: 34 :: r).
  { cbn [skip_ws]. change (json_ws 32) with true. cbv iota.
    apply skip_ws_fixed; assumption. }
  rewrite E, Hv. cbn [obind].
  rewrite (skip_ws_head 44) by reflexivity.
  change (44 =? 125) with false. change (44 =? 44) with true. cbv iota.
  change (skip_ws (32 :: 34 :: r)) with (34 :: r).
  change (34 =? 34) with true. cbv iota.
  reflexivity.
Qed.

(** The last member of an object. *)
Lemma object_items_last (f : nat) (acc : list (str * pyval))
      (k vt r : str) (v : pyval) :
  wf_str k -> vt <> [] -> skip_ws vt = vt ->
  scan_once f (vt ++ 125 :: r) = Some (v, 125 :: r) ->
  object_items (S f) acc
    (flat_map escape_char k ++ [34] ++ lit ": " ++ vt ++ [125] ++ r)
  = Some (PDict (dict_of_pairs (rev ((join_pairs k, v) :: acc))), r).
Proof.
  intros Hk Hne Hws Hv. cbn [object_items].
  change ([34] ++ lit ": " ++ vt ++ [125] ++ r)
    with (34 :: 58 :: 32 :: (vt ++ 125 :: r)).
  rewrite scanstring_escaped by assumption. cbn [obind].
  rewrite (skip_ws_head 58) by reflexivity. change (58 =? 58) with true. cbv iota.
  assert (E : skip_ws (32 :: vt ++ 125 :: r) = vt ++ 125 :: r).
  { cbn [skip_ws]. change (json_ws 32) with true. cbv iota.
    apply skip_ws_fixed; assumption. }
  rewrite E, Hv. cbn [obind].
  rewrite (skip_ws_head 125) by reflexivity.
  change (125 =? 125) with true. cbv iota. reflexivity.
Qed.

(* ================================================================= *)
(** ** The fuel of the scanner is never used up *)

Lemma cons_char_inv (c : Z) (o : option (str * str)) (x r : str) :
  cons_char c o = Some (x, r) -> exists x', o = Some (x', r).
Proof.
  unfold cons_char. destruct o as [[x' r']|]; [|discriminate].
  cbn [obind]. intros [= _ <-]. eauto.
Qed.

Lemma scanstring_length_aux (n : nat) :
  forall s x r, (length s < n)%nat -> scanstring s = Some (x, r) ->
  (length r < length s)%nat.
Proof.
  induction n as [|n IH]; intros s x r Hlen H; [lia|].
  assert (step : forall c t, (length t < n)%nat ->
                 cons_char c (scanstring t) = Some (x, r) ->
                 (length r < length t)%nat).
  { intros c t Ht Hc. apply cons_char_inv in Hc as [x' Hx'].
    exact (IH t x' r Ht Hx'). }
  destruct s as [|c s1]; [discriminate|]. cbn [scanstring] in H.
  cbn [length] in *.
  destruct (c =? 34); [injection H as _ <-; lia|].
  destruct (c =? 92).
  - destruct s1 as [|e s2]; [discriminate|]. cbn [length] in *.
    destruct (e =? 117).
    + destruct s2 as [|a [|b [|c' [|d s6]]]]; try discriminate.
      cbn [length] in *.
      destruct (hex4_value a b c' d) as [uni|]; [|discriminate].
      cbn [obind] in H.
      destruct (is_high_surrogate uni).
      * destruct s6 as [|bs [|u s8]];
          try (apply step in H; cbn [length] in *; lia).
        cbn [length] in *.
        destruct ((bs =? 92) && (u =? 117));
          [|apply step in H; cbn [length] in *; lia].
        destruct s8 as [|a2 [|b2 [|c2 [|d2 s12]]]]; try discriminate.
        cbn [length] in *.
        destruct (hex4_value a2 b2 c2 d2) as [uni2|]; [|discriminate].
        cbn [obind] in H.
        destruct (is_low_surrogate uni2);
          apply step in H; cbn [length] in *; lia.
      * apply step in H; lia.
    + destruct (simple_escape e) as [ch|]; [|discriminate].
      cbn [obind] in H. apply step in H; lia.
  - destruct (c <=? 31); [discriminate|]. apply step in H; lia.
Qed.

Lemma scanstring_length (s x r : str) :
  scanstring s = Some (x, r) -> (length r < length s)%nat.
Proof. apply (scanstring_length_aux (S (length s))). lia. Qed.

Lemma span_digits_length (s : str) :
  (length (snd (span_digits s)) <= length s)%nat.
Proof.
  induction s as [|c s IH]; cbn [span_digits]; [cbn; lia|].
  destruct (is_digit c); [|cbn; lia].
  destruct (span_digits s) as [ds r]. cbn [snd length] in *. lia.
Qed.

Lemma number_int_length (s ip r : str) :
  number_int s = Some (ip, r) -> (length r < length s)%nat.
Proof.
  unfold number_int. destruct s as [|c s2]; [discriminate|].
  destruct (in_range 49 57 c).
  - pose proof (span_digits_length s2) as L.
    destruct (span_digits s2) as [ds r']. intros [= _ <-].
    cbn [snd length] in *. lia.
  - destruct (c =? 48); [|discriminate]. intros [= _ <-]. cbn [length]. lia.
Qed.

Lemma number_sign_length (s : str) :
  (length (snd (number_sign s)) <= length s)%nat.
Proof.
  unfold number_sign. destruct s as [|c t]; [cbn; lia|].
  destruct (c =? 45); cbn [snd length]; lia.
Qed.

Lemma number_frac_length (s : str) :
  (length (snd (number_frac s)) <= length s)%nat.
Proof.
  unfold number_frac. destruct s as [|p [|d r]]; try (cbn; lia).
  destruct ((p =? 46) && is_digit d); [|cbn; lia].
  pose proof (span_digits_length r) as L.
  destruct (span_digits r) as [ds r']. cbn [snd length] in *. lia.
Qed.

Lemma number_exp_length (s : str) :
  (length (snd (number_exp s)) <= length s)%nat.
Proof.
  unfold number_exp. destruct s as [|e r]; [cbn; lia|].
  destruct ((e =? 101) || (e =? 69)); [|cbn; lia].
  set (sg := match r with
             | [] => ([], r)
             | c :: t => if (c =? 45) || (c =? 43) then ([c], t) else ([], r)
             end).
  assert (Hsg : (length (snd sg) <= length r)%nat).
  { unfold sg. destruct r as [|c t]; [cbn; lia|].
    destruct ((c =? 45) || (c =? 43)); cbn [snd length]; lia. }
  destruct sg as [sgn r']. cbn [snd] in Hsg.
  pose proof (span_digits_length r') as L.
  destruct (span_digits r') as [[|d ds] r'']; cbn [snd length] in *; lia.
Qed.

Lemma match_number_length (s r : str) (v : pyval) :
  match_number s = Some (v, r) -> (length r < length s)%nat.
Proof.
  unfold match_number.
  pose proof (number_sign_length s) as L1.
  destruct (number_sign s) as [sign s1]. cbn [snd] in L1.
  destruct (number_int s1) as [[ip r1]|] eqn:E; [|discriminate].
  apply number_int_length in E. cbn [obind].
  pose proof (number_frac_length r1) as L2.
  destruct (number_frac r1) as [frac r2]. cbn [snd] in L2.
  pose proof (number_exp_length r2) as L3.
  destruct (number_exp r2) as [ex r3]. cbn [snd] in L3.
  destruct frac; destruct ex; intros [= _ <-]; lia.
Qed.

Lemma strip_prefix_length (p s r : str) :
  strip_prefix p s = Some r -> length s = (length p + length r)%nat.
Proof.
  revert s. induction p as [|x p IH]; intros s; cbn [strip_prefix].
  - intros [= ->]. reflexivity.
  - destruct s as [|y s]; [discriminate|].
    destruct (x =? y); [|discriminate]. intros H. apply IH in H.
    cbn [length]. lia.
Qed.

Lemma scan_constant_length (s r : str) (v : pyval) :
  scan_constant s = Some (v, r) -> (length r < length s)%nat.
Proof.
  unfold scan_constant.
  repeat match goal with
         | |- context [strip_prefix ?p s] =>
             let E := fresh "E" in
             destruct (strip_prefix p s) eqn:E;
             [apply strip_prefix_length in E; cbn [length lit] in E;
              simpl in E; intros [= _ <-]; lia|]
         end.
  apply match_number_length.
Qed.

(** Every scanning function consumes text. *)
Lemma scan_length (f : nat) :
  (forall s v r, scan_once f s = Some (v, r) -> (length r < length s)%nat)
  /\ (forall acc s v r, object_items f acc s = Some (v, r) ->
        (length r < length s)%nat)
  /\ (forall acc s v r, array_items f acc s = Some (v, r) ->
        (length r < length s)%nat).
Proof.
  induction f as [|f (IHs & IHo & IHa)];
    [repeat split; intros; discriminate|].
  split; [|split].
  - intros s v r H. cbn [scan_once] in H.
    destruct s as [|c s']; [discriminate|]. cbn [length].
    destruct (c =? 34).
    { destruct (scanstring s') as [[x r']|] eqn:E; [|discriminate].
      apply scanstring_length in E. cbn [obind] in H. injection H as _ <-. lia. }
    pose proof (skip_ws_length s') as L.
    destruct (c =? 123).
    { destruct (skip_ws s') as [|c1 r1]; [discriminate|]. cbn [length] in L.
      destruct (c1 =? 125); [injection H as _ <-; lia|].
      destruct (c1 =? 34); [|discriminate]. apply IHo in H. lia. }
    destruct (c =? 91).
    { destruct (skip_ws s') as [|c1 r1]; [discriminate|]. cbn [length] in L.
      destruct (c1 =? 93); [injection H as _ <-; lia|].
      apply IHa in H. cbn [length] in H. lia. }
    apply scan_constant_length in H. cbn [length] in H. exact H.
  - intros acc s v r H. cbn [object_items] in H.
    destruct (scanstring s) as [[key r0]|] eqn:E; [|discriminate].
    apply scanstring_length in E. cbn [obind] in H.
    pose proof (skip_ws_length r0) as L0.
    destruct (skip_ws r0) as [|c r1]; [discriminate|]. cbn [length] in L0.
    destruct (c =? 58); [|discriminate].
    pose proof (skip_ws_length r1) as L1.
    destruct (scan_once f (skip_ws r1)) as [[v' r2]|] eqn:Ev; [|discriminate].
    apply IHs in Ev. cbn [obind] in H.
    pose proof (skip_ws_length r2) as L2.
    destruct (skip_ws r2) as [|c2 r3]; [discriminate|]. cbn [length] in L2.
    destruct (c2 =? 125); [injection H as _ <-; lia|].
    destruct (c2 =? 44); [|discriminate].
    pose proof (skip_ws_length r3) as L3.
    destruct (skip_ws r3) as [|q r4]; [discriminate|]. cbn [length] in L3.
    destruct (q =? 34); [|discriminate]. apply IHo in H. lia.
  - intros acc s v r H. cbn [array_items] in H.
    destruct (scan_once f s) as [[v' r0]|] eqn:Ev; [|discriminate].
    apply IHs in Ev. cbn [obind] in H.
    pose proof (skip_ws_length r0) as L0.
    destruct (skip_ws r0) as [|c r1]; [discriminate|]. cbn [length] in L0.
    destruct (c =? 93); [injection H as _ <-; lia|].
    destruct (c =? 44); [|discriminate].
    pose proof (skip_ws_length r1) as L1. apply IHa in H. lia.
Qed.

(** With fuel of at least twice the length of the text, the result does not
    depend on the fuel. *)
Lemma scan_fuel (f1 : nat) :
  (forall f2 s, (2 * length s <= f1)%nat -> (2 * length s <= f2)%nat ->
     scan_once f1 s = scan_once f2 s)
  /\ (forall f2 acc s, (2 * length s + 1 <= f1)%nat -> (2 * length s + 1 <= f2)%nat ->
        object_items f1 acc s = object_items f2 acc s)
  /\ (forall f2 acc s, (2 * length s + 1 <= f1)%nat -> (2 * length s + 1 <= f2)%nat ->
        array_items f1 acc s = array_items f2 acc s).
Proof.
  induction f1 as [|f1 (IHs & IHo & IHa)].
  { split; [|split]; intros; try lia.
    destruct s; [|cbn [length] in *; lia]. destruct f2; reflexivity. }
  split; [|split].
  - intros f2 s H1 H2. destruct s as [|c s'].
    { destruct f2; reflexivity. }
    cbn [length] in *. destruct f2 as [|f2]; [lia|]. cbn [scan_once].
    destruct (c =? 34); [reflexivity|].
    pose proof (skip_ws_length s') as L.
    destruct (c =? 123).
    { destruct (skip_ws s') as [|c1 r1]; [reflexivity|]. cbn [length] in L.
      destruct (c1 =? 125); [reflexivity|].
      destruct (c1 =? 34); [|reflexivity]. apply IHo; lia. }
    destruct (c =? 91); [|reflexivity].
    destruct (skip_ws s') as [|c1 r1]; [reflexivity|]. cbn [length] in L.
    destruct (c1 =? 93); [reflexivity|]. apply IHa; cbn [length]; lia.
  - intros f2 acc s H1 H2. destruct f2 as [|f2]; [lia|]. cbn [object_items].
    destruct (scanstring s) as [[key r0]|] eqn:E; [|reflexivity].
    apply scanstring_length in E. cbn [obind].
    pose proof (skip_ws_length r0) as L0.
    destruct (skip_ws r0) as [|c r1]; [reflexivity|]. cbn [length] in L0.
    destruct (c =? 58); [|reflexivity].
    pose proof (skip_ws_length r1) as L1.
    rewrite (IHs f2 (skip_ws r1)) by lia.
    destruct (scan_once f2 (skip_ws r1)) as [[v' r2]|] eqn:Ev; [|reflexivity].
    apply (proj1 (scan_length f2)) in Ev. cbn [obind].
    pose proof (skip_ws_length r2) as L2.
    destruct (skip_ws r2) as [|c2 r3]; [reflexivity|]. cbn [length] in L2.
    destruct (c2 =? 125); [reflexivity|].
    destruct (c2 =? 44); [|reflexivity].
    pose proof (skip_ws_length r3) as L3.
    destruct (skip_ws r3) as [|q r4]; [reflexivity|]. cbn [length] in L3.
    destruct (q =? 34); [|reflexivity]. apply IHo; lia.
  - intros f2 acc s H1 H2. destruct f2 as [|f2]; [lia|]. cbn [array_items].
    rewrite (IHs f2 s) by lia.
    destruct (scan_once f2 s) as [[v' r0]|] eqn:Ev; [|reflexivity].
    apply (proj1 (scan_length f2)) in Ev. cbn [obind].
    pose proof (skip_ws_length r0) as L0.
    destruct (skip_ws r0) as [|c r1]; [reflexivity|]. cbn [length] in L0.
    destruct (c =? 93); [reflexivity|].
    destruct (c =? 44); [|reflexivity].
    pose proof (skip_ws_length r1) as L1. apply IHa; lia.
Qed.

Lemma scan_once_fuel (f1 f2 : nat) (s : str) :
  (2 * length s <= f1)%nat -> (2 * length s <= f2)%nat ->
  scan_once f1 s = scan_once f2 s.
Proof. apply (proj1 (scan_fuel f1)). Qed.

(** [json_loads] with any larger fuel gives the same value: a failure is a
    failure of the text, never of the fuel. *)
Lemma json_loads_fuel (s : str) (f : nat) :
  (2 * length s + 2 <= f)%nat ->
  json_loads s
  = match strip_prefix [0xFEFF] s with
    | Some _ => None
    | None =>
        try (obj, r) <- scan_once f (skip_ws s);
        match skip_ws r with
        | [] => Some obj
        | _ :: _ => None
        end
    end.
Proof.
  intros H. unfold json_loads. pose proof (skip_ws_length s) as L.
  rewrite (scan_once_fuel (2 * length s + 2) f) by lia. reflexivity.
Qed.

Lemma json_loads_object2 (k1 vt1 k2 vt2 : str) (v1 v2 : pyval) :
  wf_str k1 -> wf_str k2 ->
  vt1 <> [] -> skip_ws vt1 = vt1 ->
  vt2 <> [] -> skip_ws vt2 = vt2 ->
  (forall f r, scan_once (S f) (vt1 ++ 44 :: 32 :: 34 :: r)
               = Some (v1, 44 :: 32 :: 34 :: r)) ->
  (forall f r, scan_once (S f) (vt2 ++ 125 :: r) = Some (v2, 125 :: r)) ->
  json_loads (object2 k1 vt1 k2 vt2)
  = Some (PDict (dict_of_pairs [(join_pairs k1, v1); (join_pairs k2, v2)])).
Proof.
  intros Hk1 Hk2 Hn1 Hw1 Hn2 Hw2 Hv1 Hv2.
  unfold json_loads, object2, encode_basestring_ascii.
  rewrite <- !app_assoc.
  set (tail2 := flat_map escape_char k2 ++ [34] ++ lit ": " ++ vt2 ++ [125]).
  set (tail1 := flat_map escape_char k1 ++ [34] ++ lit ": " ++ vt1 ++ lit ", "
                  ++ [34] ++ tail2).
  change ([123] ++ [34] ++ tail1) with (123 :: 34 :: tail1).
  change (strip_prefix [65279] (123 :: 34 :: tail1)) with (@None str).
  rewrite (skip_ws_head 123) by reflexivity.
  assert (Hlen : exists f, length tail1 = S (S f)).
  { assert (2 <= length tail1)%nat.
    { unfold tail1, tail2. rewrite !length_app. cbn [length].
      destruct vt1; [congruence|]. cbn [length]. lia. }
    destruct (length tail1) as [|[|f]]; [lia | lia | eauto]. }
  destruct Hlen as [f Hf]. cbn [length]. rewrite Hf.
  replace (2 * S (S (S (S f))) + 2)%nat with (S (S (S (S (2 * f + 6)))))%nat by lia.
  change (scan_once (S (S (S (S (2 * f + 6))))) (123 :: 34 :: tail1))
    with (object_items (S (S (S (2 * f + 6)))) [] tail1).
  unfold tail1.
  rewrite (object_items_more _ _ k1 vt1 tail2 v1) by auto.
  unfold tail2.
  replace (flat_map escape_char k2 ++ [34] ++ lit ": " ++ vt2 ++ [125])
    with (flat_map escape_char k2 ++ [34] ++ lit ": " ++ vt2 ++ [125] ++ [])
    by reflexivity.
  rewrite (object_items_last _ _ k2 vt2 [] v2) by auto.
  reflexivity.
Qed.

Lemma encode_basestring_ascii_value (s : str) :
  wf_str s ->
  encode_basestring_ascii s <> []
  /\ skip_ws (encode_basestring_ascii s) = encode_basestring_ascii s
  /\ (forall f r, scan_once (S f) (encode_basestring_ascii s ++ r)
                  = Some (PStr (join_pairs s), r)).
Proof.
  intros H. split; [discriminate|]. split; [reflexivity|].
  intros f r. apply scan_once_string. assumption.
Qed.

Lemma int_repr_value (n : Z) :
  int_repr n <> []
  /\ skip_ws (int_repr n) = int_repr n
  /\ (forall f r, number_stop r = true ->
                  scan_once (S f) (int_repr n ++ r) = Some (PInt n, r)).
Proof.
  split; [|split].
  - destruct (int_repr_head n) as (c & r & -> & _). discriminate.
  - pose proof (skip_ws_int_repr n []) as H. rewrite app_nil_r in H. exact H.
  - intros f r Hr. apply scan_once_int. assumption.
Qed.

Lemma wf_lit_database : wf_str (lit "database").
Proof. reflexivity. Qed.

Lemma wf_lit_offset : wf_str (lit "offset").
Proof. reflexivity. Qed.

Lemma wf_lit_query_hash : wf_str (lit "query_hash").
Proof. reflexivity. Qed.

Lemma json_loads_table_json (n : Z) (s : str) :
  wf_str s ->
  json_loads (table_json n s)
  = Some (PDict [(lit "database", PStr (join_pairs s)); (lit "offset", PInt n)]).
Proof.
  intros Hs. unfold table_json.
  destruct (encode_basestring_ascii_value s Hs) as (A1 & A2 & A3).
  destruct (int_repr_value n) as (B1 & B2 & B3).
  rewrite (json_loads_object2 _ _ _ _ (PStr (join_pairs s)) (PInt n));
    auto using wf_lit_database, wf_lit_offset.
Qed.

Lemma json_loads_query_json (n : Z) (s : str) :
  wf_str s ->
  json_loads (query_json n s)
  = Some (PDict [(lit "offset", PInt n); (lit "query_hash", PStr (join_pairs s))]).
Proof.
  intros Hs. unfold query_json.
  destruct (encode_basestring_ascii_value s Hs) as (A1 & A2 & A3).
  destruct (int_repr_value n) as (B1 & B2 & B3).
  rewrite (json_loads_object2 _ _ _ _ (PInt n) (PStr (join_pairs s)));
    auto using wf_lit_offset, wf_lit_query_hash.
Qed.

Lemma json_dumps_table (n : Z) (s : str) :
  json_dumps (PDict [(lit "offset", PInt n); (lit "database", PStr s)])
  = table_json n s.
Proof.
  transitivity
    ([123] ++ ((encode_basestring_ascii (lit "database") ++ lit ": "
                  ++ encode_basestring_ascii s)
               ++ lit ", "
               ++ (encode_basestring_ascii (lit "offset") ++ lit ": " ++ int_repr n))
           ++ [125]); [reflexivity|].
  unfold table_json, object2. rewrite <- !app_assoc. reflexivity.
Qed.

Lemma json_dumps_query (n : Z) (s : str) :
  json_dumps (PDict [(lit "offset", PInt n); (lit "query_hash", PStr s)])
  = query_json n s.
Proof.
  transitivity
    ([123] ++ ((encode_basestring_ascii (lit "offset") ++ lit ": " ++ int_repr n)
               ++ lit ", "
               ++ (encode_basestring_ascii (lit "query_hash") ++ lit ": "
                     ++ encode_basestring_ascii s))
           ++ [125]); [reflexivity|].
  unfold query_json, object2. rewrite <- !app_assoc. reflexivity.
Qed.

Lemma object2_ascii (k1 v1 k2 v2 : str) :
  forallb is_ascii v1 = true -> forallb is_ascii v2 = true ->
  forallb is_ascii (object2 k1 v1 k2 v2) = true.
Proof.
  intros H1 H2. unfold object2.
  rewrite !forallb_app, !encode_basestring_ascii_ascii, H1, H2. reflexivity.
Qed.

Lemma table_json_ascii (n : Z) (s : str) : forallb is_ascii (table_json n s) = true.
Proof.
  apply object2_ascii; [apply encode_basestring_ascii_ascii | apply int_repr_ascii].
Qed.

Lemma query_json_ascii (n : Z) (s : str) : forallb is_ascii (query_json n s) = true.
Proof.
  apply object2_ascii; [apply int_repr_ascii | apply encode_basestring_ascii_ascii].
Qed.

(** What [encode] returns for a well-typed cursor, and what the shared
    front half of [decode] makes of it. *)
Lemma table_cursor_token (n : Z) (s : str) :
  wf_str s ->
  TableListCursor.encode (TableListCursor.mk (PInt n) (PStr s))
    = Ok (urlsafe_b64encode (table_json n s))
  /\ BaseCursorData.load (urlsafe_b64encode (table_json n s))
     = Some (PDict [(lit "database", PStr (join_pairs s)); (lit "offset", PInt n)]).
Proof.
  intros Hs.
  destruct (token_roundtrip (table_json n s) (table_json_ascii n s))
    as (token & Henc & -> & Hdec).
  split.
  - unfold TableListCursor.encode, BaseCursorData.encode, TableListCursor.dict.
    cbn [TableListCursor.offset TableListCursor.database filter is_none negb snd].
    rewrite json_dumps_table. exact Henc.
  - unfold BaseCursorData.load.
    destruct (utf8_encode (urlsafe_b64encode (table_json n s))) as [b|];
      [|discriminate].
    cbn [obind] in Hdec |- *.
    destruct (urlsafe_b64decode b) as [raw|]; [|discriminate].
    cbn [obind] in Hdec |- *. rewrite Hdec. cbn [obind].
    apply json_loads_table_json. assumption.
Qed.

Lemma query_cursor_token (n : Z) (s : str) :
  wf_str s ->
  QueryResultCursor.encode (QueryResultCursor.mk (PInt n) (PStr s))
    = Ok (urlsafe_b64encode (query_json n s))
  /\ BaseCursorData.load (urlsafe_b64encode (query_json n s))
     = Some (PDict [(lit "offset", PInt n); (lit "query_hash", PStr (join_pairs s))]).
Proof.
  intros Hs.
  destruct (token_roundtrip (query_json n s) (query_json_ascii n s))
    as (token & Henc & -> & Hdec).
  split.
  - unfold QueryResultCursor.encode, BaseCursorData.encode, QueryResultCursor.dict.
    cbn [QueryResultCursor.offset QueryResultCursor.query_hash filter is_none negb snd].
    rewrite json_dumps_query. exact Henc.
  - unfold BaseCursorData.load.
    destruct (utf8_encode (urlsafe_b64encode (query_json n s))) as [b|];
      [|discriminate].
    cbn [obind] in Hdec |- *.
    destruct (urlsafe_b64decode b) as [raw|]; [|discriminate].
    cbn [obind] in Hdec |- *. rewrite Hdec. cbn [obind].
    apply json_loads_query_json. assumption.
Qed.

(** [encode] is total on integer offsets and string discriminators, and the
    text it encodes is written with the default separators. *)
Lemma encode_value (n : Z) (s : str) :
  TableListCursor.encode (TableListCursor.mk (PInt n) (PStr s))
    = Ok (urlsafe_b64encode (table_json n s))
  /\ QueryResultCursor.encode (QueryResultCursor.mk (PInt n) (PStr s))
     = Ok (urlsafe_b64encode (query_json n s)).
Proof.
  split.
  - destruct (token_roundtrip (table_json n s) (table_json_ascii n s))
      as (token & Henc & -> & _).
    unfold TableListCursor.encode, BaseCursorData.encode, TableListCursor.dict.
    cbn [TableListCursor.offset TableListCursor.database filter is_none negb snd].
    rewrite json_dumps_table. exact Henc.
  - destruct (token_roundtrip (query_json n s) (query_json_ascii n s))
      as (token & Henc & -> & _).
    unfold QueryResultCursor.encode, BaseCursorData.encode, QueryResultCursor.dict.
    cbn [QueryResultCursor.offset QueryResultCursor.query_hash filter is_none negb snd].
    rewrite json_dumps_query. exact Henc.
Qed.

(* ================================================================= *)
(** ** The constructors and [decode] *)

Lemma keys_allowed_spec (disc : str) (d : list (str * pyval)) :
  forallb (fun kv => str_eqb (fst kv) (lit "offset") || str_eqb (fst kv) disc) d = true
  <-> (forall k v, In (k, v) d -> k = lit "offset" \/ k = disc).
Proof.
  rewrite forallb_forall. split.
  - intros H k v Hin. specialize (H (k, v) Hin). cbn [fst] in H.
    apply orb_true_iff in H as [H | H]; apply str_eqb_eq in H; auto.
  - intros H [k v] Hin. cbn [fst]. apply orb_true_iff.
    destruct (H k v Hin) as [-> | ->]; [left | right]; apply str_eqb_refl.
Qed.

Lemma table_init_spec (data : pyval) (c : TableListCursor.t) :
  TableListCursor.init data = Some c
  <-> accepts (lit "database") data
        (TableListCursor.offset c) (TableListCursor.database c).
Proof.
  unfold TableListCursor.init, accepts. split.
  - destruct data as [| | | | |l|d]; try discriminate.
    destruct (forallb _ d) eqn:K; [|discriminate].
    destruct (dict_get d (lit "offset")) as [off|] eqn:O; [|discriminate].
    cbn [obind]. intros [= <-]. exists d.
    split; [reflexivity|]. split; [apply keys_allowed_spec; exact K|].
    split; [exact O | reflexivity].
  - intros (d & -> & K & O & D). apply keys_allowed_spec in K. rewrite K, O.
    cbn [obind]. destruct c as [off dv]. cbn in D |- *. rewrite D. reflexivity.
Qed.

Lemma query_init_spec (data : pyval) (c : QueryResultCursor.t) :
  QueryResultCursor.init data = Some c
  <-> accepts (lit "query_hash") data
        (QueryResultCursor.offset c) (QueryResultCursor.query_hash c).
Proof.
  unfold QueryResultCursor.init, accepts. split.
  - destruct data as [| | | | |l|d]; try discriminate.
    destruct (forallb _ d) eqn:K; [|discriminate].
    destruct (dict_get d (lit "offset")) as [off|] eqn:O; [|discriminate].
    cbn [obind]. intros [= <-]. exists d.
    split; [reflexivity|]. split; [apply keys_allowed_spec; exact K|].
    split; [exact O | reflexivity].
  - intros (d & -> & K & O & D). apply keys_allowed_spec in K. rewrite K, O.
    cbn [obind]. destruct c as [off dv]. cbn in D |- *. rewrite D. reflexivity.
Qed.

Lemma load_spec (token : str) (v : pyval) :
  BaseCursorData.load token = Some v
  <-> exists b raw text,
        utf8_encode token = Some b
        /\ urlsafe_b64decode b = Some raw
        /\ utf8_decode raw = Some text
        /\ json_loads text = Some v.
Proof.
  unfold BaseCursorData.load. split.
  - destruct (utf8_encode token) as [b|] eqn:E1; [|discriminate]. cbn [obind].
    destruct (urlsafe_b64decode b) as [raw|] eqn:E2; [|discriminate]. cbn [obind].
    destruct (utf8_decode raw) as [text|] eqn:E3; [|discriminate]. cbn [obind].
    intros H. exists b, raw, text. auto.
  - intros (b & raw & text & E1 & E2 & E3 & E4).
    rewrite E1. cbn [obind]. rewrite E2. cbn [obind]. rewrite E3. exact E4.
Qed.

Lemma table_decode_ok (token : str) (c : TableListCursor.t) :
  TableListCursor.decode token = Ok c
  <-> exists data, BaseCursorData.load token = Some data
                   /\ TableListCursor.init data = Some c.
Proof.
  unfold TableListCursor.decode. split.
  - destruct (BaseCursorData.load token) as [data|] eqn:L; [|discriminate].
    cbn [obind]. destruct (TableListCursor.init data) as [c'|] eqn:E; [|discriminate].
    intros [= <-]. eauto.
  - intros (data & -> & H). cbn [obind]. rewrite H. reflexivity.
Qed.

Lemma query_decode_ok (token : str) (c : QueryResultCursor.t) :
  QueryResultCursor.decode token = Ok c
  <-> exists data, BaseCursorData.load token = Some data
                   /\ QueryResultCursor.init data = Some c.
Proof.
  unfold QueryResultCursor.decode. split.
  - destruct (BaseCursorData.load token) as [data|] eqn:L; [|discriminate].
    cbn [obind]. destruct (QueryResultCursor.init data) as [c'|] eqn:E; [|discriminate].
    intros [= <-]. eauto.
  - intros (data & -> & H). cbn [obind]. rewrite H. reflexivity.
Qed.

Lemma table_decode_cases (token : str) :
  (exists c, TableListCursor.decode token = Ok c)
  \/ TableListCursor.decode token = Err (ValueError InvalidTableListCursor).
Proof.
  unfold TableListCursor.decode.
  destruct (try data <- BaseCursorData.load token; TableListCursor.init data);
    eauto.
Qed.

Lemma query_decode_cases (token : str) :
  (exists c, QueryResultCursor.decode token = Ok c)
  \/ QueryResultCursor.decode token = Err (ValueError InvalidQueryResultCursor).
Proof.
  unfold QueryResultCursor.decode.
  destruct (try data <- BaseCursorData.load token; QueryResultCursor.init data);
    eauto.
Qed.
(* ================================================================= *)
(** ** The rewriter *)

Import PaginationRewriter.

Lemma strip_terminator_spec (s : str) :
  (exists r, s = r ++ [59] /\ strip_terminator s = r)
  \/ ((forall r, s <> r ++ [59]) /\ strip_terminator s = s).
Proof.
  unfold strip_terminator. destruct (rev s) as [|c r] eqn:E.
  - right. split; [|reflexivity]. intros r ->. rewrite rev_app_distr in E. discriminate.
  - assert (Hs : s = rev r ++ [c]).
    { rewrite <- (rev_involutive s), E. reflexivity. }
    destruct (Z.eqb_spec c 59) as [-> | Hne].
    + left. exists (rev r). split; [exact Hs | reflexivity].
    + right. split; [|reflexivity]. intros r' Hr'. rewrite Hr' in Hs.
      apply app_inj_tail in Hs as [_ Hc]. congruence.
Qed.






(** *** Trimming *)








(** *** The outcome of [rewrite] from that of the tokenizer *)







(** *** The tokenizer, a piece of text at a time *)






Lemma lacks_cons (c x : Z) (s : str) :
  lacks c (x :: s) = true -> (x =? c) = false /\ lacks c s = true.
Proof.
  unfold lacks. cbn [forallb]. intros H. apply andb_true_iff in H as [H1 H2].
  apply negb_true_iff in H1. auto.
Qed.












(** *** States that differ only inside opaque tokens *)














(** *** Words that contain a keyword *)




(** *** Whole queries *)













(* ################################################################# *)
(** * The examples of the docstrings and of the test suite *)

Example hash_query_empty :
  hash_query [] =
  Ok (lit "e3b0c44298fc1c149afbf4c8996fb92427ae41e4649b934ca495991b7852b855").
Proof. vm_compute. reflexivity. Qed.

Example hash_query_abc :
  hash_query (lit "  abc ") =
  Ok (lit "ba7816bf8f01cfea414140de5dae2223b00361a396177a9cb410ff61f20015ad").
Proof. vm_compute. reflexivity. Qed.

Example sha256_two_blocks :
  sha256_hexdigest
    (lit "abcdbcdecdefdefgefghfghighijhijkijkljklmklmnlmnomnopnopq") =
  lit "248d6a61d20638b8e5c026930c3e6039a33ce45964ff2167f6ecedd419db06c1".
Proof. vm_compute. reflexivity. Qed.

(** The docstring tokens, which are compact, decode all the same. *)
Example decode_docstring_table :
  TableListCursor.decode (lit "eyJkYXRhYmFzZSI6InRlc3QiLCJvZmZzZXQiOjUwfQ==")
  = Ok (TableListCursor.mk (PInt 50) (PStr (lit "test"))).
Proof. vm_compute. reflexivity. Qed.

Example decode_docstring_query :
  QueryResultCursor.decode (lit "eyJvZmZzZXQiOjEwMCwicXVlcnlfaGFzaCI6ImFiYzEyMyJ9")
  = Ok (QueryResultCursor.mk (PInt 100) (PStr (lit "abc123"))).
Proof. vm_compute. reflexivity. Qed.

(** [test_invalid_cursor_raises_error]: invalid characters, malformed
    base64, base64 of text that is not JSON, the empty string. *)
Example invalid_cursors_raise :
  Forall (fun token =>
            TableListCursor.decode token = Err (ValueError InvalidTableListCursor)
            /\ QueryResultCursor.decode token
               = Err (ValueError InvalidQueryResultCursor))
         [lit "invalid!!!cursor"; lit "not-valid-base64!@#$";
          lit "bm90IGpzb24gZGF0YQ=="; []].
Proof. repeat constructor. Qed.

(** [test_query_result_cursor_workflow] *)
Example query_result_cursor_workflow :
  exists h token,
    hash_query (lit "SELECT * FROM large_table ORDER BY timestamp") = Ok h
    /\ QueryResultCursor.encode (QueryResultCursor.mk (PInt 10000) (PStr h)) = Ok token
    /\ QueryResultCursor.decode token = Ok (QueryResultCursor.mk (PInt 10000) (PStr h))
    /\ QueryResultCursor.validate_query (QueryResultCursor.mk (PInt 10000) (PStr h))
         (lit "SELECT * FROM large_table ORDER BY id")
       = Err (ValueError QueryHasChanged).
Proof.
  eexists. eexists. split; [vm_compute; reflexivity|].
  split; [vm_compute; reflexivity|].
  split; vm_compute; reflexivity.
Qed.

(* ################################################################# *)
(** * The properties of the specification *)

(** C4. [TableListCursor.validate_params] raises the database-mismatch
    [ValueError] if and only if the cursor's [database] differs from the
    expected database string, and returns normally otherwise; in particular
    the cursor for database [test], encoded and decoded again, is rejected
    against [prod]. *)
Theorem validate_params_mismatch_iff :
  (forall (c : TableListCursor.t) (d : str),
     (TableListCursor.validate_params c d = Err (ValueError CursorDatabaseMismatch)
      <-> TableListCursor.database c <> PStr d)
     /\ (TableListCursor.validate_params c d = Ok tt
         <-> TableListCursor.database c = PStr d))
  /\ (exists token c,
        TableListCursor.encode (TableListCursor.mk (PInt 50) (PStr (lit "test")))
          = Ok token
        /\ TableListCursor.decode token = Ok c
        /\ TableListCursor.database c = PStr (lit "test")
        /\ TableListCursor.validate_params c (lit "prod")
           = Err (ValueError CursorDatabaseMismatch)).
Proof.
  split.
  - intros c d. unfold TableListCursor.validate_params.
    destruct (py_eq_str (TableListCursor.database c) d) eqn:E; simpl.
    + apply py_eq_str_spec in E. split; split; congruence.
    + apply py_eq_str_false in E. split; split; congruence.
  - eexists. eexists. split; [vm_compute; reflexivity|].
    split; [vm_compute; reflexivity|].
    split; vm_compute; reflexivity.
Qed.

(** C5. [QueryResultCursor.validate_query] raises the query-changed
    [ValueError] exactly when [hash_query] of the expected text has a value
    and the cursor's [query_hash] differs from it, and returns normally
    exactly when it equals it; hence a cursor minted for a query [q1] is
    rejected against every [q2] with a different hash and accepted against
    every [q2] with the same hash. *)
Theorem validate_query_mismatch_iff :
  (forall (c : QueryResultCursor.t) (q : str),
     (QueryResultCursor.validate_query c q = Err (ValueError QueryHasChanged)
      <-> exists h, hash_query q = Ok h /\ QueryResultCursor.query_hash c <> PStr h)
     /\ (QueryResultCursor.validate_query c q = Ok tt
         <-> exists h, hash_query q = Ok h /\ QueryResultCursor.query_hash c = PStr h))
  /\ (forall (off : pyval) (q1 q2 h1 h2 : str),
        hash_query q1 = Ok h1 -> hash_query q2 = Ok h2 ->
        let c := QueryResultCursor.mk off (PStr h1) in
        (h1 <> h2 ->
         QueryResultCursor.validate_query c q2 = Err (ValueError QueryHasChanged))
        /\ (h1 = h2 -> QueryResultCursor.validate_query c q2 = Ok tt)).
Proof.
  assert (main : forall (c : QueryResultCursor.t) (q : str),
     (QueryResultCursor.validate_query c q = Err (ValueError QueryHasChanged)
      <-> exists h, hash_query q = Ok h /\ QueryResultCursor.query_hash c <> PStr h)
     /\ (QueryResultCursor.validate_query c q = Ok tt
         <-> exists h, hash_query q = Ok h /\ QueryResultCursor.query_hash c = PStr h)).
  { intros c q. unfold QueryResultCursor.validate_query.
    destruct (hash_query q) as [h|e] eqn:Hq; simpl.
    - destruct (py_eq_str (QueryResultCursor.query_hash c) h) eqn:E; simpl.
      + apply py_eq_str_spec in E. split; split.
        * discriminate.
        * intros (h' & Hh & Hne). congruence.
        * intros _. exists h. split; [reflexivity | assumption].
        * reflexivity.
      + apply py_eq_str_false in E. split; split.
        * intros _. exists h. split; [reflexivity | assumption].
        * reflexivity.
        * discriminate.
        * intros (h' & Hh & He). congruence.
    - unfold hash_query in Hq.
      destruct (str_encode (strip q)) as [b|e'] eqn:Hb; simpl in Hq; [discriminate|].
      unfold str_encode in Hb. destruct (utf8_encode (strip q)); [discriminate|].
      injection Hb as <-. injection Hq as <-.
      split; split; try discriminate; intros (h & Hh & _); discriminate. }
  split; [exact main|].
  intros off q1 q2 h1 h2 H1 H2 c. split; intros Hh.
  - apply (main c q2). exists h2. split; [assumption|]. simpl. congruence.
  - apply (main c q2). exists h2. split; [assumption|]. simpl. congruence.
Qed.

Lemma validate_query_mismatch_iff_witness :
  QueryResultCursor.validate_query
    (QueryResultCursor.mk (PInt 100)
       (PStr (lit "e3b0c44298fc1c149afbf4c8996fb92427ae41e4649b934ca495991b7852b855")))
    (lit "SELECT 1")
  = Err (ValueError QueryHasChanged).
Proof.
  refine (proj1 (proj2 validate_query_mismatch_iff (PInt 100) [] (lit "SELECT 1")
            _ _ _ _) _).
  - vm_compute. reflexivity.
  - vm_compute. reflexivity.
  - vm_compute. discriminate.
Defined.

(** C6. Leading and trailing whitespace does not change [hash_query]: the
    hash of a padded query is the hash of the query, every whitespace-only
    string hashes like the empty string, and whitespace inside the query
    still matters. *)
Theorem hash_query_ignores_outer_whitespace (q pre post : str) :
  forallb isspace pre = true -> forallb isspace post = true ->
  hash_query (pre ++ q ++ post) = hash_query q
  /\ hash_query pre = hash_query []
  /\ hash_query [] =
     Ok (lit "e3b0c44298fc1c149afbf4c8996fb92427ae41e4649b934ca495991b7852b855")
  /\ hash_query (lit "SELECT * FROM t") <> hash_query (lit "SELECT  *  FROM  t").
Proof.
  intros Hpre Hpost. unfold hash_query. split; [|split; [|split]].
  - rewrite strip_app_space by assumption. reflexivity.
  - rewrite strip_space by assumption. reflexivity.
  - vm_compute. reflexivity.
  - vm_compute. discriminate.
Qed.

Lemma hash_query_ignores_outer_whitespace_witness :
  hash_query (lit "  " ++ lit "SELECT * FROM table" ++ [32; 32; 10])
  = hash_query (lit "SELECT * FROM table").
Proof.
  refine (proj1 (hash_query_ignores_outer_whitespace
                   (lit "SELECT * FROM table") (lit "  ") [32; 32; 10] _ _)).
  - reflexivity.
  - reflexivity.
Defined.

(** C7, as the code has it.  [hash_query] returns a digest exactly when the
    stripped query has a UTF-8 encoding, that is, holds no surrogate code
    point; the digest is then 64 characters long, all lowercase hexadecimal
    digits. *)
Theorem hash_query_digest_shape (q : str) :
  has_surrogate (strip q) = false ->
  exists h, hash_query q = Ok h
            /\ length h = 64%nat
            /\ forallb is_lower_hex h = true.
Proof.
  intros H. unfold hash_query, str_encode.
  destruct (utf8_encode_total _ H) as [b ->]. simpl.
  eexists. split; [reflexivity|]. split.
  - apply sha256_hexdigest_length.
  - apply hexlify_lower.
Qed.

Lemma hash_query_digest_shape_witness :
  exists h, hash_query (lit "SELECT * FROM table") = Ok h
            /\ length h = 64%nat
            /\ forallb is_lower_hex h = true.
Proof.
  apply (hash_query_digest_shape (lit "SELECT * FROM table")).
  vm_compute. reflexivity.
Defined.

(** C7, as stated, fails on a string with a lone surrogate: [str.encode]
    raises and no digest is returned. *)
Lemma hash_query_surrogate_raises :
  wf_str [0xD800]
  /\ hash_query [0xD800] = Err UnicodeEncodeError
  /\ ~ (exists h, hash_query [0xD800] = Ok h /\ length h = 64%nat).
Proof.
  split; [reflexivity|].
  split; [vm_compute; reflexivity|].
  intros (h & Hh & _). vm_compute in Hh. discriminate.
Qed.

(** C1, on the code.  [encode] returns the URL-safe, padded base64 of the
    JSON object with sorted keys, but written with the default separators
    of [json.dumps], a space after every colon and comma.  For the cursor
    of the docstring, offset 50 and database [test], the token of the
    docstring is the base64 of the compact text, and [encode] returns a
    different one. *)
Theorem encode_docstring_example :
  (forall (n : Z) (s : str),
     TableListCursor.encode (TableListCursor.mk (PInt n) (PStr s))
       = Ok (urlsafe_b64encode
               ([123] ++ encode_basestring_ascii (lit "database") ++ lit ": "
                  ++ encode_basestring_ascii s ++ lit ", "
                  ++ encode_basestring_ascii (lit "offset") ++ lit ": "
                  ++ int_repr n ++ [125]))
     /\ QueryResultCursor.encode (QueryResultCursor.mk (PInt n) (PStr s))
        = Ok (urlsafe_b64encode
                ([123] ++ encode_basestring_ascii (lit "offset") ++ lit ": "
                   ++ int_repr n ++ lit ", "
                   ++ encode_basestring_ascii (lit "query_hash") ++ lit ": "
                   ++ encode_basestring_ascii s ++ [125])))
  /\ (let c := TableListCursor.mk (PInt 50) (PStr (lit "test")) in
      TableListCursor.encode c
        = Ok (lit "eyJkYXRhYmFzZSI6ICJ0ZXN0IiwgIm9mZnNldCI6IDUwfQ==")
      /\ urlsafe_b64encode
           (json_dumps_compact (PDict (sorted_items (TableListCursor.dict c))))
         = lit "eyJkYXRhYmFzZSI6InRlc3QiLCJvZmZzZXQiOjUwfQ=="
      /\ TableListCursor.encode c
         <> Ok (lit "eyJkYXRhYmFzZSI6InRlc3QiLCJvZmZzZXQiOjUwfQ==")).
Proof.
  split.
  - intros n s. exact (encode_value n s).
  - cbv zeta. split; [vm_compute; reflexivity|].
    split; [vm_compute; reflexivity|].
    vm_compute. discriminate.
Qed.

(** C2, as the code has it.  A cursor of either variant with an integer
    offset of at most [int_max_str_digits] digits, negative ones included,
    and a string discriminator in which no high surrogate stands directly
    before a low surrogate is encoded to a token that the same variant's
    [decode] turns back into the same cursor. *)
Theorem cursor_roundtrip (n : Z) (s : str) :
  within_digit_limit n -> wf_str s -> has_surrogate_pair s = false ->
  (exists token,
     TableListCursor.encode (TableListCursor.mk (PInt n) (PStr s)) = Ok token
     /\ TableListCursor.decode token = Ok (TableListCursor.mk (PInt n) (PStr s)))
  /\ (exists token,
        QueryResultCursor.encode (QueryResultCursor.mk (PInt n) (PStr s)) = Ok token
        /\ QueryResultCursor.decode token
           = Ok (QueryResultCursor.mk (PInt n) (PStr s))).
Proof.
  intros _ Hwf Hp. split.
  - destruct (table_cursor_token n s Hwf) as [Henc Hload].
    eexists. split; [exact Henc|].
    unfold TableListCursor.decode. rewrite Hload.
    rewrite (join_pairs_id s Hp). reflexivity.
  - destruct (query_cursor_token n s Hwf) as [Henc Hload].
    eexists. split; [exact Henc|].
    unfold QueryResultCursor.decode. rewrite Hload.
    rewrite (join_pairs_id s Hp). reflexivity.
Qed.

Lemma cursor_roundtrip_witness :
  (exists token,
     TableListCursor.encode (TableListCursor.mk (PInt 50) (PStr (lit "test"))) = Ok token
     /\ TableListCursor.decode token
        = Ok (TableListCursor.mk (PInt 50) (PStr (lit "test"))))
  /\ (exists token,
        QueryResultCursor.encode (QueryResultCursor.mk (PInt 50) (PStr (lit "test")))
          = Ok token
        /\ QueryResultCursor.decode token
           = Ok (QueryResultCursor.mk (PInt 50) (PStr (lit "test")))).
Proof.
  apply (cursor_roundtrip 50 (lit "test")).
  - vm_compute. reflexivity.
  - reflexivity.
  - reflexivity.
Defined.

(** C2, as stated, fails for a database name made of a high surrogate
    followed by a low surrogate: [json.dumps] writes two escapes, and
    [json.loads] reads them back as the one code point U+1F600. *)
Lemma cursor_roundtrip_surrogate_pair :
  let c := TableListCursor.mk (PInt 0) (PStr [0xD83D; 0xDE00]) in
  wf_str [0xD83D; 0xDE00]
  /\ TableListCursor.encode c
     = Ok (lit "eyJkYXRhYmFzZSI6ICJcdWQ4M2RcdWRlMDAiLCAib2Zmc2V0IjogMH0=")
  /\ TableListCursor.decode
       (lit "eyJkYXRhYmFzZSI6ICJcdWQ4M2RcdWRlMDAiLCAib2Zmc2V0IjogMH0=")
     = Ok (TableListCursor.mk (PInt 0) (PStr [0x1F600]))
  /\ TableListCursor.decode
       (lit "eyJkYXRhYmFzZSI6ICJcdWQ4M2RcdWRlMDAiLCAib2Zmc2V0IjogMH0=")
     <> Ok c.
Proof.
  cbv zeta. split; [reflexivity|].
  split; [vm_compute; reflexivity|].
  split; [vm_compute; reflexivity|].
  vm_compute. discriminate.
Qed.

(** C3, as stated, fails: the token of the JSON text with [offset] alone
    decodes for both variants, the discriminator defaulted to the empty
    string; and the token of a text with a string [offset] and an integer
    [database] decodes with the fields as given. *)
Lemma decode_defaults_and_keeps_any_type :
  BaseCursorData.load (lit "eyJvZmZzZXQiOiA1fQ==")
    = Some (PDict [(lit "offset", PInt 5)])
  /\ TableListCursor.decode (lit "eyJvZmZzZXQiOiA1fQ==")
     = Ok (TableListCursor.mk (PInt 5) (PStr []))
  /\ QueryResultCursor.decode (lit "eyJvZmZzZXQiOiA1fQ==")
     = Ok (QueryResultCursor.mk (PInt 5) (PStr []))
  /\ BaseCursorData.load (lit "eyJvZmZzZXQiOiAiYWJjIiwgImRhdGFiYXNlIjogNX0=")
     = Some (PDict [(lit "offset", PStr (lit "abc")); (lit "database", PInt 5)])
  /\ TableListCursor.decode (lit "eyJvZmZzZXQiOiAiYWJjIiwgImRhdGFiYXNlIjogNX0=")
     = Ok (TableListCursor.mk (PStr (lit "abc")) (PInt 5)).
Proof.
  repeat split; vm_compute; reflexivity.
Qed.

(** C10, as the code has it.  The token of a [TableListCursor] whose
    offset is an integer of at most [int_max_str_digits] digits and whose
    database is a string is rejected by [QueryResultCursor.decode]: the text
    loads as an object, and the constructor refuses its [database] key.  In
    the same way the token of a [QueryResultCursor] with such an offset and
    a string [query_hash] is rejected by [TableListCursor.decode]. *)
Theorem tokens_are_variant_exclusive (n : Z) (s : str) :
  within_digit_limit n -> wf_str s ->
  (exists token data,
     TableListCursor.encode (TableListCursor.mk (PInt n) (PStr s)) = Ok token
     /\ BaseCursorData.load token = Some data
     /\ dict_get (match data with PDict d => d | _ => [] end) (lit "database") <> None
     /\ QueryResultCursor.init data = None
     /\ QueryResultCursor.decode token = Err (ValueError InvalidQueryResultCursor))
  /\ (exists token data,
        QueryResultCursor.encode (QueryResultCursor.mk (PInt n) (PStr s)) = Ok token
        /\ BaseCursorData.load token = Some data
        /\ dict_get (match data with PDict d => d | _ => [] end) (lit "query_hash")
           <> None
        /\ TableListCursor.init data = None
        /\ TableListCursor.decode token = Err (ValueError InvalidTableListCursor)).
Proof.
  intros _ Hwf. split.
  - destruct (table_cursor_token n s Hwf) as [Henc Hload].
    eexists. eexists. split; [exact Henc|]. split; [exact Hload|].
    split; [discriminate|]. split; [reflexivity|].
    unfold QueryResultCursor.decode. rewrite Hload. reflexivity.
  - destruct (query_cursor_token n s Hwf) as [Henc Hload].
    eexists. eexists. split; [exact Henc|]. split; [exact Hload|].
    split; [discriminate|]. split; [reflexivity|].
    unfold TableListCursor.decode. rewrite Hload. reflexivity.
Qed.

Lemma tokens_are_variant_exclusive_witness :
  exists token,
    TableListCursor.encode (TableListCursor.mk (PInt 50) (PStr (lit "test"))) = Ok token
    /\ QueryResultCursor.decode token = Err (ValueError InvalidQueryResultCursor).
Proof.
  destruct (tokens_are_variant_exclusive 50 (lit "test") eq_refl eq_refl)
    as [(token & data & E & _ & _ & _ & D) _].
  exists token. split; assumption.
Defined.

(** C10, as stated, fails for a cursor whose discriminator is [None]:
    [encode] leaves the field out, the token is that of an object with
    [offset] alone, and the other variant's [decode] returns a cursor for
    it, in both directions. *)
Lemma none_discriminator_crosses_variants :
  TableListCursor.encode (TableListCursor.mk (PInt 5) PNone)
    = Ok (lit "eyJvZmZzZXQiOiA1fQ==")
  /\ QueryResultCursor.decode (lit "eyJvZmZzZXQiOiA1fQ==")
     = Ok (QueryResultCursor.mk (PInt 5) (PStr []))
  /\ QueryResultCursor.decode (lit "eyJvZmZzZXQiOiA1fQ==")
     <> Err (ValueError InvalidQueryResultCursor)
  /\ QueryResultCursor.encode (QueryResultCursor.mk (PInt 5) PNone)
     = Ok (lit "eyJvZmZzZXQiOiA1fQ==")
  /\ TableListCursor.decode (lit "eyJvZmZzZXQiOiA1fQ==")
     = Ok (TableListCursor.mk (PInt 5) (PStr []))
  /\ TableListCursor.decode (lit "eyJvZmZzZXQiOiA1fQ==")
     <> Err (ValueError InvalidTableListCursor).
Proof.
  split; [vm_compute; reflexivity|].
  split; [vm_compute; reflexivity|].
  split; [vm_compute; discriminate|].
  split; [vm_compute; reflexivity|].
  split; [vm_compute; reflexivity|].
  vm_compute. discriminate.
Qed.






(* ################################################################# *)
(** * Further properties of the cursor code *)

(** ** Validation *)

(** X1. [validate_query] does not see whitespace around the query: the
    padded query is accepted, rejected or fails exactly as the query is. *)
Theorem validate_query_ignores_outer_whitespace
        (c : QueryResultCursor.t) (q pre post : str) :
  forallb isspace pre = true -> forallb isspace post = true ->
  QueryResultCursor.validate_query c (pre ++ q ++ post)
  = QueryResultCursor.validate_query c q.
Proof.
  intros Hpre Hpost. unfold QueryResultCursor.validate_query, hash_query.
  rewrite strip_app_space by assumption. reflexivity.
Qed.

Lemma validate_query_ignores_outer_whitespace_witness :
  QueryResultCursor.validate_query
    (QueryResultCursor.mk (PInt 100) (PStr (lit "abc123")))
    (lit "  " ++ lit "SELECT * FROM table" ++ [32; 10])
  = QueryResultCursor.validate_query
      (QueryResultCursor.mk (PInt 100) (PStr (lit "abc123")))
      (lit "SELECT * FROM table").
Proof.
  apply (validate_query_ignores_outer_whitespace
           (QueryResultCursor.mk (PInt 100) (PStr (lit "abc123")))
           (lit "SELECT * FROM table") (lit "  ") [32; 10]).
  - reflexivity.
  - reflexivity.
Defined.

Lemma hash_query_ok_shape (q h : str) :
  hash_query q = Ok h -> length h = 64%nat /\ forallb is_lower_hex h = true.
Proof.
  unfold hash_query. destruct (str_encode (strip q)) as [b|e]; [|discriminate].
  cbn [bind]. intros [= <-]. split.
  - apply sha256_hexdigest_length.
  - apply hexlify_lower.
Qed.

(** X2. A cursor passes [validate_query] only if its [query_hash] is a
    string, the 64 lowercase hexadecimal digits of the query's hash.  So a
    cursor whose [query_hash] is the default empty string, or is not a
    string at all, as [decode] can return them, is accepted for no query. *)
Theorem validate_query_accepts_only_digests :
  (forall (c : QueryResultCursor.t) (q : str),
     QueryResultCursor.validate_query c q = Ok tt ->
     exists h, QueryResultCursor.query_hash c = PStr h
               /\ hash_query q = Ok h
               /\ length h = 64%nat
               /\ forallb is_lower_hex h = true)
  /\ (forall (off : pyval) (q : str),
        QueryResultCursor.validate_query (QueryResultCursor.mk off (PStr [])) q
        <> Ok tt)
  /\ (forall (off v : pyval) (q : str),
        (forall h, v <> PStr h) ->
        QueryResultCursor.validate_query (QueryResultCursor.mk off v) q <> Ok tt).
Proof.
  assert (main : forall (c : QueryResultCursor.t) (q : str),
     QueryResultCursor.validate_query c q = Ok tt ->
     exists h, QueryResultCursor.query_hash c = PStr h
               /\ hash_query q = Ok h
               /\ length h = 64%nat
               /\ forallb is_lower_hex h = true).
  { intros c q. unfold QueryResultCursor.validate_query.
    destruct (hash_query q) as [h|e] eqn:Hq; [|discriminate]. cbn [bind].
    destruct (py_eq_str (QueryResultCursor.query_hash c) h) eqn:E; [|discriminate].
    intros _. apply py_eq_str_spec in E. exists h.
    destruct (hash_query_ok_shape q h Hq). auto. }
  split; [exact main|]. split.
  - intros off q H. destruct (main _ _ H) as (h & E & _ & L & _).
    cbn in E. injection E as <-. discriminate.
  - intros off v q Hv H. destruct (main _ _ H) as (h & E & _).
    cbn in E. exact (Hv h E).
Qed.

Lemma validate_query_accepts_only_digests_witness :
  exists h,
    QueryResultCursor.query_hash
      (QueryResultCursor.mk (PInt 0)
         (PStr (lit "e3b0c44298fc1c149afbf4c8996fb92427ae41e4649b934ca495991b7852b855")))
    = PStr h
    /\ hash_query [] = Ok h
    /\ length h = 64%nat
    /\ forallb is_lower_hex h = true.
Proof.
  apply (proj1 validate_query_accepts_only_digests
           (QueryResultCursor.mk (PInt 0)
              (PStr (lit "e3b0c44298fc1c149afbf4c8996fb92427ae41e4649b934ca495991b7852b855")))
           []).
  vm_compute. reflexivity.
Defined.

(** ** Minting a cursor, sending it, validating it *)

Lemma lower_hex_clean (h : str) :
  forallb is_lower_hex h = true -> wf_str h /\ has_surrogate_pair h = false.
Proof.
  unfold wf_str. induction h as [|c h IH]; [split; reflexivity|].
  intros H. cbn [forallb] in H. apply andb_true_iff in H as [Hc Hh].
  destruct (IH Hh) as [IH1 IH2].
  assert (Hr : 48 <= c <= 102).
  { unfold is_lower_hex in Hc. apply orb_true_iff in Hc as [Hc | Hc];
      apply in_range_spec in Hc; lia. }
  split.
  - cbn [forallb]. rewrite IH1, andb_true_r. apply in_range_spec. lia.
  - destruct h as [|c2 h]; [reflexivity|].
    change (has_surrogate_pair (c :: c2 :: h))
      with ((is_high_surrogate c && is_low_surrogate c2)
            || has_surrogate_pair (c2 :: h)).
    rewrite IH2, orb_false_r.
    replace (is_high_surrogate c) with false; [reflexivity|].
    symmetry. apply in_range_false. lia.
Qed.

(** X3. The token minted for a database name passes [validate_params]
    for that name and for no other: for an integer offset within the digit
    limit and a well-formed name without a surrogate pair, the cursor decoded from the encoded cursor is accepted
    exactly for the name it was minted with, and raises the mismatch error
    for every other name. *)
Theorem table_token_binds_database (n : Z) (d d' : str) :
  within_digit_limit n -> wf_str d -> has_surrogate_pair d = false ->
  exists token c,
    TableListCursor.encode (TableListCursor.mk (PInt n) (PStr d)) = Ok token
    /\ TableListCursor.decode token = Ok c
    /\ TableListCursor.offset c = PInt n
    /\ (TableListCursor.validate_params c d' = Ok tt <-> d' = d)
    /\ (TableListCursor.validate_params c d'
        = Err (ValueError CursorDatabaseMismatch) <-> d' <> d).
Proof.
  intros _ Hwf Hp. destruct (table_cursor_token n d Hwf) as [Henc Hload].
  eexists. exists (TableListCursor.mk (PInt n) (PStr d)).
  split; [exact Henc|]. split.
  { unfold TableListCursor.decode. rewrite Hload, (join_pairs_id d Hp). reflexivity. }
  split; [reflexivity|].
  unfold TableListCursor.validate_params.
  cbn [TableListCursor.database py_eq_str].
  destruct (str_eqb d d') eqn:E; cbn [negb].
  - apply str_eqb_eq in E. subst d'. split; split; congruence.
  - apply str_eqb_neq in E. split; split; congruence.
Qed.

Lemma table_token_binds_database_witness :
  exists token c,
    TableListCursor.encode (TableListCursor.mk (PInt 50) (PStr (lit "test"))) = Ok token
    /\ TableListCursor.decode token = Ok c
    /\ TableListCursor.offset c = PInt 50
    /\ (TableListCursor.validate_params c (lit "prod") = Ok tt
        <-> lit "prod" = lit "test")
    /\ (TableListCursor.validate_params c (lit "prod")
        = Err (ValueError CursorDatabaseMismatch) <-> lit "prod" <> lit "test").
Proof.
  apply (table_token_binds_database 50 (lit "test") (lit "prod")).
  - vm_compute. reflexivity.
  - reflexivity.
  - reflexivity.
Defined.

(** X4. The whole path of a query cursor: for a query whose stripped text
    has no surrogate, the cursor minted with [hash_query] of the query, at
    any integer offset within the digit limit, encodes to a token that decodes to the same cursor;
    that cursor is accepted for the query and raises the query-changed
    error for every query with another hash. *)
Theorem query_token_binds_query (n : Z) (q : str) :
  within_digit_limit n -> has_surrogate (strip q) = false ->
  exists h token,
    hash_query q = Ok h
    /\ QueryResultCursor.encode (QueryResultCursor.mk (PInt n) (PStr h)) = Ok token
    /\ QueryResultCursor.decode token = Ok (QueryResultCursor.mk (PInt n) (PStr h))
    /\ QueryResultCursor.validate_query (QueryResultCursor.mk (PInt n) (PStr h)) q
       = Ok tt
    /\ (forall q' h',
          hash_query q' = Ok h' -> h' <> h ->
          QueryResultCursor.validate_query
            (QueryResultCursor.mk (PInt n) (PStr h)) q'
          = Err (ValueError QueryHasChanged)).
Proof.
  intros _ Hs. destruct (utf8_encode_total _ Hs) as [b Hb].
  assert (Hq : hash_query q = Ok (sha256_hexdigest b)).
  { unfold hash_query, str_encode. rewrite Hb. reflexivity. }
  destruct (hash_query_ok_shape _ _ Hq) as [_ Hhex].
  destruct (lower_hex_clean _ Hhex) as [Hwf Hp].
  destruct (query_cursor_token n (sha256_hexdigest b) Hwf) as [Henc Hload].
  exists (sha256_hexdigest b). eexists.
  split; [exact Hq|]. split; [exact Henc|]. split.
  { unfold QueryResultCursor.decode. rewrite Hload, (join_pairs_id _ Hp).
    reflexivity. }
  split.
  - unfold QueryResultCursor.validate_query. rewrite Hq. cbn [bind].
    cbn [QueryResultCursor.query_hash py_eq_str]. rewrite str_eqb_refl.
    reflexivity.
  - intros q' h' Hq' Hne. unfold QueryResultCursor.validate_query.
    rewrite Hq'. cbn [bind]. cbn [QueryResultCursor.query_hash py_eq_str].
    replace (str_eqb (sha256_hexdigest b) h') with false; [reflexivity|].
    symmetry. apply str_eqb_neq. congruence.
Qed.

Lemma query_token_binds_query_witness :
  exists h token,
    hash_query (lit "SELECT * FROM users") = Ok h
    /\ QueryResultCursor.encode (QueryResultCursor.mk (PInt 100) (PStr h)) = Ok token
    /\ QueryResultCursor.decode token = Ok (QueryResultCursor.mk (PInt 100) (PStr h))
    /\ QueryResultCursor.validate_query (QueryResultCursor.mk (PInt 100) (PStr h))
         (lit "SELECT * FROM users")
       = Ok tt
    /\ (forall q' h',
          hash_query q' = Ok h' -> h' <> h ->
          QueryResultCursor.validate_query
            (QueryResultCursor.mk (PInt 100) (PStr h)) q'
          = Err (ValueError QueryHasChanged)).
Proof.
  apply (query_token_binds_query 100 (lit "SELECT * FROM users")).
  - vm_compute. reflexivity.
  - vm_compute. reflexivity.
Defined.

(** X5. Distinct cursors get distinct tokens: two cursors of one variant
    with integer offsets and well-formed discriminators without surrogate
    pairs that encode to the same token are equal.  The condition on
    surrogates is needed: a database name made of the two surrogates of
    U+1F600 and the name made of U+1F600 itself share a token. *)
Theorem encode_injective (n1 n2 : Z) (s1 s2 : str) :
  wf_str s1 -> has_surrogate_pair s1 = false ->
  wf_str s2 -> has_surrogate_pair s2 = false ->
  (TableListCursor.encode (TableListCursor.mk (PInt n1) (PStr s1))
   = TableListCursor.encode (TableListCursor.mk (PInt n2) (PStr s2))
   -> n1 = n2 /\ s1 = s2)
  /\ (QueryResultCursor.encode (QueryResultCursor.mk (PInt n1) (PStr s1))
      = QueryResultCursor.encode (QueryResultCursor.mk (PInt n2) (PStr s2))
      -> n1 = n2 /\ s1 = s2)
  /\ TableListCursor.encode (TableListCursor.mk (PInt 0) (PStr [0xD83D; 0xDE00]))
     = TableListCursor.encode (TableListCursor.mk (PInt 0) (PStr [0x1F600])).
Proof.
  intros W1 P1 W2 P2. split; [|split].
  - destruct (table_cursor_token n1 s1 W1) as [E1 L1].
    destruct (table_cursor_token n2 s2 W2) as [E2 L2].
    rewrite E1, E2. intros H.
    assert (H' : urlsafe_b64encode (table_json n1 s1)
                 = urlsafe_b64encode (table_json n2 s2)) by congruence.
    rewrite H' in L1. rewrite L1 in L2.
    injection L2 as Hs Hn. rewrite !join_pairs_id in Hs by assumption. auto.
  - destruct (query_cursor_token n1 s1 W1) as [E1 L1].
    destruct (query_cursor_token n2 s2 W2) as [E2 L2].
    rewrite E1, E2. intros H.
    assert (H' : urlsafe_b64encode (query_json n1 s1)
                 = urlsafe_b64encode (query_json n2 s2)) by congruence.
    rewrite H' in L1. rewrite L1 in L2.
    injection L2 as Hn Hs. rewrite !join_pairs_id in Hs by assumption. auto.
  - vm_compute. reflexivity.
Qed.

Lemma encode_injective_witness : 50 = 50 /\ lit "test" = lit "test".
Proof.
  refine (proj1 (encode_injective 50 50 (lit "test") (lit "test") _ _ _ _) _);
    reflexivity.
Defined.

(** ** The shape of a token *)

Lemma b64_char_urlsafe (i : Z) :
  0 <= i < 64 -> is_urlsafe_char (urlsafe_encode_translation (b64_char i)) = true.
Proof.
  intros H.
  apply (forall_below
           (fun i => is_urlsafe_char (urlsafe_encode_translation (b64_char i))) 64);
    [vm_compute; reflexivity | exact H].
Qed.

Lemma urlsafe_b64encode_shape (n : nat) :
  forall bs, (length bs < n)%nat -> Forall is_byte bs ->
  forallb is_urlsafe_char (urlsafe_b64encode bs) = true
  /\ length (urlsafe_b64encode bs) = (4 * Nat.div (length bs + 2) 3)%nat.
Proof.
  unfold urlsafe_b64encode, is_byte.
  induction n as [|n IH]; intros bs Hlen Hb; [lia|].
  destruct bs as [|a [|b [|c rest]]].
  - split; reflexivity.
  - inversion_clear Hb as [|? ? Ha _]. cbn [b2a_base64 map forallb].
    rewrite !b64_char_urlsafe by (Z.div_mod_to_equations; lia).
    split; reflexivity.
  - inversion_clear Hb as [|? ? Ha Hb']. inversion_clear Hb' as [|? ? Hb _].
    cbn [b2a_base64 map forallb].
    rewrite !b64_char_urlsafe by (Z.div_mod_to_equations; lia).
    split; reflexivity.
  - inversion_clear Hb as [|? ? Ha Hb']. inversion_clear Hb' as [|? ? Hb Hb''].
    inversion_clear Hb'' as [|? ? Hc Hrest].
    cbn [length] in Hlen.
    destruct (IH rest ltac:(lia) Hrest) as [IH1 IH2].
    cbn [b2a_base64 map forallb length].
    rewrite !b64_char_urlsafe by (Z.div_mod_to_equations; lia).
    rewrite IH1, IH2. split; [reflexivity|].
    replace (S (S (S (length rest))) + 2)%nat with (length rest + 2 + 1 * 3)%nat by lia.
    rewrite Nat.div_add by lia. lia.
Qed.

(** X6. A token is safe in a URL and padded to whole quads: for every
    integer offset within the digit limit and every string discriminator,
    [encode] returns a string of
    letters, digits, [-], [_] and [=] only, never [+] or [/], whose length
    is four times the number of three-byte groups of the JSON text. *)
Theorem encode_token_shape (n : Z) (s : str) :
  within_digit_limit n ->
  (exists token,
     TableListCursor.encode (TableListCursor.mk (PInt n) (PStr s)) = Ok token
     /\ forallb is_urlsafe_char token = true
     /\ existsb (fun c => (c =? 43) || (c =? 47)) token = false
     /\ length token = (4 * Nat.div (length (table_json n s) + 2) 3)%nat)
  /\ (exists token,
        QueryResultCursor.encode (QueryResultCursor.mk (PInt n) (PStr s)) = Ok token
        /\ forallb is_urlsafe_char token = true
        /\ existsb (fun c => (c =? 43) || (c =? 47)) token = false
        /\ length token = (4 * Nat.div (length (query_json n s) + 2) 3)%nat).
Proof.
  intros _.
  assert (no_plus : forall t, forallb is_urlsafe_char t = true ->
                    existsb (fun c => (c =? 43) || (c =? 47)) t = false).
  { induction t as [|c t IH]; [reflexivity|]. cbn [forallb existsb].
    intros H. apply andb_true_iff in H as [Hc Ht]. rewrite (IH Ht), orb_false_r.
    destruct (Z.eqb_spec c 43) as [-> | N1]; [discriminate Hc|].
    destruct (Z.eqb_spec c 47) as [-> | N2]; [discriminate Hc | reflexivity]. }
  destruct (encode_value n s) as [Et Eq]. split.
  - destruct (urlsafe_b64encode_shape _ (table_json n s) (Nat.lt_succ_diag_r _)
                (ascii_bytes _ (table_json_ascii n s))) as [H1 H2].
    eexists. split; [exact Et|]. auto.
  - destruct (urlsafe_b64encode_shape _ (query_json n s) (Nat.lt_succ_diag_r _)
                (ascii_bytes _ (query_json_ascii n s))) as [H1 H2].
    eexists. split; [exact Eq|]. auto.
Qed.

Lemma encode_token_shape_witness :
  exists token,
    TableListCursor.encode (TableListCursor.mk (PInt 50) (PStr (lit "test"))) = Ok token
    /\ forallb is_urlsafe_char token = true
    /\ existsb (fun c => (c =? 43) || (c =? 47)) token = false
    /\ length token = (4 * Nat.div (length (table_json 50 (lit "test")) + 2) 3)%nat.
Proof.
  refine (proj1 (encode_token_shape 50 (lit "test") _)).
  vm_compute. reflexivity.
Defined.

(** ** Fields that are [None] *)

Lemma json_loads_object1 (k vt : str) (v : pyval) :
  wf_str k -> vt <> [] -> skip_ws vt = vt ->
  (forall f r, scan_once (S f) (vt ++ 125 :: r) = Some (v, 125 :: r)) ->
  json_loads (object1 k vt) = Some (PDict [(join_pairs k, v)]).
Proof.
  intros Hk Hn Hw Hv. unfold json_loads, object1, encode_basestring_ascii.
  rewrite <- !app_assoc.
  set (tail := flat_map escape_char k ++ [34] ++ lit ": " ++ vt ++ [125]).
  change ([123] ++ [34] ++ tail) with (123 :: 34 :: tail).
  change (strip_prefix [65279] (123 :: 34 :: tail)) with (@None str).
  rewrite (skip_ws_head 123) by reflexivity. cbn [length].
  replace (2 * S (S (length tail)) + 2)%nat
    with (S (S (S (2 * length tail + 3))))%nat by lia.
  change (scan_once (S (S (S (2 * length tail + 3)))) (123 :: 34 :: tail))
    with (object_items (S (S (2 * length tail + 3))) [] tail).
  unfold tail.
  replace (flat_map escape_char k ++ [34] ++ lit ": " ++ vt ++ [125])
    with (flat_map escape_char k ++ [34] ++ lit ": " ++ vt ++ [125] ++ [])
    by reflexivity.
  rewrite (object_items_last _ _ k vt [] v) by auto.
  reflexivity.
Qed.

Lemma object1_ascii (k v : str) :
  forallb is_ascii v = true -> forallb is_ascii (object1 k v) = true.
Proof.
  intros H. unfold object1.
  rewrite !forallb_app, !encode_basestring_ascii_ascii, H. reflexivity.
Qed.

Lemma load_object1 (k vt : str) (v : pyval) :
  forallb is_ascii vt = true ->
  json_loads (object1 k vt) = Some v ->
  BaseCursorData.load (urlsafe_b64encode (object1 k vt)) = Some v.
Proof.
  intros Ha Hl.
  destruct (token_roundtrip (object1 k vt) (object1_ascii k vt Ha))
    as (token & _ & -> & Hdec).
  unfold BaseCursorData.load.
  destruct (utf8_encode (urlsafe_b64encode (object1 k vt))) as [b|];
    [|discriminate].
  cbn [obind] in Hdec |- *.
  destruct (urlsafe_b64decode b) as [raw|]; [|discriminate].
  cbn [obind] in Hdec |- *. rewrite Hdec. exact Hl.
Qed.

Lemma encode_object1 (k vt : str) :
  forallb is_ascii vt = true ->
  (do b <- str_encode (object1 k vt); bytes_decode (urlsafe_b64encode b))
  = Ok (urlsafe_b64encode (object1 k vt)).
Proof.
  intros Ha.
  destruct (token_roundtrip (object1 k vt) (object1_ascii k vt Ha))
    as (token & Henc & -> & _).
  exact Henc.
Qed.

(** X7. [encode] leaves out a discriminator that is [None], and the token
    no longer tells the variants apart: for every integer offset within
    the digit limit the two
    variants encode such a cursor to the same token, the text of an object
    with [offset] alone, and both [decode] methods accept it, returning the
    empty string where [None] was. *)
Theorem none_discriminator_is_dropped (n : Z) :
  within_digit_limit n ->
  exists token,
    TableListCursor.encode (TableListCursor.mk (PInt n) PNone) = Ok token
    /\ QueryResultCursor.encode (QueryResultCursor.mk (PInt n) PNone) = Ok token
    /\ BaseCursorData.load token = Some (PDict [(lit "offset", PInt n)])
    /\ TableListCursor.decode token = Ok (TableListCursor.mk (PInt n) (PStr []))
    /\ QueryResultCursor.decode token
       = Ok (QueryResultCursor.mk (PInt n) (PStr [])).
Proof.
  intros _. destruct (int_repr_value n) as (B1 & B2 & B3).
  assert (Hl : json_loads (object1 (lit "offset") (int_repr n))
               = Some (PDict [(lit "offset", PInt n)])).
  { apply (json_loads_object1 (lit "offset") (int_repr n) (PInt n));
      auto using wf_lit_offset. }
  pose proof (load_object1 _ _ _ (int_repr_ascii n) Hl) as Hload.
  pose proof (encode_object1 (lit "offset") (int_repr n) (int_repr_ascii n)) as Henc.
  exists (urlsafe_b64encode (object1 (lit "offset") (int_repr n))).
  split; [exact Henc|]. split; [exact Henc|]. split; [exact Hload|].
  split.
  - unfold TableListCursor.decode. rewrite Hload. reflexivity.
  - unfold QueryResultCursor.decode. rewrite Hload. reflexivity.
Qed.

Lemma none_discriminator_is_dropped_witness :
  exists token,
    TableListCursor.encode (TableListCursor.mk (PInt 7) PNone) = Ok token
    /\ QueryResultCursor.encode (QueryResultCursor.mk (PInt 7) PNone) = Ok token
    /\ BaseCursorData.load token = Some (PDict [(lit "offset", PInt 7)])
    /\ TableListCursor.decode token = Ok (TableListCursor.mk (PInt 7) (PStr []))
    /\ QueryResultCursor.decode token
       = Ok (QueryResultCursor.mk (PInt 7) (PStr [])).
Proof.
  apply (none_discriminator_is_dropped 7). vm_compute. reflexivity.
Defined.

(** X8. A cursor whose offset is [None] still encodes, but to a token that
    its own variant's [decode] rejects: the object has no [offset], and the
    constructor requires one. *)
Theorem none_offset_is_rejected (s : str) :
  wf_str s ->
  (exists token,
     TableListCursor.encode (TableListCursor.mk PNone (PStr s)) = Ok token
     /\ BaseCursorData.load token = Some (PDict [(lit "database", PStr (join_pairs s))])
     /\ TableListCursor.decode token = Err (ValueError InvalidTableListCursor))
  /\ (exists token,
        QueryResultCursor.encode (QueryResultCursor.mk PNone (PStr s)) = Ok token
        /\ BaseCursorData.load token
           = Some (PDict [(lit "query_hash", PStr (join_pairs s))])
        /\ QueryResultCursor.decode token
           = Err (ValueError InvalidQueryResultCursor)).
Proof.
  intros Hs. destruct (encode_basestring_ascii_value s Hs) as (A1 & A2 & A3).
  pose proof (encode_basestring_ascii_ascii s) as Ha.
  split.
  - assert (Hl : json_loads (object1 (lit "database") (encode_basestring_ascii s))
                 = Some (PDict [(lit "database", PStr (join_pairs s))])).
    { apply (json_loads_object1 (lit "database") _ (PStr (join_pairs s)));
        auto using wf_lit_database. }
    pose proof (load_object1 _ _ _ Ha Hl) as Hload.
    exists (urlsafe_b64encode (object1 (lit "database") (encode_basestring_ascii s))).
    split; [exact (encode_object1 (lit "database") _ Ha)|].
    split; [exact Hload|].
    unfold TableListCursor.decode. rewrite Hload. reflexivity.
  - assert (Hl : json_loads (object1 (lit "query_hash") (encode_basestring_ascii s))
                 = Some (PDict [(lit "query_hash", PStr (join_pairs s))])).
    { apply (json_loads_object1 (lit "query_hash") _ (PStr (join_pairs s)));
        auto using wf_lit_query_hash. }
    pose proof (load_object1 _ _ _ Ha Hl) as Hload.
    exists (urlsafe_b64encode (object1 (lit "query_hash") (encode_basestring_ascii s))).
    split; [exact (encode_object1 (lit "query_hash") _ Ha)|].
    split; [exact Hload|].
    unfold QueryResultCursor.decode. rewrite Hload. reflexivity.
Qed.

Lemma none_offset_is_rejected_witness :
  exists token,
    TableListCursor.encode (TableListCursor.mk PNone (PStr (lit "test"))) = Ok token
    /\ TableListCursor.decode token = Err (ValueError InvalidTableListCursor).
Proof.
  destruct (none_offset_is_rejected (lit "test") eq_refl)
    as [(token & E & _ & D) _].
  exists token. split; assumption.
Defined.

(** ** Tokens written by other encoders *)

Lemma skip_ws_app (w x : str) :
  forallb json_ws w = true -> skip_ws (w ++ x) = skip_ws x.
Proof.
  induction w as [|c w IH]; cbn [app forallb skip_ws]; [reflexivity|].
  intros H. apply andb_true_iff in H as [Hc Hw]. rewrite Hc. auto.
Qed.

Lemma skip_ws_to (w x : str) (c : Z) :
  forallb json_ws w = true -> json_ws c = false ->
  skip_ws (w ++ c :: x) = c :: x.
Proof.
  intros Hw Hc. rewrite skip_ws_app by assumption. apply skip_ws_head, Hc.
Qed.

Lemma json_ws_ascii (w : str) : forallb json_ws w = true -> forallb is_ascii w = true.
Proof.
  induction w as [|c w IH]; cbn [forallb]; [reflexivity|].
  intros H. apply andb_true_iff in H as [Hc Hw]. rewrite (IH Hw), andb_true_r.
  unfold json_ws in Hc. apply in_range_spec.
  repeat (apply orb_true_iff in Hc as [Hc | Hc]); apply Z.eqb_eq in Hc; lia.
Qed.

Lemma number_stop_ws (w r : str) (c : Z) :
  forallb json_ws w = true -> c = 44 \/ c = 125 ->
  number_stop (w ++ c :: r) = true.
Proof.
  intros Hw Hc. destruct w as [|x w].
  - cbn [app number_stop]. destruct Hc as [-> | ->]; reflexivity.
  - cbn [app number_stop]. cbn [forallb] in Hw.
    apply andb_true_iff in Hw as [Hx _]. unfold json_ws in Hx.
    repeat (apply orb_true_iff in Hx as [Hx | Hx]);
      apply Z.eqb_eq in Hx; subst x; reflexivity.
Qed.

Lemma string_scans_as (s : str) :
  wf_str s -> scans_as (encode_basestring_ascii s) (PStr (join_pairs s)).
Proof.
  intros H. split; [discriminate|]. split; [reflexivity|].
  intros f w c r _ _. apply scan_once_string. assumption.
Qed.

Lemma int_scans_as (n : Z) : scans_as (int_repr n) (PInt n).
Proof.
  destruct (int_repr_value n) as (B1 & B2 & B3).
  split; [exact B1|]. split; [exact B2|].
  intros f w c r Hw Hc. apply B3, number_stop_ws; assumption.
Qed.

(** A member of an object with any whitespace around the colon and the
    comma, another member after it. *)
Lemma object_items_more_ws (f : nat) (acc : list (str * pyval))
      (k vt r w1 w2 w3 w4 : str) (v : pyval) :
  wf_str k -> scans_as vt v ->
  forallb json_ws w1 = true -> forallb json_ws w2 = true ->
  forallb json_ws w3 = true -> forallb json_ws w4 = true ->
  object_items (S (S f)) acc
    (flat_map escape_char k ++ [34] ++ key_separator w1 w2 ++ vt
       ++ item_separator w3 w4 ++ [34] ++ r)
  = object_items (S f) ((join_pairs k, v) :: acc) r.
Proof.
  intros Hk (Hne & Hws & Hv) H1 H2 H3 H4.
  unfold key_separator, item_separator. rewrite <- !app_assoc.
  cbn [object_items].
  change ([34] ++ w1 ++ [58] ++ w2 ++ vt ++ w3 ++ [44] ++ w4 ++ [34] ++ r)
    with (34 :: (w1 ++ 58 :: (w2 ++ vt ++ w3 ++ 44 :: (w4 ++ 34 :: r)))).
  rewrite scanstring_escaped by assumption. cbn [obind].
  rewrite (skip_ws_to w1) by (assumption || reflexivity).
  change (58 =? 58) with true. cbv iota.
  rewrite (skip_ws_app w2) by assumption.
  rewrite (skip_ws_fixed vt) by assumption.
  rewrite (Hv f w3 44) by auto. cbn [obind].
  rewrite (skip_ws_to w3) by (assumption || reflexivity).
  change (44 =? 125) with false. change (44 =? 44) with true. cbv iota.
  rewrite (skip_ws_to w4) by (assumption || reflexivity).
  change (34 =? 34) with true. cbv iota. reflexivity.
Qed.

Lemma object_items_last_ws (f : nat) (acc : list (str * pyval))
      (k vt r w1 w2 : str) (v : pyval) :
  wf_str k -> scans_as vt v ->
  forallb json_ws w1 = true -> forallb json_ws w2 = true ->
  object_items (S (S f)) acc
    (flat_map escape_char k ++ [34] ++ key_separator w1 w2 ++ vt ++ [125] ++ r)
  = Some (PDict (dict_of_pairs (rev ((join_pairs k, v) :: acc))), r).
Proof.
  intros Hk (Hne & Hws & Hv) H1 H2.
  unfold key_separator. rewrite <- !app_assoc.
  cbn [object_items].
  change ([34] ++ w1 ++ [58] ++ w2 ++ vt ++ [125] ++ r)
    with (34 :: (w1 ++ 58 :: (w2 ++ vt ++ [] ++ 125 :: r))).
  rewrite scanstring_escaped by assumption. cbn [obind].
  rewrite (skip_ws_to w1) by (assumption || reflexivity).
  change (58 =? 58) with true. cbv iota.
  rewrite (skip_ws_app w2) by assumption.
  rewrite (skip_ws_fixed vt) by assumption.
  rewrite (Hv f [] 125) by auto. cbn [obind app].
  rewrite (skip_ws_head 125) by reflexivity.
  change (125 =? 125) with true. cbv iota. reflexivity.
Qed.

Lemma json_loads_object2_with (k1 vt1 k2 vt2 w1 w2 w3 w4 : str) (v1 v2 : pyval) :
  wf_str k1 -> wf_str k2 -> scans_as vt1 v1 -> scans_as vt2 v2 ->
  forallb json_ws w1 = true -> forallb json_ws w2 = true ->
  forallb json_ws w3 = true -> forallb json_ws w4 = true ->
  json_loads (object2_with (item_separator w3 w4) (key_separator w1 w2)
                k1 vt1 k2 vt2)
  = Some (PDict (dict_of_pairs [(join_pairs k1, v1); (join_pairs k2, v2)])).
Proof.
  intros Hk1 Hk2 Hs1 Hs2 H1 H2 H3 H4.
  unfold json_loads, object2_with, encode_basestring_ascii.
  rewrite <- !app_assoc.
  set (tail2 := flat_map escape_char k2 ++ [34] ++ key_separator w1 w2 ++ vt2 ++ [125]).
  set (tail1 := flat_map escape_char k1 ++ [34] ++ key_separator w1 w2 ++ vt1
                  ++ item_separator w3 w4 ++ [34] ++ tail2).
  change ([123] ++ [34] ++ tail1) with (123 :: 34 :: tail1).
  change (strip_prefix [65279] (123 :: 34 :: tail1)) with (@None str).
  rewrite (skip_ws_head 123) by reflexivity.
  assert (Hlen : exists f, length tail1 = S (S f)).
  { assert (2 <= length tail1)%nat.
    { unfold tail1, tail2, key_separator. rewrite !length_app. cbn [length]. lia. }
    destruct (length tail1) as [|[|f]]; [lia | lia | eauto]. }
  destruct Hlen as [f Hf]. cbn [length]. rewrite Hf.
  replace (2 * S (S (S (S f))) + 2)%nat with (S (S (S (S (2 * f + 6)))))%nat by lia.
  change (scan_once (S (S (S (S (2 * f + 6))))) (123 :: 34 :: tail1))
    with (object_items (S (S (S (2 * f + 6)))) [] tail1).
  unfold tail1.
  rewrite (object_items_more_ws _ _ k1 vt1 tail2 w1 w2 w3 w4 v1) by assumption.
  unfold tail2.
  replace (flat_map escape_char k2 ++ [34] ++ key_separator w1 w2 ++ vt2 ++ [125])
    with (flat_map escape_char k2 ++ [34] ++ key_separator w1 w2 ++ vt2 ++ [125] ++ [])
    by reflexivity.
  rewrite (object_items_last_ws _ _ k2 vt2 [] w1 w2 v2) by assumption.
  reflexivity.
Qed.

Lemma object2_with_ascii (k1 v1 k2 v2 w1 w2 w3 w4 : str) :
  forallb is_ascii v1 = true -> forallb is_ascii v2 = true ->
  forallb json_ws w1 = true -> forallb json_ws w2 = true ->
  forallb json_ws w3 = true -> forallb json_ws w4 = true ->
  forallb is_ascii (object2_with (item_separator w3 w4) (key_separator w1 w2)
                      k1 v1 k2 v2) = true.
Proof.
  intros A1 A2 H1 H2 H3 H4. unfold object2_with, item_separator, key_separator.
  rewrite !forallb_app, !encode_basestring_ascii_ascii, A1, A2.
  rewrite (json_ws_ascii w1), (json_ws_ascii w2), (json_ws_ascii w3),
    (json_ws_ascii w4) by assumption.
  reflexivity.
Qed.

Lemma load_ascii_text (text : str) (v : pyval) :
  forallb is_ascii text = true -> json_loads text = Some v ->
  BaseCursorData.load (urlsafe_b64encode text) = Some v.
Proof.
  intros Ha Hl. destruct (token_roundtrip text Ha) as (token & _ & -> & Hdec).
  unfold BaseCursorData.load.
  destruct (utf8_encode (urlsafe_b64encode text)) as [b|]; [|discriminate].
  cbn [obind] in Hdec |- *.
  destruct (urlsafe_b64decode b) as [raw|]; [|discriminate].
  cbn [obind] in Hdec |- *. rewrite Hdec. exact Hl.
Qed.

(** X9. [decode] reads tokens of other encoders of the same format: with
    any whitespace around the colons and the comma of the JSON text, none at
    all as in the docstrings included, and with the two keys in either
    order, the token decodes to the cursor with that offset, an integer
    within the digit limit, and that discriminator. *)
Theorem decode_any_separators (n : Z) (s w1 w2 w3 w4 : str) :
  within_digit_limit n -> wf_str s ->
  forallb json_ws w1 = true -> forallb json_ws w2 = true ->
  forallb json_ws w3 = true -> forallb json_ws w4 = true ->
  let text := object2_with (item_separator w3 w4) (key_separator w1 w2) in
  let value := encode_basestring_ascii s in
  TableListCursor.decode
    (urlsafe_b64encode (text (lit "database") value (lit "offset") (int_repr n)))
  = Ok (TableListCursor.mk (PInt n) (PStr (join_pairs s)))
  /\ TableListCursor.decode
       (urlsafe_b64encode (text (lit "offset") (int_repr n) (lit "database") value))
     = Ok (TableListCursor.mk (PInt n) (PStr (join_pairs s)))
  /\ QueryResultCursor.decode
       (urlsafe_b64encode (text (lit "offset") (int_repr n) (lit "query_hash") value))
     = Ok (QueryResultCursor.mk (PInt n) (PStr (join_pairs s)))
  /\ QueryResultCursor.decode
       (urlsafe_b64encode (text (lit "query_hash") value (lit "offset") (int_repr n)))
     = Ok (QueryResultCursor.mk (PInt n) (PStr (join_pairs s))).
Proof.
  intros _ Hs H1 H2 H3 H4 text value.
  pose proof (string_scans_as s Hs) as Ss. pose proof (int_scans_as n) as Si.
  pose proof (encode_basestring_ascii_ascii s) as As.
  pose proof (int_repr_ascii n) as Ai.
  assert (L : forall k1 vt1 v1 k2 vt2 v2,
            wf_str k1 -> wf_str k2 -> scans_as vt1 v1 -> scans_as vt2 v2 ->
            forallb is_ascii vt1 = true -> forallb is_ascii vt2 = true ->
            BaseCursorData.load (urlsafe_b64encode (text k1 vt1 k2 vt2))
            = Some (PDict (dict_of_pairs [(join_pairs k1, v1); (join_pairs k2, v2)]))).
  { intros k1 vt1 v1 k2 vt2 v2 K1 K2 S1 S2 A1 A2. apply load_ascii_text.
    - apply object2_with_ascii; assumption.
    - apply json_loads_object2_with; assumption. }
  repeat split.
  - unfold TableListCursor.decode.
    rewrite (L _ _ (PStr (join_pairs s)) _ _ (PInt n));
      auto using wf_lit_database, wf_lit_offset.
  - unfold TableListCursor.decode.
    rewrite (L _ _ (PInt n) _ _ (PStr (join_pairs s)));
      auto using wf_lit_database, wf_lit_offset.
  - unfold QueryResultCursor.decode.
    rewrite (L _ _ (PInt n) _ _ (PStr (join_pairs s)));
      auto using wf_lit_query_hash, wf_lit_offset.
  - unfold QueryResultCursor.decode.
    rewrite (L _ _ (PStr (join_pairs s)) _ _ (PInt n));
      auto using wf_lit_query_hash, wf_lit_offset.
Qed.

Lemma decode_any_separators_witness :
  TableListCursor.decode
    (urlsafe_b64encode
       (object2_with (item_separator [] []) (key_separator [] [])
          (lit "database") (encode_basestring_ascii (lit "test"))
          (lit "offset") (int_repr 50)))
  = Ok (TableListCursor.mk (PInt 50) (PStr (join_pairs (lit "test")))).
Proof.
  refine (proj1 (decode_any_separators 50 (lit "test") [] [] [] [] _ _ _ _ _ _));
    reflexivity.
Defined.

(** ** What [decode] lets pass in a token *)

Lemma urlsafe_decode_translation_idem (c : Z) :
  urlsafe_decode_translation (urlsafe_decode_translation c)
  = urlsafe_decode_translation c.
Proof.
  unfold urlsafe_decode_translation.
  destruct (Z.eqb_spec c 45) as [-> | N1]; [reflexivity|].
  destruct (Z.eqb_spec c 95) as [-> | N2]; [reflexivity|].
  destruct (Z.eqb_spec c 45); [contradiction|].
  destruct (Z.eqb_spec c 95); [contradiction | reflexivity].
Qed.

Lemma utf8_encode_translated (s : str) :
  option_map (map urlsafe_decode_translation)
             (utf8_encode (map urlsafe_decode_translation s))
  = option_map (map urlsafe_decode_translation) (utf8_encode s).
Proof.
  induction s as [|c s IH]; [reflexivity|]. cbn [map utf8_encode].
  assert (Hc : option_map (map urlsafe_decode_translation)
                 (utf8_encode_char (urlsafe_decode_translation c))
               = option_map (map urlsafe_decode_translation) (utf8_encode_char c)).
  { unfold urlsafe_decode_translation at 2.
    destruct (Z.eqb_spec c 45) as [-> | N1]; [reflexivity|].
    destruct (Z.eqb_spec c 95) as [-> | N2]; reflexivity. }
  destruct (utf8_encode_char (urlsafe_decode_translation c)) as [b1|];
    destruct (utf8_encode_char c) as [b2|]; try discriminate; cbn [obind].
  - destruct (utf8_encode (map urlsafe_decode_translation s)) as [r1|];
      destruct (utf8_encode s) as [r2|]; try discriminate; cbn [obind option_map] in *.
    + rewrite !map_app. injection Hc as ->. injection IH as ->. reflexivity.
    + reflexivity.
  - reflexivity.
Qed.

Lemma load_translated (token : str) :
  BaseCursorData.load (map urlsafe_decode_translation token)
  = BaseCursorData.load token.
Proof.
  unfold BaseCursorData.load, urlsafe_b64decode.
  pose proof (utf8_encode_translated token) as H.
  destruct (utf8_encode (map urlsafe_decode_translation token)) as [b1|];
    destruct (utf8_encode token) as [b2|]; try discriminate;
    cbn [obind option_map] in *; [|reflexivity].
  injection H as H. rewrite H. reflexivity.
Qed.

(** X10. [decode] takes the standard base64 alphabet as well as the
    URL-safe one: a token in which every [-] is written [+] and every [_]
    is written [/] decodes, or fails to decode, exactly as the token
    itself. *)
Theorem decode_accepts_standard_alphabet (token : str) :
  TableListCursor.decode (map urlsafe_decode_translation token)
  = TableListCursor.decode token
  /\ QueryResultCursor.decode (map urlsafe_decode_translation token)
     = QueryResultCursor.decode token.
Proof.
  unfold TableListCursor.decode, QueryResultCursor.decode.
  rewrite load_translated. split; reflexivity.
Qed.

Lemma utf8_encode_app (a b : str) :
  utf8_encode (a ++ b)
  = try x <- utf8_encode a; try y <- utf8_encode b; Some (x ++ y).
Proof.
  induction a as [|c a IH]; cbn [app utf8_encode obind].
  - destruct (utf8_encode b); reflexivity.
  - destruct (utf8_encode_char c) as [bc|]; [|reflexivity]. cbn [obind].
    rewrite IH. destruct (utf8_encode a) as [x|]; [|reflexivity]. cbn [obind].
    destruct (utf8_encode b) as [y|]; [|reflexivity]. cbn [obind].
    rewrite app_assoc. reflexivity.
Qed.

Lemma skipped_char_spec (c : Z) :
  is_skipped_char c = true ->
  is_ascii c = true
  /\ (urlsafe_decode_translation c =? 61) = false
  /\ b64_value (urlsafe_decode_translation c) = None.
Proof.
  unfold is_skipped_char. intros H.
  apply andb_true_iff in H as [H H3]. apply andb_true_iff in H as [H1 H2].
  split; [exact H1|]. split.
  - apply negb_true_iff in H2. unfold urlsafe_decode_translation.
    destruct (c =? 45); [reflexivity|]. destruct (c =? 95); [reflexivity|].
    exact H2.
  - destruct (b64_value (urlsafe_decode_translation c)); [discriminate | reflexivity].
Qed.

Lemma a2b_loop_skips (j b : bytes) :
  Forall (fun x => (x =? 61) = false /\ b64_value x = None) j ->
  forall a quad_pos leftchar pads,
    a2b_loop (a ++ j ++ b) quad_pos leftchar pads
    = a2b_loop (a ++ b) quad_pos leftchar pads.
Proof.
  intros Hj. induction a as [|ch a IH]; intros quad_pos leftchar pads.
  - cbn [app]. induction Hj as [|x j [Hx1 Hx2] _ IHj]; [reflexivity|].
    cbn [app a2b_loop]. rewrite Hx1, Hx2. exact IHj.
  - cbn [app a2b_loop].
    destruct (ch =? 61).
    + destruct (Nat.leb 2 quad_pos); [|apply IH].
      destruct (Nat.leb 4 (quad_pos + S pads)); [reflexivity | apply IH].
    + destruct (b64_value ch) as [v|]; [|apply IH].
      destruct quad_pos as [|[|[|q]]]; rewrite IH; reflexivity.
Qed.

Lemma load_skips (t1 junk t2 : str) :
  forallb is_skipped_char junk = true ->
  BaseCursorData.load (t1 ++ junk ++ t2) = BaseCursorData.load (t1 ++ t2).
Proof.
  intros Hj.
  assert (Ha : forallb is_ascii junk = true).
  { rewrite forallb_forall in Hj |- *. intros c Hc.
    apply (skipped_char_spec c (Hj c Hc)). }
  assert (Hs : Forall (fun x => (x =? 61) = false /\ b64_value x = None)
                      (map urlsafe_decode_translation junk)).
  { apply Forall_forall. intros x Hx. apply in_map_iff in Hx as (c & <- & Hc).
    rewrite forallb_forall in Hj. apply (skipped_char_spec c (Hj c Hc)). }
  unfold BaseCursorData.load.
  rewrite !utf8_encode_app, (utf8_encode_ascii junk Ha).
  destruct (utf8_encode t1) as [b1|]; [|reflexivity]. cbn [obind].
  destruct (utf8_encode t2) as [b2|]; [|reflexivity]. cbn [obind].
  unfold urlsafe_b64decode, a2b_base64. rewrite !map_app.
  rewrite (a2b_loop_skips _ _ Hs). reflexivity.
Qed.

(** X11. [decode] skips what is not base64: characters that are ASCII, not
    the pad, and in neither base64 alphabet, such as spaces, line breaks
    or punctuation, may be put anywhere into a token without changing what
    [decode] returns or whether it fails. *)
Theorem decode_skips_other_characters (t1 junk t2 : str) :
  forallb is_skipped_char junk = true ->
  TableListCursor.decode (t1 ++ junk ++ t2) = TableListCursor.decode (t1 ++ t2)
  /\ QueryResultCursor.decode (t1 ++ junk ++ t2)
     = QueryResultCursor.decode (t1 ++ t2).
Proof.
  intros Hj. unfold TableListCursor.decode, QueryResultCursor.decode.
  rewrite (load_skips t1 junk t2 Hj). split; reflexivity.
Qed.

Lemma decode_skips_other_characters_witness :
  TableListCursor.decode
    (lit "eyJkYXRhYmFzZSI6ICJ0ZXN0" ++ [32; 10; 33] ++ lit "IiwgIm9mZnNldCI6IDUwfQ==")
  = TableListCursor.decode
      (lit "eyJkYXRhYmFzZSI6ICJ0ZXN0" ++ lit "IiwgIm9mZnNldCI6IDUwfQ==").
Proof.
  refine (proj1 (decode_skips_other_characters
                   (lit "eyJkYXRhYmFzZSI6ICJ0ZXN0") [32; 10; 33]
                   (lit "IiwgIm9mZnNldCI6IDUwfQ==") _)).
  reflexivity.
Defined.

Lemma a2b_loop_padded (n : nat) :
  forall bs extra, (length bs < n)%nat -> Forall is_byte bs ->
  Nat.modulo (length bs) 3 <> 0%nat ->
  a2b_loop (map urlsafe_decode_translation (urlsafe_b64encode bs) ++ extra)
           0%nat 0 0%nat
  = Some bs.
Proof.
  unfold urlsafe_b64encode, is_byte.
  induction n as [|n IH]; intros bs extra Hlen Hb Hmod; [lia|].
  destruct bs as [|a [|b [|c rest]]].
  - exfalso. apply Hmod. reflexivity.
  - inversion_clear Hb as [|? ? Ha _].
    cbn [b2a_base64 map app]. fold (wire (a / 4)). fold (wire (a mod 4 * 16)).
    rewrite !a2b_loop_sextet by (Z.div_mod_to_equations; lia).
    cbn. f_equal. f_equal. Z.div_mod_to_equations; lia.
  - inversion_clear Hb as [|? ? Ha Hb']. inversion_clear Hb' as [|? ? Hb _].
    cbn [b2a_base64 map app].
    fold (wire (a / 4)). fold (wire (a mod 4 * 16 + b / 16)).
    fold (wire (b mod 16 * 4)).
    rewrite !a2b_loop_sextet by (Z.div_mod_to_equations; lia).
    cbn. f_equal. f_equal; [|f_equal]; Z.div_mod_to_equations; lia.
  - inversion_clear Hb as [|? ? Ha Hb']. inversion_clear Hb' as [|? ? Hb Hb''].
    inversion_clear Hb'' as [|? ? Hc Hrest].
    cbn [b2a_base64 map app].
    fold (wire (a / 4)). fold (wire (a mod 4 * 16 + b / 16)).
    fold (wire (b mod 16 * 4 + c / 64)). fold (wire (c mod 64)).
    rewrite !a2b_loop_sextet by (Z.div_mod_to_equations; lia).
    rewrite IH.
    + cbn [obind]. f_equal. f_equal; [|f_equal; [|f_equal]];
        Z.div_mod_to_equations; lia.
    + cbn [length] in Hlen. lia.
    + assumption.
    + cbn [length] in Hmod.
      replace (S (S (S (length rest)))) with (length rest + 1 * 3)%nat in Hmod by lia.
      rewrite Nat.Div0.mod_add in Hmod. exact Hmod.
Qed.

Lemma load_padded_text (text extra : str) (v : pyval) :
  forallb is_ascii text = true ->
  Nat.modulo (length text) 3 <> 0%nat ->
  has_surrogate extra = false ->
  json_loads text = Some v ->
  BaseCursorData.load (urlsafe_b64encode text ++ extra) = Some v.
Proof.
  intros Ha Hmod He Hl.
  pose proof (b2a_base64_ascii _ text (Nat.lt_succ_diag_r _) (ascii_bytes _ Ha)) as Ht.
  destruct (utf8_encode_total extra He) as [e Hee].
  unfold BaseCursorData.load.
  rewrite utf8_encode_app, (utf8_encode_ascii _ Ht), Hee. cbn [obind].
  unfold urlsafe_b64decode, a2b_base64. rewrite map_app.
  rewrite (a2b_loop_padded (S (length text)))
    by (lia || apply ascii_bytes; assumption).
  cbn [obind]. rewrite (utf8_decode_ascii _ Ha). exact Hl.
Qed.

(** X12. Nothing after the padding is read: when the JSON text of a cursor
    with an integer offset within the digit limit is not a multiple of three bytes long, so that its token ends in [=],
    any text without surrogates may be appended to the token and [decode]
    still returns the cursor. *)
Theorem decode_ignores_text_after_padding (n : Z) (s extra : str) :
  within_digit_limit n -> wf_str s -> has_surrogate_pair s = false -> has_surrogate extra = false ->
  (Nat.modulo (length (table_json n s)) 3 <> 0%nat ->
   exists token,
     TableListCursor.encode (TableListCursor.mk (PInt n) (PStr s)) = Ok token
     /\ TableListCursor.decode (token ++ extra)
        = Ok (TableListCursor.mk (PInt n) (PStr s)))
  /\ (Nat.modulo (length (query_json n s)) 3 <> 0%nat ->
      exists token,
        QueryResultCursor.encode (QueryResultCursor.mk (PInt n) (PStr s)) = Ok token
        /\ QueryResultCursor.decode (token ++ extra)
           = Ok (QueryResultCursor.mk (PInt n) (PStr s))).
Proof.
  intros _ Hs Hp He. destruct (encode_value n s) as [Et Eq]. split; intros Hmod.
  - eexists. split; [exact Et|]. unfold TableListCursor.decode.
    rewrite (load_padded_text _ extra _ (table_json_ascii n s) Hmod He
               (json_loads_table_json n s Hs)).
    rewrite (join_pairs_id s Hp). reflexivity.
  - eexists. split; [exact Eq|]. unfold QueryResultCursor.decode.
    rewrite (load_padded_text _ extra _ (query_json_ascii n s) Hmod He
               (json_loads_query_json n s Hs)).
    rewrite (join_pairs_id s Hp). reflexivity.
Qed.

Lemma decode_ignores_text_after_padding_witness :
  exists token,
    TableListCursor.encode (TableListCursor.mk (PInt 50) (PStr (lit "test"))) = Ok token
    /\ TableListCursor.decode (token ++ lit "AAAA; DROP")
       = Ok (TableListCursor.mk (PInt 50) (PStr (lit "test"))).
Proof.
  refine (proj1 (decode_ignores_text_after_padding 50 (lit "test") (lit "AAAA; DROP")
                   _ _ _ _) _).
  - vm_compute. reflexivity.
  - reflexivity.
  - reflexivity.
  - reflexivity.
  - vm_compute. discriminate.
Defined.

(** ** Cursors that [decode] returns *)

Lemma clean_text_cons (c : Z) (t : str) :
  clean_text (c :: t)
  <-> (0 <= c <= 0x10FFFF /\ (c < 0xD800 \/ 0xDFFF < c)) /\ clean_text t.
Proof.
  unfold clean_text. cbn [forallb]. rewrite !andb_true_iff, negb_true_iff.
  unfold is_codepoint, is_surrogate. rewrite in_range_spec, in_range_false. tauto.
Qed.

Lemma clean_text_app (p r : str) : clean_text (p ++ r) -> clean_text r.
Proof.
  unfold clean_text. rewrite forallb_app, andb_true_iff. tauto.
Qed.

Lemma clean_text_skip_ws (t : str) : clean_text t -> clean_text (skip_ws t).
Proof.
  induction t as [|c t IH]; [auto|]. intros H. cbn [skip_ws].
  destruct (json_ws c); [|exact H]. apply IH. apply clean_text_cons in H. tauto.
Qed.

Lemma utf8_decode_clean_aux (n : nat) :
  forall b s, (length b < n)%nat -> utf8_decode b = Some s -> clean_text s.
Proof.
  induction n as [|n IH]; intros b s Hlen H; [lia|].
  assert (step : forall c t r,
            (length t < n)%nat ->
            (0 <= c <= 0x10FFFF /\ (c < 0xD800 \/ 0xDFFF < c)) ->
            (try x <- utf8_decode t; Some (c :: x)) = Some r -> clean_text r).
  { intros c t r Ht Hc E. destruct (utf8_decode t) as [x|] eqn:Ex; [|discriminate].
    cbn [obind] in E. injection E as <-. apply clean_text_cons.
    split; [exact Hc | exact (IH t x Ht Ex)]. }
  destruct b as [|b0 r0]; [injection H as <-; reflexivity|].
  cbn [utf8_decode length] in *.
  destruct (in_range 0 127 b0) eqn:R1.
  { apply in_range_spec in R1. apply step in H; [exact H | lia | lia]. }
  destruct (in_range 194 223 b0) eqn:R2.
  { apply in_range_spec in R2. destruct r0 as [|b1 r1]; [discriminate|].
    cbn [length] in *. unfold is_cont in H.
    destruct (in_range 128 191 b1) eqn:C1; [|discriminate].
    apply in_range_spec in C1. apply step in H; [exact H | lia | lia]. }
  destruct (in_range 224 239 b0) eqn:R3.
  { apply in_range_spec in R3. destruct r0 as [|b1 [|b2 r2]]; try discriminate.
    cbn [length] in *. unfold is_cont in H.
    destruct (in_range 128 191 b1) eqn:C1; [|discriminate].
    destruct (in_range 128 191 b2) eqn:C2; [|discriminate].
    apply in_range_spec in C1, C2. cbn [andb] in H.
    destruct (negb (b0 =? 224) || (160 <=? b1)) eqn:O1; [|discriminate].
    destruct (negb (b0 =? 237) || (b1 <? 160)) eqn:O2; [|discriminate].
    cbn [andb] in H.
    assert (b0 = 237 -> b1 < 160).
    { intros ->. cbn in O2. apply Z.ltb_lt in O2. exact O2. }
    apply step in H; [exact H | lia |]. split; [lia|].
    destruct (Z.eq_dec b0 237); [left | destruct (Z_lt_le_dec b0 237); [left | right]];
      lia. }
  destruct (in_range 240 244 b0) eqn:R4; [|discriminate].
  apply in_range_spec in R4. destruct r0 as [|b1 [|b2 [|b3 r3]]]; try discriminate.
  cbn [length] in *. unfold is_cont in H.
  destruct (in_range 128 191 b1) eqn:C1; [|discriminate].
  destruct (in_range 128 191 b2) eqn:C2; [|discriminate].
  destruct (in_range 128 191 b3) eqn:C3; [|discriminate].
  apply in_range_spec in C1, C2, C3. cbn [andb] in H.
  destruct (negb (b0 =? 240) || (144 <=? b1)) eqn:O1; [|discriminate].
  destruct (negb (b0 =? 244) || (b1 <? 144)) eqn:O2; [|discriminate].
  cbn [andb] in H.
  assert (b0 = 240 -> 144 <= b1).
  { intros ->. cbn in O1. apply Z.leb_le in O1. exact O1. }
  assert (b0 = 244 -> b1 < 144).
  { intros ->. cbn in O2. apply Z.ltb_lt in O2. exact O2. }
  apply step in H; [exact H | lia |]. split; [|right]; lia.
Qed.

Lemma utf8_decode_clean (b : bytes) (s : str) :
  utf8_decode b = Some s -> clean_text s.
Proof. apply (utf8_decode_clean_aux (S (length b))). lia. Qed.

Lemma has_surrogate_pair_cons (c : Z) (x : str) :
  has_surrogate_pair (c :: x)
  = (is_high_surrogate c && head_low x) || has_surrogate_pair x.
Proof.
  destruct x as [|c2 x]; [|reflexivity].
  cbn [has_surrogate_pair head_low]. rewrite andb_false_r. reflexivity.
Qed.

Lemma hexval_range (c x : Z) : hexval c = Some x -> 0 <= x < 16.
Proof.
  unfold hexval.
  destruct (in_range 48 57 c) eqn:R1;
    [apply in_range_spec in R1; intros [= <-]; lia|].
  destruct (in_range 97 102 c) eqn:R2;
    [apply in_range_spec in R2; intros [= <-]; lia|].
  destruct (in_range 65 70 c) eqn:R3;
    [apply in_range_spec in R3; intros [= <-]; lia | discriminate].
Qed.

Lemma hex4_value_range (a b c d v : Z) :
  hex4_value a b c d = Some v -> 0 <= v < 0x10000.
Proof.
  unfold hex4_value.
  destruct (hexval a) as [x|] eqn:Ex; [|discriminate].
  destruct (hexval b) as [y|] eqn:Ey; [|discriminate].
  destruct (hexval c) as [z|] eqn:Ez; [|discriminate].
  destruct (hexval d) as [w|] eqn:Ew; [|discriminate].
  cbn [obind]. intros [= <-].
  apply hexval_range in Ex, Ey, Ez, Ew. lia.
Qed.

Lemma simple_escape_ascii (e c : Z) : simple_escape e = Some c -> 0 <= c <= 127.
Proof.
  unfold simple_escape. intros H.
  repeat match type of H with
         | (if ?b then _ else _) = _ => destruct b; [injection H as <-; lia|]
         end.
  discriminate.
Qed.

Lemma clean_cons (c : Z) (x : str) :
  0 <= c <= 0x10FFFF -> wf_str x -> has_surrogate_pair x = false ->
  is_high_surrogate c = false \/ head_low x = false ->
  wf_str (c :: x) /\ has_surrogate_pair (c :: x) = false.
Proof.
  intros Hc Hw Hp Hh. split.
  - unfold wf_str in *. cbn [forallb]. rewrite Hw, andb_true_r.
    apply in_range_spec. exact Hc.
  - rewrite has_surrogate_pair_cons, Hp, orb_false_r.
    destruct Hh as [-> | ->]; [reflexivity | apply andb_false_r].
Qed.

(** What [scanstring] returns from clean text: the rest is clean, the
    string is clean, and it starts with a low surrogate only if the text
    starts with the escape of one. *)
Lemma scanstring_clean_aux (n : nat) :
  forall t x r, (length t < n)%nat -> clean_text t ->
  scanstring t = Some (x, r) ->
  clean_text r /\ clean_str x /\ (head_low x = true -> starts_low_escape t).
Proof.
  induction n as [|n IH]; intros t x r Hlen Hc H; [lia|].
  assert (step : forall c t',
            (length t' < n)%nat -> clean_text t' ->
            cons_char c (scanstring t') = Some (x, r) ->
            exists x', x = c :: x' /\ clean_text r /\ clean_str x'
                       /\ (head_low x' = true -> starts_low_escape t')).
  { intros c t' Ht Hc' E. unfold cons_char in E.
    destruct (scanstring t') as [[x' r']|] eqn:Ex; [|discriminate].
    cbn [obind] in E. injection E as <- <-.
    destruct (IH t' x' r' Ht Hc' Ex) as (A & B & C). eauto. }
  assert (no_low : forall t', (head_low [] = true -> starts_low_escape t')).
  { intros t' E. discriminate E. }
  destruct t as [|c s1]; [discriminate|].
  pose proof Hc as Hc0. apply clean_text_cons in Hc0 as [Hcc Hs1].
  cbn [scanstring] in H. cbn [length] in Hlen.
  destruct (c =? 34).
  { injection H as <- <-. split; [exact Hs1|]. split; [split; reflexivity|].
    intros E. discriminate E. }
  destruct (Z.eqb_spec c 92) as [-> | Hn92].
  - destruct s1 as [|e s2]; [discriminate|].
    pose proof Hs1 as Hs1'. apply clean_text_cons in Hs1' as [_ Hs2].
    cbn [length] in Hlen.
    destruct (Z.eqb_spec e 117) as [-> | Hn117].
    + destruct s2 as [|a [|b [|c' [|d s6]]]]; try discriminate.
      assert (Hs6 : clean_text s6)
        by exact (clean_text_app [92; 117; a; b; c'; d] s6 Hc).
      cbn [length] in Hlen.
      destruct (hex4_value a b c' d) as [uni|] eqn:Eu; [|discriminate].
      pose proof (hex4_value_range _ _ _ _ _ Eu) as Hu. cbn [obind] in H.
      destruct (is_high_surrogate uni) eqn:Hh.
      * (* a high surrogate: joined with a low one that follows, else alone *)
        assert (alone : forall s6',
                  s6' = s6 ->
                  (starts_low_escape s6 -> False) ->
                  cons_char uni (scanstring s6) = Some (x, r) ->
                  clean_text r /\ clean_str x
                  /\ (head_low x = true ->
                      starts_low_escape (92 :: 117 :: a :: b :: c' :: d :: s6))).
        { intros s6' _ Hno E. apply step in E; [|lia|exact Hs6].
          destruct E as (x' & -> & Hr & [Hw Hp] & Hl).
          split; [exact Hr|]. split.
          - apply clean_cons; [lia | assumption | assumption |].
            right. destruct (head_low x'); [|reflexivity].
            exfalso. apply Hno, Hl. reflexivity.
          - cbn [head_low]. intros E. rewrite (high_not_low _ Hh) in E.
            discriminate. }
        destruct s6 as [|bs [|u s8]].
        { apply (alone []); [reflexivity | | exact H].
          intros (? & ? & ? & ? & ? & ? & E & _). discriminate E. }
        { apply (alone [bs]); [reflexivity | | exact H].
          intros (? & ? & ? & ? & ? & ? & E & _). discriminate E. }
        destruct ((bs =? 92) && (u =? 117)) eqn:Epair.
        -- apply andb_true_iff in Epair as [E1 E2].
           apply Z.eqb_eq in E1, E2. subst bs u.
           destruct s8 as [|a2 [|b2 [|c2 [|d2 s12]]]]; try discriminate.
           cbn [length] in Hlen.
           destruct (hex4_value a2 b2 c2 d2) as [uni2|] eqn:Eu2; [|discriminate].
           pose proof (hex4_value_range _ _ _ _ _ Eu2) as Hu2. cbn [obind] in H.
           destruct (is_low_surrogate uni2) eqn:Hl2.
           ++ assert (Hs12 : clean_text s12)
                by exact (clean_text_app [92; 117; a2; b2; c2; d2] s12 Hs6).
              apply step in H; [|lia|exact Hs12].
              destruct H as (x' & -> & Hr & [Hw Hp] & Hl).
              apply in_range_spec in Hh, Hl2.
              assert (Hj : 0x10000 <= join_surrogates uni uni2 <= 0x10FFFF).
              { unfold join_surrogates. lia. }
              split; [exact Hr|]. split.
              ** apply clean_cons; [lia | assumption | assumption |].
                 left. apply in_range_false. lia.
              ** cbn [head_low]. intros E. apply in_range_spec in E. lia.
           ++ apply (alone (92 :: 117 :: a2 :: b2 :: c2 :: d2 :: s12));
                [reflexivity | | exact H].
              intros (a3 & b3 & c3 & d3 & rest & lo & E & Ev & El).
              injection E as <- <- <- <- <-. congruence.
        -- apply (alone (bs :: u :: s8)); [reflexivity | | exact H].
           intros (a3 & b3 & c3 & d3 & rest & lo & E & _).
           injection E as -> -> _. discriminate Epair.
      * apply step in H; [|lia|exact Hs6].
        destruct H as (x' & -> & Hr & [Hw Hp] & Hl).
        split; [exact Hr|]. split.
        -- apply clean_cons; [lia | assumption | assumption | left; exact Hh].
        -- cbn [head_low]. intros E.
           exists a, b, c', d, s6, uni. auto.
    + destruct (simple_escape e) as [ch|] eqn:Ee; [|discriminate].
      pose proof (simple_escape_ascii _ _ Ee) as Hch. cbn [obind] in H.
      apply step in H; [|lia|exact Hs2].
      destruct H as (x' & -> & Hr & [Hw Hp] & Hl).
      split; [exact Hr|]. split.
      * apply clean_cons; [lia | assumption | assumption |].
        left. apply in_range_false. lia.
      * cbn [head_low]. intros E. apply in_range_spec in E. lia.
  - destruct (c <=? 31); [discriminate|].
    apply step in H; [|lia|exact Hs1].
    destruct H as (x' & -> & Hr & [Hw Hp] & Hl).
    split; [exact Hr|]. split.
    + apply clean_cons; [lia | assumption | assumption |].
      left. apply in_range_false. lia.
    + cbn [head_low]. intros E. apply in_range_spec in E. lia.
Qed.

Lemma scanstring_clean (t x r : str) :
  clean_text t -> scanstring t = Some (x, r) -> clean_text r /\ clean_str x.
Proof.
  intros Hc H.
  destruct (scanstring_clean_aux (S (length t)) t x r (Nat.lt_succ_diag_r _) Hc H)
    as (A & B & _).
  auto.
Qed.

Lemma suffix_refl (s : str) : suffix_of s s.
Proof. exists []. reflexivity. Qed.

Lemma suffix_cons (c : Z) (r s : str) : suffix_of r s -> suffix_of r (c :: s).
Proof. intros [p ->]. exists (c :: p). reflexivity. Qed.

Lemma suffix_trans (a b c : str) : suffix_of a b -> suffix_of b c -> suffix_of a c.
Proof. intros [p ->] [q ->]. exists (q ++ p). apply app_assoc. Qed.

Lemma suffix_clean (r s : str) : suffix_of r s -> clean_text s -> clean_text r.
Proof. intros [p ->]. apply clean_text_app. Qed.

Lemma span_digits_suffix (s : str) : suffix_of (snd (span_digits s)) s.
Proof.
  induction s as [|c s IH]; cbn [span_digits]; [apply suffix_refl|].
  destruct (is_digit c); [|apply suffix_refl].
  destruct (span_digits s) as [ds r]. cbn [snd] in *. apply suffix_cons, IH.
Qed.

Lemma number_int_suffix (s ip r : str) :
  number_int s = Some (ip, r) -> suffix_of r s.
Proof.
  unfold number_int. destruct s as [|c s2]; [discriminate|].
  destruct (in_range 49 57 c).
  - pose proof (span_digits_suffix s2) as L.
    destruct (span_digits s2) as [ds r']. intros [= _ <-].
    apply suffix_cons, L.
  - destruct (c =? 48); [|discriminate]. intros [= _ <-].
    apply suffix_cons, suffix_refl.
Qed.

Lemma number_sign_suffix (s : str) : suffix_of (snd (number_sign s)) s.
Proof.
  unfold number_sign. destruct s as [|c t]; [apply suffix_refl|].
  destruct (c =? 45); cbn [snd]; [apply suffix_cons|]; apply suffix_refl.
Qed.

Lemma number_frac_suffix (s : str) : suffix_of (snd (number_frac s)) s.
Proof.
  unfold number_frac. destruct s as [|p [|d r]]; try apply suffix_refl.
  destruct ((p =? 46) && is_digit d); [|apply suffix_refl].
  pose proof (span_digits_suffix r) as L.
  destruct (span_digits r) as [ds r']. cbn [snd] in *.
  apply suffix_cons, suffix_cons, L.
Qed.

Lemma number_exp_suffix (s : str) : suffix_of (snd (number_exp s)) s.
Proof.
  unfold number_exp. destruct s as [|e r]; [apply suffix_refl|].
  destruct ((e =? 101) || (e =? 69)); [|apply suffix_refl].
  set (sg := match r with
             | [] => ([], r)
             | c :: t => if (c =? 45) || (c =? 43) then ([c], t) else ([], r)
             end).
  assert (Hsg : suffix_of (snd sg) r).
  { unfold sg. destruct r as [|c t]; [apply suffix_refl|].
    destruct ((c =? 45) || (c =? 43)); cbn [snd];
      [apply suffix_cons|]; apply suffix_refl. }
  destruct sg as [sgn r']. cbn [snd] in Hsg.
  pose proof (span_digits_suffix r') as L.
  destruct (span_digits r') as [[|d ds] r'']; cbn [snd] in *;
    [apply suffix_refl|].
  apply suffix_cons. exact (suffix_trans _ _ _ L Hsg).
Qed.

Lemma match_number_suffix (s r : str) (v : pyval) :
  match_number s = Some (v, r) ->
  suffix_of r s /\ (forall x, v <> PStr x) /\ (forall d, v <> PDict d).
Proof.
  unfold match_number.
  pose proof (number_sign_suffix s) as L1.
  destruct (number_sign s) as [sign s1]. cbn [snd] in L1.
  destruct (number_int s1) as [[ip r1]|] eqn:E; [|discriminate].
  apply number_int_suffix in E. cbn [obind].
  pose proof (number_frac_suffix r1) as L2.
  destruct (number_frac r1) as [frac r2]. cbn [snd] in L2.
  pose proof (number_exp_suffix r2) as L3.
  destruct (number_exp r2) as [ex r3]. cbn [snd] in L3.
  assert (S : suffix_of r3 s).
  { exact (suffix_trans _ _ _ L3 (suffix_trans _ _ _ L2 (suffix_trans _ _ _ E L1))). }
  destruct frac; destruct ex; intros [= <- <-];
    (split; [exact S | split; discriminate]).
Qed.

Lemma strip_prefix_suffix (p s r : str) : strip_prefix p s = Some r -> suffix_of r s.
Proof.
  revert s. induction p as [|x p IH]; intros s; cbn [strip_prefix].
  - intros [= ->]. apply suffix_refl.
  - destruct s as [|y s]; [discriminate|].
    destruct (x =? y); [|discriminate]. intros H. apply suffix_cons, IH, H.
Qed.

Lemma scan_constant_good (s r : str) (v : pyval) :
  scan_constant s = Some (v, r) -> suffix_of r s /\ good_top v.
Proof.
  unfold scan_constant.
  repeat match goal with
         | |- context [strip_prefix ?p s] =>
             let E := fresh "E" in
             destruct (strip_prefix p s) eqn:E;
             [apply strip_prefix_suffix in E; intros [= <- <-];
              split; [exact E | exact I]|]
         end.
  intros H. apply match_number_suffix in H as (S & N1 & N2).
  split; [exact S|]. destruct v; try exact I.
  - exfalso. exact (N1 _ eq_refl).
  - exfalso. exact (N2 _ eq_refl).
Qed.

Lemma good_top_val (v : pyval) : good_top v -> good_val v.
Proof. destruct v; cbn; auto. Qed.

Lemma dict_set_good (d : list (str * pyval)) (k : str) (v : pyval) :
  Forall (fun kv => good_val (snd kv)) d -> good_val v ->
  Forall (fun kv => good_val (snd kv)) (dict_set d k v).
Proof.
  intros Hd Hv. induction Hd as [|[k' v'] d Hkv Hd IH]; cbn [dict_set].
  - repeat constructor. exact Hv.
  - destruct (str_eqb k' k); constructor; auto.
Qed.

Lemma dict_of_pairs_good (ps : list (str * pyval)) :
  Forall (fun kv => good_val (snd kv)) ps ->
  Forall (fun kv => good_val (snd kv)) (dict_of_pairs ps).
Proof.
  unfold dict_of_pairs.
  assert (G : forall d, Forall (fun kv => good_val (snd kv)) d ->
              Forall (fun kv => good_val (snd kv)) ps ->
              Forall (fun kv => good_val (snd kv))
                (fold_left (fun d kv => dict_set d (fst kv) (snd kv)) ps d)).
  { induction ps as [|[k v] ps IH]; intros d Hd Hps; [exact Hd|].
    inversion_clear Hps as [|? ? Hv Hps']. cbn [fold_left fst snd].
    apply IH; [|exact Hps']. apply dict_set_good; assumption. }
  apply G. constructor.
Qed.

Lemma dict_get_good (d : list (str * pyval)) (k : str) (v : pyval) :
  Forall (fun kv => good_val (snd kv)) d -> dict_get d k = Some v -> good_val v.
Proof.
  intros Hd. induction Hd as [|[k' v'] d Hkv Hd IH]; cbn [dict_get]; [discriminate|].
  destruct (str_eqb k' k); [intros [= <-]; exact Hkv | exact IH].
Qed.

(** From clean text the scanner returns clean rests and good values. *)
Lemma scan_good (f : nat) :
  (forall s v r, clean_text s -> scan_once f s = Some (v, r) ->
     clean_text r /\ good_top v)
  /\ (forall acc s v r, clean_text s ->
        Forall (fun kv => good_val (snd kv)) acc ->
        object_items f acc s = Some (v, r) -> clean_text r /\ good_top v)
  /\ (forall acc s v r, clean_text s ->
        array_items f acc s = Some (v, r) -> clean_text r /\ good_top v).
Proof.
  induction f as [|f (IHs & IHo & IHa)];
    [repeat split; intros; discriminate|].
  assert (tail : forall c t, clean_text (c :: t) -> clean_text t).
  { intros c t H. apply clean_text_cons in H. tauto. }
  split; [|split].
  - intros s v r Hc H. cbn [scan_once] in H.
    destruct s as [|c s']; [discriminate|]. pose proof (tail _ _ Hc) as Hs'.
    destruct (c =? 34).
    { destruct (scanstring s') as [[x r']|] eqn:E; [|discriminate].
      cbn [obind] in H. injection H as <- <-.
      exact (scanstring_clean _ _ _ Hs' E). }
    pose proof (clean_text_skip_ws _ Hs') as Hw.
    destruct (c =? 123).
    { destruct (skip_ws s') as [|c1 r1]; [discriminate|].
      destruct (c1 =? 125);
        [injection H as <- <-; split; [exact (tail _ _ Hw) | constructor]|].
      destruct (c1 =? 34); [|discriminate].
      exact (IHo [] r1 v r (tail _ _ Hw) (Forall_nil _) H). }
    destruct (c =? 91).
    { destruct (skip_ws s') as [|c1 r1]; [discriminate|].
      destruct (c1 =? 93);
        [injection H as <- <-; split; [exact (tail _ _ Hw) | exact I]|].
      exact (IHa [] _ v r Hw H). }
    apply scan_constant_good in H as [S G].
    split; [exact (suffix_clean _ _ S Hc) | exact G].
  - intros acc s v r Hc Hacc H. cbn [object_items] in H.
    destruct (scanstring s) as [[key r0]|] eqn:E; [|discriminate].
    apply (scanstring_clean _ _ _ Hc) in E as [Hr0 _]. cbn [obind] in H.
    pose proof (clean_text_skip_ws _ Hr0) as Hw0.
    destruct (skip_ws r0) as [|c r1]; [discriminate|].
    destruct (c =? 58); [|discriminate].
    pose proof (clean_text_skip_ws _ (tail _ _ Hw0)) as Hw1.
    destruct (scan_once f (skip_ws r1)) as [[v' r2]|] eqn:Ev; [|discriminate].
    apply (IHs _ _ _ Hw1) in Ev as [Hr2 Gv]. cbn [obind] in H.
    pose proof (clean_text_skip_ws _ Hr2) as Hw2.
    assert (Hacc' : Forall (fun kv => good_val (snd kv)) ((key, v') :: acc)).
    { constructor; [exact (good_top_val _ Gv) | exact Hacc]. }
    destruct (skip_ws r2) as [|c2 r3]; [discriminate|].
    destruct (c2 =? 125).
    { injection H as <- <-. split; [exact (tail _ _ Hw2)|].
      cbn [good_top]. apply dict_of_pairs_good.
      change (Forall (fun kv => good_val (snd kv)) (rev ((key, v') :: acc))).
      apply Forall_rev. exact Hacc'. }
    destruct (c2 =? 44); [|discriminate].
    pose proof (clean_text_skip_ws _ (tail _ _ Hw2)) as Hw3.
    destruct (skip_ws r3) as [|q r4]; [discriminate|].
    destruct (q =? 34); [|discriminate].
    exact (IHo _ r4 v r (tail _ _ Hw3) Hacc' H).
  - intros acc s v r Hc H. cbn [array_items] in H.
    destruct (scan_once f s) as [[v' r0]|] eqn:Ev; [|discriminate].
    apply (IHs _ _ _ Hc) in Ev as [Hr0 _]. cbn [obind] in H.
    pose proof (clean_text_skip_ws _ Hr0) as Hw0.
    destruct (skip_ws r0) as [|c r1]; [discriminate|].
    destruct (c =? 93);
      [injection H as <- <-; split; [exact (tail _ _ Hw0) | exact I]|].
    destruct (c =? 44); [|discriminate].
    exact (IHa _ _ v r (clean_text_skip_ws _ (tail _ _ Hw0)) H).
Qed.

Lemma json_loads_good (text : str) (v : pyval) :
  clean_text text -> json_loads text = Some v -> good_top v.
Proof.
  intros Hc. unfold json_loads.
  destruct (strip_prefix [65279] text); [discriminate|].
  destruct (scan_once (2 * length text + 2) (skip_ws text)) as [[obj r]|] eqn:E;
    [|discriminate].
  cbn [obind]. apply (proj1 (scan_good _) _ _ _ (clean_text_skip_ws _ Hc)) in E.
  destruct (skip_ws r); [|discriminate]. intros [= <-]. apply E.
Qed.

Lemma load_good (token : str) (v : pyval) :
  BaseCursorData.load token = Some v -> good_top v.
Proof.
  intros H. apply load_spec in H as (b & raw & text & _ & _ & Hd & Hl).
  exact (json_loads_good text v (utf8_decode_clean _ _ Hd) Hl).
Qed.

Lemma accepted_field_good (disc : str) (data off dv : pyval) :
  good_top data -> accepts disc data off dv -> good_val dv.
Proof.
  intros G (d & -> & _ & _ & ->). cbn [good_top] in G. unfold field_or_default.
  destruct (dict_get d disc) as [v|] eqn:E.
  - exact (dict_get_good d disc v G E).
  - split; reflexivity.
Qed.

(** X13. The string discriminator of a decoded cursor is always one that
    survives the round trip: whatever the token, if [decode] returns a
    cursor with an integer offset and a string discriminator, then encoding
    that cursor and decoding the new token returns the same cursor. *)
Theorem decoded_cursor_roundtrips (token : str) (n : Z) (s : str) :
  (TableListCursor.decode token = Ok (TableListCursor.mk (PInt n) (PStr s)) ->
   wf_str s /\ has_surrogate_pair s = false
   /\ exists token',
        TableListCursor.encode (TableListCursor.mk (PInt n) (PStr s)) = Ok token'
        /\ TableListCursor.decode token'
           = Ok (TableListCursor.mk (PInt n) (PStr s)))
  /\ (QueryResultCursor.decode token = Ok (QueryResultCursor.mk (PInt n) (PStr s)) ->
      wf_str s /\ has_surrogate_pair s = false
      /\ exists token',
           QueryResultCursor.encode (QueryResultCursor.mk (PInt n) (PStr s)) = Ok token'
           /\ QueryResultCursor.decode token'
              = Ok (QueryResultCursor.mk (PInt n) (PStr s))).
Proof.
  split; intros H.
  - apply table_decode_ok in H as (data & L & I).
    apply table_init_spec in I. pose proof (load_good _ _ L) as G.
    pose proof (accepted_field_good _ _ _ _ G I) as [Hw Hp].
    cbn [TableListCursor.database] in Hw, Hp.
    split; [exact Hw|]. split; [exact Hp|].
    destruct (table_cursor_token n s Hw) as [Henc Hload].
    eexists. split; [exact Henc|].
    unfold TableListCursor.decode. rewrite Hload, (join_pairs_id s Hp). reflexivity.
  - apply query_decode_ok in H as (data & L & I).
    apply query_init_spec in I. pose proof (load_good _ _ L) as G.
    pose proof (accepted_field_good _ _ _ _ G I) as [Hw Hp].
    cbn [QueryResultCursor.query_hash] in Hw, Hp.
    split; [exact Hw|]. split; [exact Hp|].
    destruct (query_cursor_token n s Hw) as [Henc Hload].
    eexists. split; [exact Henc|].
    unfold QueryResultCursor.decode. rewrite Hload, (join_pairs_id s Hp). reflexivity.
Qed.

Lemma decoded_cursor_roundtrips_witness :
  wf_str (lit "test") /\ has_surrogate_pair (lit "test") = false
  /\ exists token',
       TableListCursor.encode (TableListCursor.mk (PInt 50) (PStr (lit "test")))
         = Ok token'
       /\ TableListCursor.decode token'
          = Ok (TableListCursor.mk (PInt 50) (PStr (lit "test"))).
Proof.
  apply (proj1 (decoded_cursor_roundtrips
                  (lit "eyJkYXRhYmFzZSI6InRlc3QiLCJvZmZzZXQiOjUwfQ==") 50 (lit "test"))).
  vm_compute. reflexivity.
Defined.

(** X14. A key written twice is no error, and the second value is the one
    kept: the token of an object with two [offset] members, integers within
    the digit limit, decodes, for both variants, to the cursor with the
    second offset. *)
Theorem decode_keeps_last_duplicate (n1 n2 : Z) :
  within_digit_limit n1 -> within_digit_limit n2 ->
  let token :=
    urlsafe_b64encode
      (object2 (lit "offset") (int_repr n1) (lit "offset") (int_repr n2)) in
  BaseCursorData.load token = Some (PDict [(lit "offset", PInt n2)])
  /\ TableListCursor.decode token = Ok (TableListCursor.mk (PInt n2) (PStr []))
  /\ QueryResultCursor.decode token = Ok (QueryResultCursor.mk (PInt n2) (PStr [])).
Proof.
  intros _ _. cbv zeta.
  destruct (int_repr_value n1) as (A1 & A2 & A3).
  destruct (int_repr_value n2) as (B1 & B2 & B3).
  assert (Hl : json_loads (object2 (lit "offset") (int_repr n1)
                             (lit "offset") (int_repr n2))
               = Some (PDict [(lit "offset", PInt n2)])).
  { rewrite (json_loads_object2 _ _ _ _ (PInt n1) (PInt n2));
      auto using wf_lit_offset. }
  assert (Ha : forallb is_ascii (object2 (lit "offset") (int_repr n1)
                                   (lit "offset") (int_repr n2)) = true).
  { apply object2_ascii; apply int_repr_ascii. }
  pose proof (load_ascii_text _ _ Ha Hl) as Hload.
  split; [exact Hload|]. split.
  - unfold TableListCursor.decode. rewrite Hload. reflexivity.
  - unfold QueryResultCursor.decode. rewrite Hload. reflexivity.
Qed.

Lemma decode_keeps_last_duplicate_witness :
  TableListCursor.decode
    (urlsafe_b64encode
       (object2 (lit "offset") (int_repr 5) (lit "offset") (int_repr 10)))
  = Ok (TableListCursor.mk (PInt 10) (PStr [])).
Proof.
  refine (proj1 (proj2 (decode_keeps_last_duplicate 5 10 _ _)));
    vm_compute; reflexivity.
Defined.

(** ** Queries that cannot be hashed *)

Lemma isspace_not_surrogate (c : Z) : isspace c = true -> is_surrogate c = false.
Proof.
  intros H. apply in_range_false. unfold isspace in H.
  repeat (apply orb_true_iff in H as [H | H]);
    try (apply in_range_spec in H; lia); apply Z.eqb_eq in H; lia.
Qed.

Lemma has_surrogate_lstrip (s : str) : has_surrogate (lstrip s) = has_surrogate s.
Proof.
  unfold has_surrogate. induction s as [|c s IH]; [reflexivity|].
  cbn [lstrip]. destruct (isspace c) eqn:E; [|reflexivity].
  cbn [existsb]. rewrite (isspace_not_surrogate c E). exact IH.
Qed.

Lemma has_surrogate_rev (s : str) : has_surrogate (rev s) = has_surrogate s.
Proof.
  unfold has_surrogate. induction s as [|c s IH]; [reflexivity|].
  cbn [rev existsb]. rewrite existsb_app, IH. cbn [existsb].
  rewrite orb_false_r. apply orb_comm.
Qed.

Lemma has_surrogate_strip (s : str) : has_surrogate (strip s) = has_surrogate s.
Proof.
  unfold strip, rstrip.
  rewrite has_surrogate_rev, has_surrogate_lstrip, has_surrogate_rev.
  apply has_surrogate_lstrip.
Qed.

(** X15. A surrogate anywhere in the query makes [hash_query] raise
    [UnicodeEncodeError] and nothing else does; [validate_query] then raises
    the same error, whatever the cursor, instead of accepting or reporting a
    changed query. *)
Theorem surrogate_query_raises (c : QueryResultCursor.t) (q : str) :
  (hash_query q = Err UnicodeEncodeError <-> has_surrogate q = true)
  /\ (QueryResultCursor.validate_query c q = Err UnicodeEncodeError
      <-> has_surrogate q = true).
Proof.
  unfold QueryResultCursor.validate_query, hash_query, str_encode.
  rewrite <- (has_surrogate_strip q).
  destruct (has_surrogate (strip q)) eqn:E.
  - rewrite (utf8_encode_surrogate _ E). cbn [bind]. split; split; reflexivity.
  - destruct (utf8_encode_total _ E) as [b ->]. cbn [bind].
    split; [split; discriminate|].
    destruct (negb (py_eq_str (QueryResultCursor.query_hash c) (sha256_hexdigest b)));
      split; discriminate.
Qed.

(* ================================================================= *)
(** ** What [decode] rejects, and what it accepts *)

Lemma load_b64_ascii (text : str) :
  forallb is_ascii text = true ->
  BaseCursorData.load (urlsafe_b64encode text) = json_loads text.
Proof.
  intros Ha. destruct (token_roundtrip text Ha) as (token & _ & -> & Hdec).
  unfold BaseCursorData.load.
  destruct (utf8_encode (urlsafe_b64encode text)) as [b|]; [|discriminate].
  cbn [obind] in Hdec |- *.
  destruct (urlsafe_b64decode b) as [raw|]; [|discriminate].
  cbn [obind] in Hdec |- *. rewrite Hdec. reflexivity.
Qed.

(** Sextets that do not fill their last quad, and no pad: [a2b_base64]
    raises. *)
Lemma a2b_loop_short (s : bytes) :
  Forall (fun c => (c =? 61) = false /\ b64_value c <> None) s ->
  forall quad_pos leftchar pads,
    (quad_pos < 4)%nat -> Nat.modulo (quad_pos + length s) 4 <> 0%nat ->
    a2b_loop s quad_pos leftchar pads = None.
Proof.
  induction 1 as [|ch s [Hp Hv] _ IH]; intros quad_pos leftchar pads Hq Hm.
  - cbn [a2b_loop]. rewrite Nat.add_0_r, Nat.mod_small in Hm by exact Hq.
    apply Nat.eqb_neq in Hm. rewrite Hm. reflexivity.
  - cbn [a2b_loop length] in *. rewrite Hp.
    destruct (b64_value ch) as [v|]; [|congruence].
    destruct quad_pos as [|[|[|[|q]]]]; try lia.
    + apply IH; [lia|]. replace (1 + length s)%nat with (0 + S (length s))%nat by lia.
      exact Hm.
    + rewrite IH; [reflexivity | lia |].
      replace (2 + length s)%nat with (1 + S (length s))%nat by lia. exact Hm.
    + rewrite IH; [reflexivity | lia |].
      replace (3 + length s)%nat with (2 + S (length s))%nat by lia. exact Hm.
    + rewrite IH; [reflexivity | lia |].
      replace (3 + S (length s))%nat with (0 + length s + 1 * 4)%nat in Hm by lia.
      rewrite Nat.Div0.mod_add in Hm. exact Hm.
Qed.

Lemma urlsafe_data_char (c : Z) :
  is_urlsafe_char c = true -> (c =? 61) = false ->
  is_ascii c = true
  /\ (urlsafe_decode_translation c =? 61) = false
  /\ b64_value (urlsafe_decode_translation c) <> None.
Proof.
  unfold is_urlsafe_char, urlsafe_decode_translation, is_ascii. intros H Hp.
  rewrite Hp, orb_false_r in H.
  destruct (Z.eqb_spec c 45) as [E | N1]; [subst c; repeat split; discriminate|].
  destruct (Z.eqb_spec c 95) as [E | N2]; [subst c; repeat split; discriminate|].
  rewrite !orb_false_r in H. split; [|split; [exact Hp|]].
  - apply in_range_spec.
    repeat (apply orb_true_iff in H as [H | H]); apply in_range_spec in H; lia.
  - unfold b64_value.
    destruct (in_range 65 90 c); [discriminate|].
    destruct (in_range 97 122 c); [discriminate|].
    destruct (in_range 48 57 c); [discriminate | discriminate H].
Qed.

(** A token of letters, digits, [-] and [_] whose length is no multiple of
    four is no base64. *)
Lemma load_short_quad (token : str) :
  forallb is_urlsafe_char token = true -> lacks 61 token = true ->
  Nat.modulo (length token) 4 <> 0%nat ->
  BaseCursorData.load token = None.
Proof.
  intros Hc Hp Hm.
  assert (H : forallb is_ascii token = true
              /\ Forall (fun c => (c =? 61) = false /\ b64_value c <> None)
                   (map urlsafe_decode_translation token)).
  { clear Hm. induction token as [|c t IH]; [split; [reflexivity | constructor]|].
    cbn [forallb] in Hc. apply andb_true_iff in Hc as [Hc Ht].
    apply lacks_cons in Hp as [Hp Hl].
    destruct (IH Ht Hl) as [I1 I2].
    destruct (urlsafe_data_char c Hc Hp) as (A1 & A2 & A3).
    split; [cbn [forallb]; rewrite A1, I1; reflexivity|].
    cbn [map]. constructor; auto. }
  destruct H as [Ha Hf]. unfold BaseCursorData.load.
  rewrite (utf8_encode_ascii _ Ha). cbn [obind].
  unfold urlsafe_b64decode, a2b_base64.
  rewrite (a2b_loop_short _ Hf); [reflexivity | lia |].
  rewrite length_map. exact Hm.
Qed.

Lemma utf8_decode_bad_lead (b : Z) (rest : bytes) :
  bad_utf8_lead b -> utf8_decode (b :: rest) = None.
Proof.
  intros H. cbn [utf8_decode].
  replace (in_range 0 127 b) with false
    by (symmetry; apply in_range_false; destruct H; lia).
  replace (in_range 194 223 b) with false
    by (symmetry; apply in_range_false; destruct H; lia).
  replace (in_range 224 239 b) with false
    by (symmetry; apply in_range_false; destruct H; lia).
  replace (in_range 240 244 b) with false
    by (symmetry; apply in_range_false; destruct H; lia).
  reflexivity.
Qed.

(** The base64 of bytes that are no UTF-8 is rejected. *)
Lemma load_bad_utf8 (b : Z) (rest : bytes) :
  Forall is_byte (b :: rest) -> bad_utf8_lead b ->
  BaseCursorData.load (urlsafe_b64encode (b :: rest)) = None.
Proof.
  intros Hb Hl. unfold BaseCursorData.load.
  rewrite (utf8_encode_ascii _ (b2a_base64_ascii _ _ (Nat.lt_succ_diag_r _) Hb)).
  cbn [obind]. rewrite (b64_roundtrip _ Hb). cbn [obind].
  rewrite (utf8_decode_bad_lead _ _ Hl). reflexivity.
Qed.

(** A text that starts with a character no JSON value starts with is
    rejected. *)
Lemma json_loads_bad_start (c : Z) (rest : str) :
  json_value_start c = false -> json_ws c = false ->
  json_loads (c :: rest) = None.
Proof.
  unfold json_value_start. intros H Hw.
  repeat (apply orb_false_iff in H as [H ?]).
  assert (Hd : in_range 49 57 c = false /\ (c =? 48) = false).
  { match goal with
    | Hd : in_range 48 57 c = false |- _ => apply in_range_false in Hd
    end.
    split; [apply in_range_false | apply Z.eqb_neq]; lia. }
  destruct Hd as [Hd1 Hd2].
  repeat match goal with
         | E : (c =? ?k) = false |- _ =>
             apply Z.eqb_neq in E
         end.
  unfold json_loads. destruct (strip_prefix [65279] (c :: rest)); [reflexivity|].
  rewrite (skip_ws_head c rest Hw).
  replace (2 * length (c :: rest) + 2)%nat with (S (2 * length rest + 3))%nat
    by (cbn [length]; lia).
  cbn [scan_once].
  repeat match goal with
         | |- context [c =? ?k] =>
             destruct (Z.eqb_spec c k); [congruence|]
         end.
  unfold scan_constant. cbn [strip_prefix lit list_ascii_of_string map].
  repeat match goal with
         | |- context [?k =? c] =>
             let k' := eval vm_compute in k in
             change (k =? c) with (k' =? c);
             destruct (Z.eqb_spec k' c); [congruence|]
         end.
  unfold match_number, number_sign.
  repeat match goal with
         | |- context [c =? ?k] =>
             destruct (Z.eqb_spec c k); [congruence|]
         end.
  unfold number_int. rewrite Hd1.
  destruct (Z.eqb_spec c 48); [congruence | reflexivity].
Qed.

(** *** Scalars *)

Lemma constant_scans_as (vt : str) (v : pyval) :
  (vt = lit "null" /\ v = PNone)
  \/ (vt = lit "true" /\ v = PBool true)
  \/ (vt = lit "false" /\ v = PBool false) ->
  scans_as vt v.
Proof.
  intros [[-> ->] | [[-> ->] | [-> ->]]];
    (split; [discriminate|]; split; [reflexivity|]; intros f w c r _ _; reflexivity).
Qed.

Lemma scalar_scans_as (v : pyval) : is_scalar v -> scans_as (json_dumps v) (reloaded v).
Proof.
  destruct v as [|b|n|l|s|l|d]; cbn [is_scalar]; intros H; try contradiction.
  - apply constant_scans_as. auto.
  - destruct b; apply constant_scans_as; auto.
  - apply int_scans_as.
  - apply string_scans_as. exact H.
Qed.

Lemma scalar_ascii (v : pyval) : is_scalar v -> forallb is_ascii (json_dumps v) = true.
Proof.
  destruct v as [|b|n|l|s|l|d]; cbn [is_scalar]; intros H; try contradiction.
  - reflexivity.
  - destruct b; reflexivity.
  - apply int_repr_ascii.
  - apply encode_basestring_ascii_ascii.
Qed.

(** A scalar alone is read back as itself. *)
Lemma json_loads_scalar (v : pyval) :
  is_scalar v -> json_loads (json_dumps v) = Some (reloaded v).
Proof.
  intros H.
  assert (S1 : forall f, scan_once (S f) (json_dumps v) = Some (reloaded v, [])).
  { intros f. destruct v as [|b|n|l|s|l|d]; cbn [is_scalar] in H; try contradiction.
    - reflexivity.
    - destruct b; reflexivity.
    - rewrite <- (app_nil_r (json_dumps (PInt n))). apply scan_once_int. reflexivity.
    - rewrite <- (app_nil_r (json_dumps (PStr s))). apply scan_once_string. exact H. }
  destruct (scalar_scans_as v H) as (Hne & Hws & _).
  unfold json_loads.
  assert (B : strip_prefix [65279] (json_dumps v) = None).
  { pose proof (scalar_ascii v H) as Ha.
    destruct (json_dumps v) as [|c t]; [congruence|].
    cbn [forallb] in Ha. apply andb_true_iff in Ha as [Hc _].
    apply in_range_spec in Hc. cbn [strip_prefix].
    destruct (Z.eqb_spec 65279 c); [lia | reflexivity]. }
  rewrite B, Hws.
  replace (2 * length (json_dumps v) + 2)%nat
    with (S (2 * length (json_dumps v) + 1))%nat by lia.
  rewrite S1. reflexivity.
Qed.

Lemma object2_default (k1 v1 k2 v2 : str) :
  object2 k1 v1 k2 v2
  = object2_with (item_separator [] [32]) (key_separator [] [32]) k1 v1 k2 v2.
Proof. reflexivity. Qed.

(** The token of an object with two scalar members loads as the object. *)
Lemma load_object2_scalars (k1 k2 : str) (v1 v2 : pyval) :
  wf_str k1 -> wf_str k2 -> is_scalar v1 -> is_scalar v2 ->
  BaseCursorData.load
    (urlsafe_b64encode (object2 k1 (json_dumps v1) k2 (json_dumps v2)))
  = Some (PDict (dict_of_pairs [(join_pairs k1, reloaded v1);
                                (join_pairs k2, reloaded v2)])).
Proof.
  intros K1 K2 S1 S2. rewrite load_b64_ascii.
  - rewrite object2_default.
    apply json_loads_object2_with; auto using scalar_scans_as.
  - apply object2_ascii; apply scalar_ascii; assumption.
Qed.

Lemma load_object1_scalar (k : str) (v : pyval) :
  wf_str k -> is_scalar v ->
  BaseCursorData.load (urlsafe_b64encode (object1 k (json_dumps v)))
  = Some (PDict [(join_pairs k, reloaded v)]).
Proof.
  intros K S1. destruct (scalar_scans_as v S1) as (Hne & Hws & Hv).
  rewrite load_b64_ascii.
  - apply json_loads_object1; auto.
    intros f r. apply (Hv f [] 125 r); auto.
  - apply object1_ascii, scalar_ascii. assumption.
Qed.

Lemma load_scalar (v : pyval) :
  is_scalar v ->
  BaseCursorData.load (urlsafe_b64encode (json_dumps v)) = Some (reloaded v).
Proof.
  intros H. rewrite load_b64_ascii by (apply scalar_ascii; exact H).
  apply json_loads_scalar. exact H.
Qed.

Lemma reloaded_not_dict (v : pyval) :
  is_scalar v ->
  TableListCursor.init (reloaded v) = None
  /\ QueryResultCursor.init (reloaded v) = None.
Proof.
  destruct v; cbn [is_scalar]; intros H; try contradiction; split; reflexivity.
Qed.

Lemma dict_of_two (k1 k2 : str) (v1 v2 : pyval) :
  k1 <> k2 -> dict_of_pairs [(k1, v1); (k2, v2)] = [(k1, v1); (k2, v2)].
Proof.
  intros H. unfold dict_of_pairs. cbn [fold_left dict_set fst snd].
  replace (str_eqb k1 k2) with false; [reflexivity|].
  symmetry. apply str_eqb_neq. exact H.
Qed.

(** C3, as the code has it.  For a token short enough to stay within the
    limits of the interpreter, [decode] either returns a cursor or raises
    the variant's [ValueError], and it returns one exactly when the token
    has a UTF-8 encoding, that decodes as base64, the bytes are UTF-8,
    [json.loads] accepts the text, the value is an object whose keys are
    all among [offset] and the variant's discriminator, and [offset] is
    present.  Tokens of any length are rejected when they are letters,
    digits, [-] and [_] that do not fill their last quad, when they are
    the base64 of bytes that cannot start a UTF-8 text, of a text that
    cannot start a JSON value, of a scalar, of an object without [offset]
    or of an object with another key.  The types of the members are not
    checked and the discriminator may be missing: the token of an object
    with scalar members decodes to the cursor holding them as they are,
    and the token of an object with [offset] alone to the cursor with the
    empty string for discriminator.  A literal [NaN], which [json.loads]
    takes, is accepted as an offset. *)
Theorem decode_succeeds_iff (token : str) :
  short_token token ->
  let table_error := @Err TableListCursor.t (ValueError InvalidTableListCursor) in
  let query_error := @Err QueryResultCursor.t (ValueError InvalidQueryResultCursor) in
  let rejected := fun t : str =>
    TableListCursor.decode t = table_error /\ QueryResultCursor.decode t = query_error in
  (forall v,
     BaseCursorData.load token = Some v
     <-> exists b raw text,
           utf8_encode token = Some b
           /\ urlsafe_b64decode b = Some raw
           /\ utf8_decode raw = Some text
           /\ json_loads text = Some v)
  /\ (forall c,
        TableListCursor.decode token = Ok c
        <-> exists data,
              BaseCursorData.load token = Some data
              /\ accepts (lit "database") data
                   (TableListCursor.offset c) (TableListCursor.database c))
  /\ (TableListCursor.decode token = table_error
      <-> ~ exists data off dv,
              BaseCursorData.load token = Some data
              /\ accepts (lit "database") data off dv)
  /\ (forall c,
        QueryResultCursor.decode token = Ok c
        <-> exists data,
              BaseCursorData.load token = Some data
              /\ accepts (lit "query_hash") data
                   (QueryResultCursor.offset c) (QueryResultCursor.query_hash c))
  /\ (QueryResultCursor.decode token = query_error
      <-> ~ exists data off dv,
              BaseCursorData.load token = Some data
              /\ accepts (lit "query_hash") data off dv)
  (* not base64, not UTF-8, not JSON, not an object *)
  /\ (forall t,
        forallb is_urlsafe_char t = true -> lacks 61 t = true ->
        Nat.modulo (length t) 4 <> 0%nat ->
        rejected t)
  /\ (forall b rest,
        Forall is_byte (b :: rest) -> bad_utf8_lead b ->
        rejected (urlsafe_b64encode (b :: rest)))
  /\ (forall c rest,
        forallb is_ascii (c :: rest) = true ->
        json_value_start c = false -> json_ws c = false ->
        rejected (urlsafe_b64encode (c :: rest)))
  /\ (forall v, is_scalar v -> rejected (urlsafe_b64encode (json_dumps v)))
  (* objects of scalars *)
  /\ (forall v1 v2,
        is_scalar v1 -> is_scalar v2 ->
        TableListCursor.decode
          (urlsafe_b64encode
             (object2 (lit "offset") (json_dumps v1) (lit "database") (json_dumps v2)))
        = Ok (TableListCursor.mk (reloaded v1) (reloaded v2))
        /\ QueryResultCursor.decode
             (urlsafe_b64encode
                (object2 (lit "offset") (json_dumps v1)
                   (lit "query_hash") (json_dumps v2)))
           = Ok (QueryResultCursor.mk (reloaded v1) (reloaded v2))
        /\ TableListCursor.decode
             (urlsafe_b64encode (object1 (lit "offset") (json_dumps v1)))
           = Ok (TableListCursor.mk (reloaded v1) (PStr []))
        /\ QueryResultCursor.decode
             (urlsafe_b64encode (object1 (lit "offset") (json_dumps v1)))
           = Ok (QueryResultCursor.mk (reloaded v1) (PStr []))
        /\ TableListCursor.decode
             (urlsafe_b64encode (object1 (lit "database") (json_dumps v2)))
           = table_error
        /\ QueryResultCursor.decode
             (urlsafe_b64encode (object1 (lit "query_hash") (json_dumps v2)))
           = query_error)
  /\ (forall k v1 v2,
        wf_str k -> is_scalar v1 -> is_scalar v2 ->
        join_pairs k <> lit "offset" ->
        let token' :=
          urlsafe_b64encode
            (object2 (lit "offset") (json_dumps v1) k (json_dumps v2)) in
        (join_pairs k <> lit "database" -> TableListCursor.decode token' = table_error)
        /\ (join_pairs k <> lit "query_hash"
            -> QueryResultCursor.decode token' = query_error))
  (* a constant that is no JSON *)
  /\ TableListCursor.decode (urlsafe_b64encode (object1 (lit "offset") (lit "NaN")))
     = Ok (TableListCursor.mk (PFloat (lit "NaN")) (PStr [])).
Proof.
  intros _ table_error query_error rejected.
  assert (T : forall c,
        TableListCursor.decode token = Ok c
        <-> exists data,
              BaseCursorData.load token = Some data
              /\ accepts (lit "database") data
                   (TableListCursor.offset c) (TableListCursor.database c)).
  { intros c. rewrite table_decode_ok. split; intros (data & L & A); exists data;
      (split; [exact L | apply table_init_spec; exact A]). }
  assert (Q : forall c,
        QueryResultCursor.decode token = Ok c
        <-> exists data,
              BaseCursorData.load token = Some data
              /\ accepts (lit "query_hash") data
                   (QueryResultCursor.offset c) (QueryResultCursor.query_hash c)).
  { intros c. rewrite query_decode_ok. split; intros (data & L & A); exists data;
      (split; [exact L | apply query_init_spec; exact A]). }
  assert (R : forall t, BaseCursorData.load t = None -> rejected t).
  { intros t L. unfold rejected, TableListCursor.decode, QueryResultCursor.decode.
    rewrite L. split; reflexivity. }
  split; [intros v; apply load_spec|].
  split; [exact T|]. split; [|split; [exact Q|]].
  { split.
    - intros E (data & off & dv & L & A).
      assert (H : TableListCursor.decode token = Ok (TableListCursor.mk off dv)).
      { apply T. exists data. split; assumption. }
      unfold table_error in E. congruence.
    - intros N. destruct (table_decode_cases token) as [[c Hc] | E]; [|exact E].
      exfalso. apply N. apply T in Hc as (data & L & A). eauto. }
  split.
  { split.
    - intros E (data & off & dv & L & A).
      assert (H : QueryResultCursor.decode token = Ok (QueryResultCursor.mk off dv)).
      { apply Q. exists data. split; assumption. }
      unfold query_error in E. congruence.
    - intros N. destruct (query_decode_cases token) as [[c Hc] | E]; [|exact E].
      exfalso. apply N. apply Q in Hc as (data & L & A). eauto. }
  split; [intros t H1 H2 H3; apply R, load_short_quad; assumption|].
  split; [intros b rest H1 H2; apply R, load_bad_utf8; assumption|].
  split.
  { intros c rest Ha H1 H2. apply R. rewrite load_b64_ascii by exact Ha.
    apply json_loads_bad_start; assumption. }
  split.
  { intros v Hv. unfold rejected, TableListCursor.decode, QueryResultCursor.decode.
    rewrite (load_scalar v Hv). cbn [obind].
    destruct (reloaded_not_dict v Hv) as [-> ->]. split; reflexivity. }
  split.
  { intros v1 v2 H1 H2.
    unfold TableListCursor.decode, QueryResultCursor.decode.
    rewrite !load_object2_scalars, !load_object1_scalar
      by auto using wf_lit_offset, wf_lit_database, wf_lit_query_hash.
    repeat split. }
  split.
  { intros k v1 v2 Hk H1 H2 No token'. subst token'.
    unfold TableListCursor.decode, QueryResultCursor.decode.
    rewrite load_object2_scalars by auto using wf_lit_offset.
    change (join_pairs (lit "offset")) with (lit "offset").
    rewrite dict_of_two by congruence. cbn [obind].
    unfold TableListCursor.init, QueryResultCursor.init. cbn [forallb fst].
    change (str_eqb (lit "offset") (lit "offset")) with true. cbn [orb andb].
    replace (str_eqb (join_pairs k) (lit "offset")) with false
      by (symmetry; apply str_eqb_neq; exact No).
    cbn [orb]. split; intros Nd.
    - replace (str_eqb (join_pairs k) (lit "database")) with false
        by (symmetry; apply str_eqb_neq; exact Nd).
      reflexivity.
    - replace (str_eqb (join_pairs k) (lit "query_hash")) with false
        by (symmetry; apply str_eqb_neq; exact Nd).
      reflexivity. }
  vm_compute. reflexivity.
Qed.

Lemma decode_succeeds_iff_witness :
  TableListCursor.decode (lit "eyJvZmZzZXQiOiA1fQ==")
    = Ok (TableListCursor.mk (PInt 5) (PStr []))
  <-> exists data,
        BaseCursorData.load (lit "eyJvZmZzZXQiOiA1fQ==") = Some data
        /\ accepts (lit "database") data (PInt 5) (PStr []).
Proof.
  refine (proj1 (proj2 (decode_succeeds_iff (lit "eyJvZmZzZXQiOiA1fQ==") _))
            (TableListCursor.mk (PInt 5) (PStr []))).
  apply Nat.leb_le. reflexivity.
Defined.
